(** * monai/transforms/utils.py: slice clipping, centred resize, crop-centre
      sampling and affine builders

    A shallow embedding of the algorithmic core of the module together with
    the small part of numpy and of Python it relies on.

    - Python integers are unbounded: they are [Z]; [//] is [Z.div] (floor).
    - A numpy array is its shape together with its elements as nested rows
      (C order); arrays passed by reference live in a store, and a function
      that receives them is a program on the store.
    - Exceptions are results [Raise e]; the value [None] is [None].
    - The [uint16] cast of [valid_end] is written out as a reduction modulo
      [2^16].
    - The random source is a state with the two draws the code makes.
    - float64 scalars of the affine builders are an abstract type with the
      operations the code uses; the theorems that need laws of exact
      arithmetic say which ones, and real numbers are an instance.  Binary64
      floats are an instance too, with the sine and the cosine as
      arguments; statements that depend on rounding, overflow or NaN are
      made on them.
    - [spatial_dims] is a number of dimensions, a natural number.

    Definitions come first, theorems after them. *)

From Stdlib Require Import ZArith Lia Lra QArith Reals RNsatz String Floats.
From stdpp Require Import base list numbers.

Set Warnings "-register-all".
Open Scope Z_scope.

(** ** Exceptions and results *)

Inductive exn : Type :=
  | ValueError (msg : string)
  | IndexError (msg : string)
  | AssertionError (msg : string)
  | TypeError (msg : string)
  | NotImplementedError.

Inductive result (X : Type) : Type :=
  | Ok (x : X)
  | Raise (e : exn).
Arguments Ok {X} x.
Arguments Raise {X} e.

Definition rbind {X Y} (r : result X) (k : X -> result Y) : result Y :=
  match r with
  | Ok x => k x
  | Raise e => Raise e
  end.

Notation "x <- r ;; k" := (rbind r (fun x => k))
  (at level 100, r at next level, right associativity).

Fixpoint rmapM {X Y} (f : X -> result Y) (l : list X) : result (list Y) :=
  match l with
  | [] => Ok []
  | x :: l' => y <- f x ;; ys <- rmapM f l' ;; Ok (y :: ys)
  end.

(** ** Python slices (step 1) *)

Record slice : Type := Slice { slice_start : option Z; slice_stop : option Z }.

(** [slice(None)] *)
Definition slice_all : slice := Slice None None.

(** CPython's adjustment of one bound against a length [n]. *)
Definition adjust_bound (n i : Z) : Z :=
  if i <? 0 then Z.max 0 (i + n) else Z.min i n.

(** [s.indices(n)] for a slice without step. *)
Definition slice_indices (s : slice) (n : Z) : Z * Z :=
  (from_option (adjust_bound n) 0 (slice_start s),
   from_option (adjust_bound n) n (slice_stop s)).

(** Number of positions selected on an axis of length [n]. *)
Definition slice_len (s : slice) (n : Z) : Z :=
  Z.max 0 ((slice_indices s n).2 - (slice_indices s n).1).

(** The bounds written in the slice are positions of the axis themselves:
    nothing is wrapped around or cut off when the slice is applied. *)
Definition slice_within (n : Z) (s : slice) : Prop :=
  from_option (fun a => 0 <= a <= n) True (slice_start s) /\
  from_option (fun b => 0 <= b <= n) True (slice_stop s) /\
  from_option (fun a => from_option (fun b => a <= b) True (slice_stop s))
              True (slice_start s).

(** Integer index with Python's negative wrap. *)
Definition norm_index (i n : Z) : Z := if i <? 0 then i + n else i.

Inductive index : Type :=
  | ISlice (s : slice)
  | IInt (i : Z).

(** ** numpy *)

(** [np.clip(a, a_min, a_max)] is [minimum(maximum(a, a_min), a_max)]. *)
Definition np_clip (a a_min a_max : Z) : Z := Z.min (Z.max a a_min) a_max.

(** A reference to a stored array is its position in the store. *)
Abbreviation ref := nat (only parsing).

Section Arrays.
Context {A : Type}.

Inductive nest : Type :=
  | Leaf (a : A)
  | Node (l : list nest).

Record ndarray : Type := NdArray { shape : list nat; data : nest }.

Definition ndim (a : ndarray) : nat := length (shape a).

Fixpoint has_shape (s : list nat) (x : nest) : Prop :=
  match s, x with
  | [], Leaf _ => True
  | n :: s', Node l => length l = n /\ Forall (has_shape s') l
  | _, _ => False
  end.

(** An array whose elements fill its shape. *)
Definition wf (a : ndarray) : Prop := has_shape (shape a) (data a).

(** Element at a full multi-index. *)
Fixpoint nest_at (p : list nat) (x : nest) : option A :=
  match p, x with
  | [], Leaf a => Some a
  | i :: p', Node l =>
      match l !! i with
      | Some y => nest_at p' y
      | None => None
      end
  | _, _ => None
  end.

Fixpoint full_nest (s : list nat) (v : A) : nest :=
  match s with
  | [] => Leaf v
  | n :: s' => Node (replicate n (full_nest s' v))
  end.

(** [np.full(dims, v, dtype)], with [v] already of the element type. *)
Definition np_full (dims : list Z) (v : A) : result ndarray :=
  if forallb (fun d => 0 <=? d) dims
  then Ok (NdArray (Z.to_nat <$> dims) (full_nest (Z.to_nat <$> dims) v))
  else Raise (ValueError "negative dimensions are not allowed").

(** Shape of [a[idx]] for an array of shape [s]. *)
Fixpoint index_shape (idx : list index) (s : list nat) : result (list nat) :=
  match idx, s with
  | [], _ => Ok s
  | _ :: _, [] => Raise (IndexError "too many indices for array")
  | ISlice sl :: idx', n :: s' =>
      r <- index_shape idx' s' ;;
      Ok (Z.to_nat (slice_len sl (Z.of_nat n)) :: r)
  | IInt i :: idx', n :: s' =>
      if (0 <=? norm_index i (Z.of_nat n)) && (norm_index i (Z.of_nat n) <? Z.of_nat n)
      then index_shape idx' s'
      else Raise (IndexError "index out of bounds")
  end.

(** Rows [lo, hi) of a list, as a slice selects them. *)
Definition rows (sl : slice) (l : list nest) : list nest :=
  let '(lo, hi) := slice_indices sl (Z.of_nat (length l)) in
  take (Z.to_nat (hi - lo)) (drop (Z.to_nat lo) l).

(** Elements of [a[idx]]. *)
Fixpoint index_data (idx : list index) (x : nest) : nest :=
  match idx, x with
  | [], _ => x
  | ISlice sl :: idx', Node l => Node (index_data idx' <$> rows sl l)
  | IInt i :: idx', Node l =>
      match l !! Z.to_nat (norm_index i (Z.of_nat (length l))) with
      | Some y => index_data idx' y
      | None => x
      end
  | _ :: _, Leaf _ => x
  end.

(** Elements after [a[idx] = v], for [v] of the shape of [a[idx]]. *)
Fixpoint write (idx : list index) (x v : nest) : nest :=
  match idx, x with
  | [], _ => v
  | ISlice sl :: idx', Node l =>
      let '(lo, hi) := slice_indices sl (Z.of_nat (length l)) in
      let k := Z.to_nat (hi - lo) in
      match v with
      | Node lv =>
          Node (take (Z.to_nat lo) l
                ++ zip_with (write idx') (take k (drop (Z.to_nat lo) l)) lv
                ++ drop (Z.to_nat lo + k) l)
      | Leaf _ => x
      end
  | IInt i :: idx', Node l =>
      Node (alter (fun y => write idx' y v)
                  (Z.to_nat (norm_index i (Z.of_nat (length l)))) l)
  | _ :: _, Leaf _ => x
  end.

(** Drop [k] leading axes of length 1 (assignment lets the value have
    them). *)
Fixpoint strip_unit_axes (k : nat) (vs : list nat) (v : nest)
  : option (list nat * nest) :=
  match k with
  | O => Some (vs, v)
  | S k' =>
      match vs, v with
      | 1%nat :: vs', Node [y] => strip_unit_axes k' vs' y
      | _, _ => None
      end
  end.

(** Broadcast a value of shape [vs] (no longer than [r]) to shape [r]. *)
Fixpoint stretch (r vs : list nat) (v : nest) : option nest :=
  match r with
  | [] => match vs with [] => Some v | _ :: _ => None end
  | n :: r' =>
      if decide (length vs < length r)%nat
      then (fun y => Node (replicate n y)) <$> stretch r' vs v
      else
        match vs, v with
        | m :: vs', Node l =>
            if decide (m = n) then Node <$> mapM (stretch r' vs') l
            else if decide (m = 1%nat)
            then match l with
                 | [y] => (fun z => Node (replicate n z)) <$> stretch r' vs' y
                 | _ => None
                 end
            else None
        | _, _ => None
        end
  end.

Definition broadcast_to (r : list nat) (v : ndarray) : option nest :=
  match strip_unit_axes (length (shape v) - length r) (shape v) (data v) with
  | Some (vs, x) => stretch r vs x
  | None => None
  end.

(** [a[idx]] *)
Definition np_getitem (a : ndarray) (idx : list index) : result ndarray :=
  s <- index_shape idx (shape a) ;;
  Ok (NdArray s (index_data idx (data a))).

(** The array after [a[idx] = v]. *)
Definition np_setitem (a : ndarray) (idx : list index) (v : ndarray)
  : result ndarray :=
  r <- index_shape idx (shape a) ;;
  match broadcast_to r v with
  | Some x => Ok (NdArray (shape a) (write idx (data a) x))
  | None => Raise (ValueError "could not broadcast input array")
  end.

(** *** The store of arrays and the monad of array programs

    A program takes the store and returns its result (or the exception
    raised) with the store it leaves. [load] of a position that holds no
    array has no counterpart in Python and is reported as an error. *)

Definition M (X : Type) : Type := list ndarray -> result X * list ndarray.

Definition ret {X} (x : X) : M X := fun h => (Ok x, h).
Definition bind {X Y} (m : M X) (k : X -> M Y) : M Y :=
  fun h => match m h with
           | (Ok x, h') => k x h'
           | (Raise e, h') => (Raise e, h')
           end.
Definition lift {X} (r : result X) : M X := fun h => (r, h).
Definition load (r : ref) : M ndarray :=
  fun h => match h !! r with
           | Some a => (Ok a, h)
           | None => (Raise (ValueError "dangling reference"), h)
           end.
Definition store (r : ref) (a : ndarray) : M unit :=
  fun h => (Ok tt, <[r := a]> h).
Definition alloc (a : ndarray) : M ref :=
  fun h => (Ok (length h), h ++ [a]).
End Arrays.

Arguments nest A : clear implicits.
Arguments ndarray A : clear implicits.
Abbreviation heap A := (list (ndarray A)) (only parsing).
Arguments M A X : clear implicits.

Notation "x <~ m ;; k" := (bind m (fun x => k))
  (at level 100, m at next level, right associativity).

(** ** copypaste_arrays *)

(** Truth value of an entry of [dims]: [None] and [0] are false. *)
Definition truthy (dim : option Z) : bool :=
  match dim with
  | Some d => negb (d =? 0)
  | None => false
  end.

(** The two slices computed in the body of the loop for one axis. *)
Definition window (ss ds sc dc dim : Z) : slice * slice :=
  let d1 := np_clip (dim `div` 2) 0 (Z.min sc dc) in
  let d2 := np_clip (dim `div` 2 + 1) 0 (Z.min (ss - sc) (ds - dc)) in
  (Slice (Some (sc - d1)) (Some (sc + d2)),
   Slice (Some (dc - d1)) (Some (dc + d2))).

(** The [for] loop over the zipped sequences, from index [i] on
    ([range(src.ndim)] is as long as [src.shape]); [acc] is the pair
    [(srcslices, destslices)], whose entry [i] exists whenever the loop
    assigns it. *)
Fixpoint copypaste_loop (i : nat) (sshape dshape : list nat)
    (srccenter destcenter : list Z) (dims : list (option Z))
    (acc : list slice * list slice) : list slice * list slice :=
  match sshape, dshape, srccenter, destcenter, dims with
  | ss :: sshape', ds :: dshape', sc :: srccenter', dc :: destcenter',
    dim :: dims' =>
      let acc' :=
        if truthy dim
        then let w := window (Z.of_nat ss) (Z.of_nat ds) sc dc (default 0 dim) in
             (<[i := w.1]> acc.1, <[i := w.2]> acc.2)
        else acc in
      copypaste_loop (S i) sshape' dshape' srccenter' destcenter' dims' acc'
  | _, _, _, _, _ => acc
  end.

Definition copypaste_arrays {A} (src dest : ref) (srccenter destcenter : list Z)
    (dims : list (option Z)) : M A (list slice * list slice) :=
  s <~ load src ;;
  d <~ load dest ;;
  let srcslices := replicate (ndim s) slice_all in
  let destslices := replicate (ndim d) slice_all in
  ret (copypaste_loop 0 (shape s) (shape d) srccenter destcenter dims
         (srcslices, destslices)).

(** ** resize_center *)

(** [x or y] on an optional integer; [y] is evaluated only when needed. *)
Definition py_or (x : option Z) (y : result Z) : result Z :=
  if truthy x then Ok (default 0 x) else y.

Definition shape_item (s : list nat) (i : nat) : result Z :=
  match s !! i with
  | Some n => Ok (Z.of_nat n)
  | None => Raise (IndexError "tuple index out of range")
  end.

Fixpoint resolve_dims (i : nat) (resize_dims : list (option Z)) (s : list nat)
  : result (list Z) :=
  match resize_dims with
  | [] => Ok []
  | d :: rest =>
      x <- py_or d (shape_item s i) ;;
      xs <- resolve_dims (S i) rest s ;;
      Ok (x :: xs)
  end.

Definition half_shape (s : list nat) : list Z :=
  (fun n => Z.of_nat n `div` 2) <$> s.

Definition resize_center {A} (img : ref) (resize_dims : list (option Z))
    (fill_value : A) : M A ref :=
  a <~ load img ;;
  resize_dims <~ lift (resolve_dims 0 resize_dims (shape a)) ;;
  d <~ lift (np_full resize_dims fill_value) ;;
  dest <~ alloc d ;;
  let half_img_shape := half_shape (shape a) in
  let half_dest_shape := half_shape (shape d) in
  slices <~ copypaste_arrays img dest half_img_shape half_dest_shape
              (Some <$> resize_dims) ;;
  let '(srcslices, destslices) := slices in
  a <~ load img ;;
  v <~ lift (np_getitem a (ISlice <$> srcslices)) ;;
  d <~ load dest ;;
  d' <~ lift (np_setitem d (ISlice <$> destslices) v) ;;
  _ <~ store dest d' ;;
  ret dest.

(** ** generate_pos_neg_label_crop_centers *)

(** *** More of numpy: elementwise maps, reduction over axis 0, ravel *)

Fixpoint nest_map {V W} (f : V -> W) (x : nest V) : nest W :=
  match x with
  | Leaf a => Leaf (f a)
  | Node l => Node (nest_map f <$> l)
  end.

(** Elementwise [or] of two boolean arrays of one shape (the left one is
    returned where the shapes differ, which the reduction below never
    meets on an array that fills its shape). *)
Fixpoint nest_or (x y : nest bool) : nest bool :=
  match x, y with
  | Leaf a, Leaf b => Leaf (a || b)
  | Node l, Node k => Node (zip_with nest_or l k)
  | _, _ => x
  end.

(** [a.ravel()], the elements in C order. *)
Fixpoint ravel {V} (x : nest V) : list V :=
  match x with
  | Leaf a => [a]
  | Node l => concat (ravel <$> l)
  end.

(** [np.any(a, axis=0)], with [truth] the truth value of an element. *)
Definition np_any_axis0 {V} (truth : V -> bool) (a : ndarray V)
  : result (ndarray bool) :=
  match shape a, data a with
  | _ :: spatial, Node chans =>
      Ok (NdArray spatial
            (fold_left nest_or (nest_map truth <$> chans)
               (full_nest spatial false)))
  | _, _ => Raise (ValueError "axis 0 is out of bounds")
  end.

(** [np.nonzero(l)[0]] for a flat boolean array; [i] is the index of the
    head. *)
Fixpoint nonzero_from (i : Z) (l : list bool) : list Z :=
  match l with
  | [] => []
  | b :: l' => if b then i :: nonzero_from (i + 1) l' else nonzero_from (i + 1) l'
  end.

Definition np_nonzero (l : list bool) : list Z := nonzero_from 0 l.

(** [np.logical_and] of two flat arrays, with numpy's broadcasting of a
    single element. *)
Definition np_logical_and (a b : list bool) : result (list bool) :=
  if decide (length a = length b) then Ok (zip_with andb a b)
  else match a, b with
       | [x], _ => Ok (andb x <$> b)
       | _, [y] => Ok ((fun x => andb x y) <$> a)
       | _, _ => Raise (ValueError "operands could not be broadcast together")
       end.

Definition size_of (s : list nat) : Z := fold_right (fun n acc => Z.of_nat n * acc) 1 s.

(** Coordinates of the flat index [idx], last axis first. *)
Fixpoint unravel_rev (idx : Z) (rev_shape : list nat) : list Z :=
  match rev_shape with
  | [] => []
  | n :: rest => idx `mod` Z.of_nat n :: unravel_rev (idx `div` Z.of_nat n) rest
  end.

(** [np.unravel_index(idx, s)] *)
Definition np_unravel_index (idx : Z) (s : list nat) : result (list Z) :=
  if (0 <=? idx) && (idx <? size_of s)
  then Ok (rev (unravel_rev idx (rev s)))
  else Raise (ValueError "index is out of bounds for array").

(** *** The range of valid centres *)

(** [x.astype(np.uint16)] for an integral value: the low 16 bits. *)
Definition to_uint16 (x : Z) : Z := x `mod` 65536.

(** [valid_end] before the loop that separates it from [valid_start]: the
    float [max_size + 1 - size / 2] is cut to an integer by the cast, which
    then keeps 16 bits. *)
Definition valid_end_cast (m s : Z) : Z := to_uint16 (Z.quot (2 * (m + 1) - s) 2).

(** [if valid_start[i] == valid_end[i]: valid_end[i] += 1], in uint16. *)
Definition bump_end (vs ve : Z) : Z := if vs =? ve then to_uint16 (ve + 1) else ve.

(** Lines 184-195: the assertions and the two bounds. *)
Definition valid_range (max_size : list nat) (size : list Z)
  : result (list Z * list Z) :=
  if negb (length max_size =? length size)%nat
  then Raise (AssertionError "expected size does not match label dim.")
  else if negb (forallb (fun d => 0 <=? d)
                  (zip_with (fun m s => Z.of_nat m - s) max_size size))
  then Raise (AssertionError "proposed roi is larger than image itself.")
  else
    let valid_start := (fun s => s `div` 2) <$> size in
    let valid_end := zip_with (fun m s => valid_end_cast (Z.of_nat m) s) max_size size in
    Ok (valid_start, zip_with bump_end valid_start valid_end).

(** *** Foreground and background *)

Section Sampler.
Context {V W G : Type}.
(** truth value of a label element; [above x t] is [x > t] on image
    elements *)
Context (truth : V -> bool) (above : W -> W -> bool).
(** the random source: [rand_state.rand()] and [rand_state.randint(n)] *)
Context (rand : G -> Q * G) (randint : Z -> G -> Z * G).

(** Lines 198-204. *)
Definition fg_bg_indicies (label : ndarray V) (image : option (ndarray W))
    (image_threshold : W) : result (list Z * list Z) :=
  any_label <- np_any_axis0 truth label ;;
  let label_flat := ravel (data any_label) in
  let fg_indicies := np_nonzero label_flat in
  match image with
  | Some img =>
      any_img <- np_any_axis0 (fun x => above x image_threshold) img ;;
      let img_flat := ravel (data any_img) in
      both <- np_logical_and img_flat (negb <$> label_flat) ;;
      Ok (fg_indicies, np_nonzero both)
  | None => Ok (fg_indicies, np_nonzero (negb <$> label_flat))
  end.

Inductive warning : Type :=
  | UnbalancedWarning (n_foreground n_background : nat).

(** Lines 206-211: the ratio used from here on and the warnings issued. *)
Definition balance (fg_indicies bg_indicies : list Z) (pos_ratio : Q)
  : result (Q * list warning) :=
  if (length fg_indicies =? 0)%nat || (length bg_indicies =? 0)%nat
  then
    if (length fg_indicies =? 0)%nat && (length bg_indicies =? 0)%nat
    then Raise (ValueError "no sampling location available.")
    else Ok (if (length fg_indicies =? 0)%nat then 0%Q else 1%Q,
             [UnbalancedWarning (length fg_indicies) (length bg_indicies)])
  else Ok (pos_ratio, []).

(** *** Drawing and shifting the centres *)

Definition Qltb (x y : Q) : bool := negb (Qle_bool y x).

(** The body of the inner loop for one coordinate ([valid_end[i] - 1] is
    computed on integers, as numpy 1.x does for a uint16 scalar and a Python
    int). *)
Definition shift_coord (c valid_start_i valid_end_i : Z) : Z :=
  let center_i := c in
  let center_i := if c <? valid_start_i then valid_start_i else center_i in
  let center_i := if valid_end_i <=? c then valid_end_i - 1 else center_i in
  center_i.

(** The inner loop, from coordinate [i] on. *)
Fixpoint shift_center (i : nat) (center : list Z) (valid_start valid_end : list Z)
  : result (list Z) :=
  match center with
  | [] => Ok []
  | c :: rest =>
      match valid_start !! i, valid_end !! i with
      | Some s, Some e =>
          rest' <- shift_center (S i) rest valid_start valid_end ;;
          Ok (shift_coord c s e :: rest')
      | _, _ => Raise (IndexError "index out of bounds")
      end
  end.

(** The flat index drawn for one sample. *)
Definition draw_index (fg_indicies bg_indicies : list Z) (pos_ratio : Q) (g : G)
  : result Z * G :=
  let '(u, g) := rand g in
  let indicies_to_use := if Qltb u pos_ratio then fg_indicies else bg_indicies in
  if Z.of_nat (length indicies_to_use) <=? 0
  then (Raise (ValueError "high <= 0"), g)
  else
    let '(random_int, g) := randint (Z.of_nat (length indicies_to_use)) g in
    match indicies_to_use !! Z.to_nat (norm_index random_int
                                         (Z.of_nat (length indicies_to_use))) with
    | Some idx =>
        if (0 <=? norm_index random_int (Z.of_nat (length indicies_to_use)))
        then (Ok idx, g)
        else (Raise (IndexError "index out of bounds"), g)
    | None => (Raise (IndexError "index out of bounds"), g)
    end.

(** The centre obtained from a flat index. *)
Definition center_of_index (label_shape : list nat) (valid_start valid_end : list Z)
    (idx : Z) : result (list Z) :=
  center <- np_unravel_index idx label_shape ;;
  let center := tail center in
  shift_center 0 center valid_start valid_end.

(** The outer loop, [n] samples to go. *)
Fixpoint draw_centers (n : nat) (label_shape : list nat)
    (valid_start valid_end : list Z) (fg_indicies bg_indicies : list Z)
    (pos_ratio : Q) (g : G) : result (list (list Z)) * G :=
  match n with
  | O => (Ok [], g)
  | S n' =>
      match draw_index fg_indicies bg_indicies pos_ratio g with
      | (Ok idx, g) =>
          match center_of_index label_shape valid_start valid_end idx with
          | Ok center_ori =>
              match draw_centers n' label_shape valid_start valid_end
                      fg_indicies bg_indicies pos_ratio g with
              | (Ok centers, g) => (Ok (center_ori :: centers), g)
              | (Raise e, g) => (Raise e, g)
              end
          | Raise e => (Raise e, g)
          end
      | (Raise e, g) => (Raise e, g)
      end
  end.

(** What a call leaves behind: its outcome, the warnings issued and the
    random source. *)
Record outcome : Type :=
  Outcome { returned : result (list (list Z)); warned : list warning; source : G }.

Definition generate_pos_neg_label_crop_centers (label : ndarray V) (size : list Z)
    (num_samples : Z) (pos_ratio : Q) (image : option (ndarray W))
    (image_threshold : W) (rand_state : G) : outcome :=
  let max_size := tail (shape label) in
  match valid_range max_size size with
  | Raise e => Outcome (Raise e) [] rand_state
  | Ok (valid_start, valid_end) =>
      match fg_bg_indicies label image image_threshold with
      | Raise e => Outcome (Raise e) [] rand_state
      | Ok (fg_indicies, bg_indicies) =>
          match balance fg_indicies bg_indicies pos_ratio with
          | Raise e => Outcome (Raise e) [] rand_state
          | Ok (pos_ratio, ws) =>
              let '(r, g) := draw_centers (Z.to_nat num_samples) (shape label)
                               valid_start valid_end fg_indicies bg_indicies
                               pos_ratio rand_state in
              Outcome r ws g
          end
      end
  end.
End Sampler.

Arguments UnbalancedWarning n_foreground n_background : clear implicits.

(** ** Affine builders *)

(** The float64 operations the builders use. *)
Class Scalar (T : Type) : Type := {
  fzero : T;
  fone : T;
  fadd : T -> T -> T;
  fmul : T -> T -> T;
  fneg : T -> T;
  fsin : T -> T;
  fcos : T -> T }.

(** The laws of exact arithmetic that some statements rely on. *)
Class ScalarLaws (T : Type) `{Scalar T} : Prop := {
  fadd_0_l : forall x : T, fadd fzero x = x;
  fadd_0_r : forall x : T, fadd x fzero = x;
  fmul_0_l : forall x : T, fmul fzero x = fzero;
  fmul_0_r : forall x : T, fmul x fzero = fzero;
  fmul_1_l : forall x : T, fmul fone x = x;
  fmul_1_r : forall x : T, fmul x fone = x }.

(** An argument that is one float or a sequence of floats. *)
Inductive floats (T : Type) : Type :=
  | One (x : T)
  | Many (l : list T).
Arguments One {T} x.
Arguments Many {T} l.

(** Modelled from the spec: [ensure_tuple] of [monai.utils.misc] is not
    among the sources. The builders document their argument as a float or a
    sequence of floats and use the result as a sequence, so a single value
    becomes a sequence of one element and a sequence is kept. *)
Definition ensure_tuple {T} (vals : floats T) : list T :=
  match vals with
  | One x => [x]
  | Many l => l
  end.

Section Affine.
Context {T : Type} `{Scalar T}.

(** [np.array(rows)] for a list of rows. *)
Definition np_array2 (rows : list (list T)) : ndarray T :=
  NdArray [length rows; length (default [] (head rows))]
          (Node ((fun r => Node (Leaf <$> r)) <$> rows)).

(** The rows of a two-dimensional array. *)
Definition to_rows (a : ndarray T) : list (list T) :=
  match data a with
  | Node rs => ravel <$> rs
  | Leaf _ => []
  end.

(** [np.diag(l)] *)
Definition np_diag (l : list T) : ndarray T :=
  np_array2 (imap (fun i x => <[i := x]> (replicate (length l) fzero)) l).

(** [np.eye(n)] *)
Definition np_eye (n : nat) : ndarray T := np_diag (replicate n fone).

Definition dot (xs ys : list T) : T :=
  fold_left (fun acc p => fadd acc (fmul p.1 p.2)) (zip xs ys) fzero.

Definition column (j : nat) (rows : list (list T)) : list T :=
  (fun r => default fzero (r !! j)) <$> rows.

Definition mat_mul (a b : list (list T)) (m : nat) : list (list T) :=
  (fun row => (fun j => dot row (column j b)) <$> seq 0 m) <$> a.

(** [a @ b] for two-dimensional operands (the only ones the builders
    multiply). *)
Definition np_matmul (a b : ndarray T) : result (ndarray T) :=
  match shape a, shape b with
  | [n; k], [k'; m] =>
      if decide (k = k')
      then Ok (NdArray [n; m]
                 (Node ((fun r => Node (Leaf <$> r))
                          <$> mat_mul (to_rows a) (to_rows b) m)))
      else Raise (ValueError "matmul: mismatch in core dimension")
  | _, _ => Raise (ValueError "matmul: operands are not two-dimensional")
  end.

(** [radians[i]], under a guard on [len(radians)]. *)
Definition item (l : list T) (i : nat) : T := default fzero (l !! i).

Definition rotate_2d (angle : T) : ndarray T :=
  let sin_ := fsin angle in
  let cos_ := fcos angle in
  np_array2 [[cos_; fneg sin_; fzero]; [sin_; cos_; fzero]; [fzero; fzero; fone]].

(** The three elementary matrices of the 3D branch, in the order of the
    code. *)
Definition rotate_axis1 (angle : T) : ndarray T :=
  let sin_ := fsin angle in
  let cos_ := fcos angle in
  np_array2 [[fone; fzero; fzero; fzero];
             [fzero; cos_; fneg sin_; fzero];
             [fzero; sin_; cos_; fzero];
             [fzero; fzero; fzero; fone]].

Definition rotate_axis2 (angle : T) : ndarray T :=
  let sin_ := fsin angle in
  let cos_ := fcos angle in
  np_array2 [[cos_; fzero; sin_; fzero];
             [fzero; fone; fzero; fzero];
             [fneg sin_; fzero; cos_; fzero];
             [fzero; fzero; fzero; fone]].

Definition rotate_axis3 (angle : T) : ndarray T :=
  let sin_ := fsin angle in
  let cos_ := fcos angle in
  np_array2 [[cos_; fneg sin_; fzero; fzero];
             [sin_; cos_; fzero; fzero];
             [fzero; fzero; fone; fzero];
             [fzero; fzero; fzero; fone]].

(** [affine @ m] where [affine] may still be [None]. *)
Definition matmul_value (affine : option (ndarray T)) (m : ndarray T)
  : result (option (ndarray T)) :=
  match affine with
  | Some a => r <- np_matmul a m ;; Ok (Some r)
  | None => Raise (TypeError "unsupported operand type(s) for @")
  end.

(** The result is the value returned: [None] or an array. The message of
    the [ValueError], which formats both arguments, is abridged. *)
Definition create_rotate (spatial_dims : nat) (radians : floats T)
  : result (option (ndarray T)) :=
  let radians := ensure_tuple radians in
  let after_2d :=
    if (spatial_dims =? 3)%nat
    then
      let affine := None in
      let affine :=
        if (1 <=? length radians)%nat then Some (rotate_axis1 (item radians 0))
        else affine in
      affine <- (if (2 <=? length radians)%nat
                 then matmul_value affine (rotate_axis2 (item radians 1))
                 else Ok affine) ;;
      affine <- (if (3 <=? length radians)%nat
                 then matmul_value affine (rotate_axis3 (item radians 2))
                 else Ok affine) ;;
      Ok affine
    else Raise (ValueError "create_rotate got spatial_dims, radians") in
  if (spatial_dims =? 2)%nat
  then if (1 <=? length radians)%nat
       then Ok (Some (rotate_2d (item radians 0)))
       else after_2d
  else after_2d.

(** [while len(l) < n: l.append(x)] *)
Definition pad_to (n : nat) (x : T) (l : list T) : list T :=
  l ++ replicate (n - length l) x.

Definition create_shear (spatial_dims : nat) (coefs : floats T)
  : result (ndarray T) :=
  let coefs := ensure_tuple coefs in
  if (spatial_dims =? 2)%nat
  then
    let coefs := pad_to 2 fzero coefs in
    Ok (np_array2 [[fone; item coefs 0; fzero];
                   [item coefs 1; fone; fzero];
                   [fzero; fzero; fone]])
  else if (spatial_dims =? 3)%nat
  then
    let coefs := pad_to 6 fzero coefs in
    Ok (np_array2 [[fone; item coefs 0; item coefs 1; fzero];
                   [item coefs 2; fone; item coefs 3; fzero];
                   [item coefs 4; item coefs 5; fone; fzero];
                   [fzero; fzero; fzero; fone]])
  else Raise NotImplementedError.

Definition create_scale (spatial_dims : nat) (scaling_factor : floats T)
  : ndarray T :=
  let scaling_factor := ensure_tuple scaling_factor in
  let scaling_factor := pad_to spatial_dims fone scaling_factor in
  np_diag (take spatial_dims scaling_factor ++ [fone]).

(** The loop [for i, a in enumerate(...): affine[i, spatial_dims] = a],
    from index [i] on. *)
Fixpoint translate_loop (i : nat) (spatial_dims : nat) (shift : list T)
    (affine : ndarray T) : result (ndarray T) :=
  match shift with
  | [] => Ok affine
  | a :: rest =>
      affine <- np_setitem affine [IInt (Z.of_nat i); IInt (Z.of_nat spatial_dims)]
                  (NdArray [] (Leaf a)) ;;
      translate_loop (S i) spatial_dims rest affine
  end.

Definition create_translate (spatial_dims : nat) (shift : floats T)
  : result (ndarray T) :=
  let shift := ensure_tuple shift in
  let affine := np_eye (spatial_dims + 1) in
  translate_loop 0 spatial_dims (take spatial_dims shift) affine.

(** The first argument of [to_affine_nd]: a number of dimensions or an
    array to be filled. *)
Inductive rank_or_array : Type :=
  | RInt (r : Z)
  | RArray (a : ndarray T).

(** [len(a)] *)
Definition np_len (a : ndarray T) : result Z :=
  match shape a with
  | n :: _ => Ok (Z.of_nat n)
  | [] => Raise (TypeError "len() of unsized object")
  end.

Definition to_affine_nd (r : rank_or_array) (affine : ndarray T)
  : result (ndarray T) :=
  if negb (ndim affine =? 2)%nat
  then Raise (ValueError "input affine must have two dimensions")
  else
    new_affine <-
      match r with
      | RInt sr =>
          if sr <? 0 then Raise (ValueError "r must be postive.")
          else Ok (np_eye (Z.to_nat (sr + 1)))
      | RArray a => Ok a
      end ;;
    len_new <- np_len new_affine ;;
    len_affine <- np_len affine ;;
    let d := Z.min (len_new - 1) (len_affine - 1) in
    let upto_d := ISlice (Slice None (Some d)) in
    block <- np_getitem affine [upto_d; upto_d] ;;
    new_affine <- np_setitem new_affine [upto_d; upto_d] block ;;
    last_column <- np_getitem affine [upto_d; IInt (-1)] ;;
    new_affine <- np_setitem new_affine [upto_d; IInt (-1)] last_column ;;
    Ok new_affine.
End Affine.

Arguments rank_or_array T : clear implicits.

(** Real numbers as scalars. *)
#[export] Instance R_scalar : Scalar R := {
  fzero := 0%R; fone := 1%R; fadd := Rplus; fmul := Rmult; fneg := Ropp;
  fsin := Rtrigo_def.sin; fcos := Rtrigo_def.cos }.

(** Integers as scalars, for computing on matrices without trigonometry:
    every angle counts as 0. *)
Definition Z_scalar : Scalar Z := {|
  fzero := 0; fone := 1; fadd := Z.add; fmul := Z.mul; fneg := Z.opp;
  fsin := fun _ => 0; fcos := fun _ => 1 |}.

(** Binary64 floats as scalars, the element type of the matrices the
    builders return.  The sine and the cosine are not among the primitive
    operations on floats; they are taken as arguments. *)
Definition float_scalar (sin cos : float -> float) : Scalar float := {|
  fzero := 0%float; fone := 1%float; fadd := PrimFloat.add;
  fmul := PrimFloat.mul; fneg := PrimFloat.opp; fsin := sin; fcos := cos |}.

(** Floats for computing on matrices without trigonometry: every angle
    counts as 0. *)
Definition float_scalar_0 : Scalar float :=
  float_scalar (fun _ => 0%float) (fun _ => 1%float).


(** ** Vocabulary of the statements about copypaste_arrays *)

(** One iteration of the loop body on the accumulated slices. *)
Definition loop_step (i : nat) (s d : nat) (c e : Z) (dim : option Z)
    (acc : list slice * list slice) : list slice * list slice :=
  if truthy dim
  then let w := window (Z.of_nat s) (Z.of_nat d) c e (default 0 dim) in
       (<[i := w.1]> acc.1, <[i := w.2]> acc.2)
  else acc.

(** The [k]-th tuple of the zip of the five sequences. *)
Definition zipped (k : nat) (ss ds : list nat) (sc dc : list Z)
    (dims : list (option Z)) : option (nat * nat * Z * Z * option Z) :=
  match ss !! k, ds !! k, sc !! k, dc !! k, dims !! k with
  | Some s, Some d, Some c, Some e, Some dim => Some (s, d, c, e, dim)
  | _, _, _, _, _ => None
  end.

(** Entry [i] of the slices returned by the loop started on
    [slice(None)] everywhere. *)
Definition active (i : nat) (sc dc : list Z) (dims : list (option Z)) : bool :=
  match sc !! i, dc !! i, dims !! i with
  | Some _, Some _, Some dim => truthy dim
  | _, _, _ => false
  end.

Definition axis_window (i : nat) (n m : nat) (sc dc : list Z)
    (dims : list (option Z)) : slice * slice :=
  if active i sc dc dims
  then window (Z.of_nat n) (Z.of_nat m) (default 0 (sc !! i)) (default 0 (dc !! i))
         (default 0 (default None (dims !! i)))
  else (slice_all, slice_all).

Section CopyPasteDefs.
Context {A : Type}.
Implicit Types (h : heap A) (a b : ndarray A).

(** Every slice has its bounds inside its axis. *)
Definition slices_fit a b (r : list slice * list slice) : Prop :=
  length r.1 = ndim a /\ length r.2 = ndim b /\
  forall i n m s d,
    shape a !! i = Some n -> shape b !! i = Some m ->
    r.1 !! i = Some s -> r.2 !! i = Some d ->
    slice_within (Z.of_nat n) s /\ slice_within (Z.of_nat m) d.

(** On axis [i] the two slices select as many positions. *)
Definition same_length_at a b (r : list slice * list slice) (i : nat) : Prop :=
  forall n m s d,
    shape a !! i = Some n -> shape b !! i = Some m ->
    r.1 !! i = Some s -> r.2 !! i = Some d ->
    slice_len s (Z.of_nat n) = slice_len d (Z.of_nat m).

(** Each centre coordinate is a position of its axis. *)
Definition center_in_bounds (s : list nat) (c : list Z) : Prop :=
  forall i n x, s !! i = Some n -> c !! i = Some x -> 0 <= x < Z.of_nat n.

End CopyPasteDefs.

(** ** Vocabulary of the statements about resize_center *)

(** On an axis of length [t] the slice selects the [r] positions from [lo]
    on. *)
Definition selects (sl : slice) (t lo r : nat) : Prop :=
  slice_indices sl (Z.of_nat t) = (Z.of_nat lo, Z.of_nat (lo + r)) /\
  (lo + r <= t)%nat.

(** Axis by axis, the slices [sls] select from an array of shape [ts] the box
    of shape [rs] whose corner is [los]. *)
Inductive boxed : list slice -> list nat -> list nat -> list nat -> Prop :=
  | boxed_nil : boxed [] [] [] []
  | boxed_cons sl sls t ts lo los r rs :
      selects sl t lo r -> boxed sls ts los rs ->
      boxed (sl :: sls) (t :: ts) (lo :: los) (r :: rs).

(** The multi-index [p] is a position of an array of shape [s]. *)
Definition in_shape (p s : list nat) : Prop := Forall2 (fun i n => (i < n)%nat) p s.

(** The multi-index [p] lies in the box of shape [rs] with corner [los]. *)
Fixpoint in_box (p los rs : list nat) : bool :=
  match p, los, rs with
  | i :: p', lo :: los', r :: rs' =>
      bool_decide (lo <= i < lo + r)%nat && in_box p' los' rs'
  | [], [], [] => true
  | _, _, _ => false
  end.

(** Corner of the centred copy of an array of shape [s] inside one of shape
    [t]. *)
Definition center_offsets (s t : list nat) : list nat :=
  zip_with (fun n m => Z.to_nat (Z.of_nat m `div` 2 - Z.of_nat n `div` 2)) s t.

(** The arguments [*shape] of a call. *)
Definition as_dims (s : list nat) : list (option Z) := Some <$> (Z.of_nat <$> s).

(** ** Vocabulary of the statements about the sampler *)

Definition exactly_one_empty (fg bg : list Z) : Prop :=
  (fg = [] /\ bg <> []) \/ (fg <> [] /\ bg = []).

(** The contract of numpy's random source: [rand()] is in [0, 1) and
    [randint(n)] in [0, n). *)
Definition random_source {G} (rand : G -> Q * G) (randint : Z -> G -> Z * G) : Prop :=
  (forall g, (0 <= (rand g).1)%Q /\ ((rand g).1 < 1)%Q) /\
  (forall n g, 0 < n -> 0 <= (randint n g).1 < n).

(** An optional image that fits a label with spatial shape [spatial]. *)
Definition image_fits {W} (spatial : list nat) (image : option (ndarray W)) : Prop :=
  match image with
  | Some img => wf img /\ exists c, shape img = c :: spatial
  | None => True
  end.

(** Which set a drawn flat index may come from: either one in general, the
    foreground when the ratio is at least 1, the background when it is at
    most 0. *)
Definition drawn_from (fg bg : list Z) (ratio : Q) (idx : Z) : Prop :=
  (idx ∈ fg \/ idx ∈ bg) /\
  ((1 <= ratio)%Q -> idx ∈ fg) /\ ((ratio <= 0)%Q -> idx ∈ bg).

(** Every coordinate of the centre lies in the valid range of its axis. *)
Definition center_in_range (valid_start valid_end : list Z) (center : list Z) : Prop :=
  forall k x, center !! k = Some x ->
    exists s e, valid_start !! k = Some s /\ valid_end !! k = Some e /\ s <= x < e.

(** ** Vocabulary of the statements about the affine builders *)

Section AffineSpec.
Context {T : Type} `{Scalar T}.

(** The rotation of the specification for three dimensions: the product of
    the elementary rotations about axes 1, 2 and 3 in that order, a missing
    angle contributing the identity. *)
Definition rotate3_spec (radians : list T) : result (ndarray T) :=
  let factor (k : nat) (elementary : T -> ndarray T) :=
    match radians !! k with
    | Some angle => elementary angle
    | None => np_eye 4
    end in
  m <- np_matmul (factor 0%nat rotate_axis1) (factor 1%nat rotate_axis2) ;;
  np_matmul m (factor 2%nat rotate_axis3).

(** The product of only the elementary rotations whose angle is supplied
    (at most three of them, at least one). *)
Definition supplied_product (radians : list T) : result (ndarray T) :=
  match zip_with (fun elementary angle => elementary angle)
          [rotate_axis1; rotate_axis2; rotate_axis3] radians with
  | [] => Raise (ValueError "no angle")
  | m :: ms => fold_left (fun acc x => a <- acc ;; np_matmul a x) ms (Ok m)
  end.

(** The last row of a two-dimensional array. *)
Definition bottom_row (a : ndarray T) : option (list T) := list.last (to_rows a).

(** A square matrix of size [n + 1] whose last row is [0, ..., 0, 1]. *)
Definition affine_form (n : nat) (a : ndarray T) : Prop :=
  exists rows,
    a = np_array2 (rows ++ [replicate n fzero ++ [fone]]) /\
    length rows = n /\ Forall (fun r => length r = S n) rows.





(** The matrices obtained from the builders and from products of them. *)
Inductive built : ndarray T -> Prop :=
  | built_rotate d radians m : create_rotate d radians = Ok (Some m) -> built m
  | built_shear d coefs m : create_shear d coefs = Ok m -> built m
  | built_scale d factors : built (create_scale d factors)
  | built_translate d shift m : create_translate d shift = Ok m -> built m
  | built_matmul a b m : built a -> built b -> np_matmul a b = Ok m -> built m.



End AffineSpec.

(** ** Concrete inputs of the examples *)

Definition vec3 : ndarray Z := NdArray [3%nat] (Node [Leaf 7; Leaf 8; Leaf 9]).
Definition vec5 : ndarray Z :=
  NdArray [5%nat] (Node [Leaf 0; Leaf 0; Leaf 0; Leaf 0; Leaf 0]).
Definition vec3' : ndarray Z := NdArray [3%nat] (Node [Leaf 1; Leaf 1; Leaf 2]).
Definition vec5' : ndarray Z :=
  NdArray [5%nat] (Node [Leaf 4; Leaf 3; Leaf 2; Leaf 1; Leaf 0]).

Definition empty1 : ndarray Z := NdArray [0%nat] (Node []).

(** A counter: [rand] cycles through tenths, [randint n] through residues. *)
Definition counter_rand (g : Z) : Q * Z := (Qmake (g `mod` 10) 10, g + 1).
Definition counter_randint (n : Z) (g : Z) : Z * Z := (g `mod` n, g + 1).

Definition nonzero (x : Z) : bool := negb (x =? 0).

(** A label of the given shape that is 0 everywhere but at one position. *)
Definition one_hot_label (s : list nat) (pos : list Z) : ndarray Z :=
  NdArray s (write (IInt <$> pos) (full_nest s 0) (Leaf 1)).

(** One channel of 10 x 10 with the single foreground voxel (5, 5). *)
Definition label_10x10 : ndarray Z := one_hot_label [1; 10; 10]%nat [0; 5; 5].

(** One channel of 65546 voxels with the single foreground voxel 100. *)
Definition label_long : ndarray Z :=
  one_hot_label [1%nat; Z.to_nat 65546] [0; 100].

(** Three voxels, none of them foreground. *)
Definition label_blank : ndarray Z :=
  NdArray [1; 3]%nat (Node [Node [Leaf 0; Leaf 0; Leaf 0]]).

(** The source array printed in the docstring of [copypaste_arrays]. *)
Definition docstring_src : ndarray Z :=
  np_array2 [[9; 5; 6; 6; 9; 6];
             [4; 3; 5; 6; 1; 2];
             [0; 7; 3; 2; 4; 1];
             [3; 0; 0; 1; 5; 1];
             [9; 4; 7; 1; 8; 2];
             [6; 6; 5; 8; 6; 7]].

Definition grid3 : ndarray Z := np_array2 [[1; 2; 3]; [4; 5; 6]; [7; 8; 9]].


Definition small_shift : result (ndarray float) :=
  create_translate (H := float_scalar_0) 2 (Many [5%float; (-7)%float]).


(** ** ensure_tuple_size and in_bounds *)

(** [t[sl]] for a tuple. *)
Definition tuple_slice {X} (sl : slice) (t : list X) : list X :=
  let '(lo, hi) := slice_indices sl (Z.of_nat (length t)) in
  take (Z.to_nat (hi - lo)) (drop (Z.to_nat lo) t).

(** [t * n] for a tuple: no copy of [t] at all when [n <= 0]. *)
Definition tuple_mul {X} (t : list X) (n : Z) : list X :=
  concat (replicate (Z.to_nat n) t).

Definition ensure_tuple_size (tup : list Z) (dim : Z) : list Z :=
  let tup := tup ++ tuple_mul [0] dim in
  tuple_slice (Slice None (Some dim)) tup.

(** The chained comparisons [a <= b < c] are conjunctions. *)
Definition in_bounds (x y margin maxx maxy : Z) : bool :=
  ((margin <=? x) && (x <? maxx - margin))
  && ((margin <=? y) && (y <? maxy - margin)).

(** ** Vocabulary of the statements about points and affine matrices *)

Section AffinePoints.
Context {T : Type} `{Scalar T}.

(** [m @ v] for a two-dimensional [m] and a one-dimensional [v]. *)
Definition np_matvec (m : ndarray T) (v : list T) : result (list T) :=
  match shape m with
  | [_; k] =>
      if decide (k = length v) then Ok ((fun row => dot row v) <$> to_rows m)
      else Raise (ValueError "matmul: mismatch in core dimension")
  | _ => Raise (ValueError "matmul: operand is not two-dimensional")
  end.

(** The point [p] in homogeneous coordinates. *)
Definition homogeneous (p : list T) : list T := p ++ [fone].
End AffinePoints.

(** ** is_empty *)

Section Reductions.
Context {V : Type}.

(** [a.max()] and [a.min()]: the elements are reduced with the pairwise
    [maximum] or [minimum]; an array without elements has no result. *)
Definition np_reduce (f : V -> V -> V) (a : ndarray V) : result V :=
  match ravel (data a) with
  | [] => Raise (ValueError "zero-size array to reduction operation which has no identity")
  | x :: l => Ok (fold_left f l x)
  end.

(** the pairwise maximum and minimum of the element type and its [>] *)
Context (maximum minimum : V -> V -> V) (gt : V -> V -> bool).

Definition is_empty (img : ndarray V) : result bool :=
  mx <- np_reduce maximum img ;;
  mn <- np_reduce minimum img ;;
  Ok (negb (gt mx mn)).
End Reductions.

(** The float64 instance: numpy's [maximum] and [minimum] keep the left
    operand when it is a NaN or compares at least (at most) the right one,
    so a NaN on either side is propagated. *)
Definition float_maximum (x y : float) : float :=
  if PrimFloat.leb y x || is_nan x then x else y.
Definition float_minimum (x y : float) : float :=
  if PrimFloat.leb x y || is_nan x then x else y.
Definition float_gt (x y : float) : bool := PrimFloat.ltb y x.

(** ** zero_margins *)

Section Margins.
Context {V : Type}.
(** truth value of an element *)
Context (truth : V -> bool).

(** [np.any(a)] *)
Definition np_any (a : ndarray V) : bool := existsb truth (ravel (data a)).

(** [np.any(img[idx1]) or np.any(img[idx2])]: the second operand is
    evaluated only when the first one is false. *)
Definition any_of_either (img : ndarray V) (idx1 idx2 : list index) : result bool :=
  a <- np_getitem img idx1 ;;
  if np_any a then Ok true
  else b <- np_getitem img idx2 ;; Ok (np_any b).

Definition zero_margins (img : ndarray V) (margin : Z) : result bool :=
  let all := ISlice slice_all in
  let upto := ISlice (Slice None (Some margin)) in
  let from := ISlice (Slice (Some (- margin)) None) in
  c <- any_of_either img [all; all; upto] [all; all; from] ;;
  if c then Ok false
  else
    c <- any_of_either img [all; upto; all] [all; from; all] ;;
    if c then Ok false else Ok true.
End Margins.

(** ** one_hot *)

(** [x % n] on integers: numpy gives 0 for [n = 0] (with a warning) and
    otherwise the remainder that has the sign of [n]. *)
Definition np_mod (x n : Z) : Z := if n =? 0 then 0 else x `mod` n.

(** [np.eye(n)] for an integer [n]; the entries 0.0 and 1.0 are written 0
    and 1, which is what the final [astype] to the integer type of the
    labels makes of them. *)
Definition np_eye_int (n : Z) : result (ndarray Z) :=
  if n <? 0 then Raise (ValueError "negative dimensions are not allowed")
  else Ok (np_eye (H := Z_scalar) (Z.to_nat n)).

(** The nest of an array of shape [s] that has no element (one of the
    axes of [s] has length 0). *)
Fixpoint hollow {V} (s : list nat) : nest V :=
  match s with
  | [] => Node []
  | n :: s' => Node (replicate n (hollow s'))
  end.

(** [y[idx]] for a one-dimensional array [idx] of integers: the entries of
    [y] along its first axis at these positions.  numpy 1.x checks the
    indices only when the result has an element: when [idx] is empty or the
    entries of [y] have no element, an index out of range goes through
    (since 1.20 with a [DeprecationWarning]) and the result is the array of
    the expected shape without elements. *)
Definition np_take {V} (y : ndarray V) (idx : list Z) : result (ndarray V) :=
  match shape y, data y with
  | n :: rest, Node l =>
      if Z.of_nat (length idx) * size_of rest =? 0
      then Ok (NdArray (length idx :: rest) (hollow (length idx :: rest)))
      else
        picked <- rmapM (fun i =>
                           let j := norm_index i (Z.of_nat n) in
                           if (0 <=? j) && (j <? Z.of_nat n)
                           then match l !! Z.to_nat j with
                                | Some r => Ok r
                                | None => Raise (IndexError "index out of bounds")
                                end
                           else Raise (IndexError "index out of bounds")) idx ;;
        Ok (NdArray (length idx :: rest) (Node picked))
  | _, _ => Raise (IndexError "too many indices for array")
  end.

(** The first [n] consecutive pieces of length [k] of a list. *)
Fixpoint chunks {V} (n k : nat) (l : list V) : list (list V) :=
  match n with
  | O => []
  | S n' => take k l :: chunks n' k (drop k l)
  end.

(** The elements [l], in C order, arranged in the shape [s]. *)
Fixpoint unravel {V} (s : list nat) (l : list V) : option (nest V) :=
  match s with
  | [] => match l with [v] => Some (Leaf v) | _ => None end
  | n :: s' => Node <$> mapM (unravel s') (chunks n (Z.to_nat (size_of s')) l)
  end.

(** [a.reshape(s)] *)
Definition np_reshape {V} (a : ndarray V) (s : list nat) : result (ndarray V) :=
  if decide (size_of (shape a) = size_of s)
  then match unravel s (ravel (data a)) with
       | Some x => Ok (NdArray s x)
       | None => Raise (ValueError "cannot reshape array")
       end
  else Raise (ValueError "cannot reshape array").

Definition one_hot (labels : ndarray Z) (num_classes : Z) : result (ndarray Z) :=
  let labels := NdArray (shape labels)
                  (nest_map (fun x => np_mod x num_classes) (data labels)) in
  y <- np_eye_int num_classes ;;
  onehot <- np_take y (ravel (data labels)) ;;
  np_reshape onehot (shape labels ++ [Z.to_nat num_classes]).

(** The nest obtained by putting the row [g v] in the place of each
    element [v]. *)
Fixpoint nest_expand {V W} (g : V -> list W) (x : nest V) : nest W :=
  match x with
  | Leaf v => Node (Leaf <$> g v)
  | Node l => Node (nest_expand g <$> l)
  end.

(** A 1 x 3 x 3 image that is zero but at its centre. *)
Definition framed : ndarray Z :=
  NdArray [1; 3; 3]%nat
    (Node [Node [Node [Leaf 0; Leaf 0; Leaf 0];
                 Node [Leaf 0; Leaf 5; Leaf 0];
                 Node [Leaf 0; Leaf 0; Leaf 0]]]).

(** ** img_bounds *)

(** [np.any(a, axis=1)] *)
Definition np_any_axis1 {V} (truth : V -> bool) (a : ndarray V)
  : result (ndarray bool) :=
  match shape a, data a with
  | n0 :: _ :: rest, Node rows =>
      Ok (NdArray (n0 :: rest)
            (Node ((fun row =>
                      match row with
                      | Node cols =>
                          fold_left nest_or (nest_map truth <$> cols)
                            (full_nest rest false)
                      | Leaf _ => Leaf false
                      end) <$> rows)))
  | _, _ => Raise (ValueError "axis 1 is out of bounds")
  end.

(** A one-dimensional array of integers. *)
Definition vector (l : list Z) : ndarray Z := NdArray [length l] (Node (Leaf <$> l)).

(** [np.where(x)[0]]: the index along the first axis of each true element,
    in C order. *)
Definition np_where0 (x : ndarray bool) : ndarray Z :=
  vector ((fun i => i `div` size_of (tail (shape x))) <$> np_nonzero (ravel (data x))).

(** [np.concatenate((a, b))] for one-dimensional arrays. *)
Definition np_concatenate {V} (a b : ndarray V) : result (ndarray V) :=
  match shape a, data a, shape b, data b with
  | [n], Node la, [m], Node lb => Ok (NdArray [(n + m)%nat] (Node (la ++ lb)))
  | _, _, _, _ =>
      Raise (ValueError "all the input arrays must have same number of dimensions")
  end.

Definition img_bounds {V} (truth : V -> bool) (img : ndarray V) : result (ndarray Z) :=
  ax0 <- np_any_axis0 truth img ;;
  ax1 <- np_any_axis1 truth img ;;
  b0 <- np_take (np_where0 ax0) [0; -1] ;;
  b1 <- np_take (np_where0 ax1) [0; -1] ;;
  np_concatenate b0 b1.

(** The element of a two-dimensional image at row [r] and column [c] is
    true (non-zero). *)
Definition lit {V} (truth : V -> bool) (img : ndarray V) (r c : nat) : Prop :=
  exists v, nest_at [r; c] (data img) = Some v /\ truth v = true.

(** ** Vocabulary of the statements about foreground and background *)

(** At the spatial position [pos] some channel of the array is true. *)
Definition foreground_at {V} (truth : V -> bool) (label : ndarray V)
    (pos : list nat) : Prop :=
  exists k v, nest_at (k :: pos) (data label) = Some v /\ truth v = true.

(** At the spatial position [pos] no channel of the label is true and, when
    there is an image, some channel of the image is above the threshold. *)
Definition background_at {V W} (truth : V -> bool) (above : W -> W -> bool)
    (label : ndarray V) (image : option (ndarray W)) (thr : W)
    (pos : list nat) : Prop :=
  ~ foreground_at truth label pos /\
  match image with
  | Some img => foreground_at (fun w => above w thr) img pos
  | None => True
  end.

(** The flat index (C order) of the position [p] in an array of shape
    [s]. *)
Fixpoint flat_index (s p : list nat) : nat :=
  match s, p with
  | _ :: s', i :: p' => (i * Z.to_nat (size_of s') + flat_index s' p')%nat
  | _, _ => 0%nat
  end.

(** * Theorems *)

Ltac div_lia := zify; Z.to_euclidean_division_equations; lia.

(** The example of the docstring of [copypaste_arrays]. *)
Example copypaste_loop_docstring :
  copypaste_loop 0 [6; 6]%nat [6; 6]%nat [3; 2] [2; 1] [Some 3; Some 4]
    (replicate 2 slice_all, replicate 2 slice_all)
  = ([Slice (Some 2) (Some 5); Slice (Some 1) (Some 5)],
     [Slice (Some 1) (Some 4); Slice (Some 0) (Some 4)]).
Proof. reflexivity. Qed.

(** The copy of the docstring, on the arrays it prints: the slices are
    computed by [copypaste_arrays] and [dest[destslices] = src[srcslices]]
    gives the destination shown there. *)
Example copypaste_arrays_docstring_copy :
  (slices <~ copypaste_arrays 0%nat 1%nat [3; 2] [2; 1] [Some 3; Some 4] ;;
   src <~ load 0%nat ;;
   dest <~ load 1%nat ;;
   v <~ lift (np_getitem src (ISlice <$> slices.1)) ;;
   lift (np_setitem dest (ISlice <$> slices.2) v))
    [docstring_src; NdArray [6; 6]%nat (full_nest [6; 6]%nat 0)]
  = (Ok (np_array2 [[0; 0; 0; 0; 0; 0];
                    [7; 3; 2; 4; 0; 0];
                    [0; 0; 1; 5; 0; 0];
                    [4; 7; 1; 8; 0; 0];
                    [0; 0; 0; 0; 0; 0];
                    [0; 0; 0; 0; 0; 0]]),
     [docstring_src; NdArray [6; 6]%nat (full_nest [6; 6]%nat 0)]).
Proof. reflexivity. Qed.

(** Cropping the rows and padding the columns of a 3 x 3 array. *)
Example resize_center_crop_and_pad :
  resize_center 0%nat [Some 1; Some 5] 0 [grid3]
  = (Ok 1%nat, [grid3; np_array2 [[0; 4; 5; 6; 0]]]).
Proof. reflexivity. Qed.

(** [None] keeps the length of an axis. *)
Example resize_center_keep_axis :
  resize_center 0%nat [None; Some 1] 0 [grid3]
  = (Ok 1%nat, [grid3; np_array2 [[2]; [5]; [8]]]).
Proof. reflexivity. Qed.

(** ** Facts about the loop of copypaste_arrays *)

Lemma copypaste_loop_cons i s ss d ds c sc e dc dim dims acc :
  copypaste_loop i (s :: ss) (d :: ds) (c :: sc) (e :: dc) (dim :: dims) acc
  = copypaste_loop (S i) ss ds sc dc dims (loop_step i s d c e dim acc).
Proof. reflexivity. Qed.

Lemma loop_step_lookup_ne i j s d c e dim acc :
  i <> j ->
  (loop_step i s d c e dim acc).1 !! j = acc.1 !! j /\
  (loop_step i s d c e dim acc).2 !! j = acc.2 !! j.
Proof.
  intros Hij. unfold loop_step. destruct (truthy dim); [|done].
  cbn [fst snd]. by rewrite !list_lookup_insert_ne by done.
Qed.

Lemma loop_step_length i s d c e dim acc :
  length (loop_step i s d c e dim acc).1 = length acc.1 /\
  length (loop_step i s d c e dim acc).2 = length acc.2.
Proof.
  unfold loop_step. destruct (truthy dim); [|done].
  cbn [fst snd]. by rewrite !length_insert.
Qed.

Lemma copypaste_loop_before i ss ds sc dc dims acc j :
  (j < i)%nat ->
  (copypaste_loop i ss ds sc dc dims acc).1 !! j = acc.1 !! j /\
  (copypaste_loop i ss ds sc dc dims acc).2 !! j = acc.2 !! j.
Proof.
  revert i ds sc dc dims acc.
  induction ss as [|s ss IH]; intros i ds sc dc dims acc Hj; [done|].
  destruct ds as [|d ds], sc as [|c sc], dc as [|e dc], dims as [|dim dims];
    try done.
  rewrite copypaste_loop_cons.
  destruct (IH (S i) ds sc dc dims (loop_step i s d c e dim acc) ltac:(lia))
    as [-> ->].
  apply loop_step_lookup_ne. lia.
Qed.

Lemma copypaste_loop_length i ss ds sc dc dims acc :
  length (copypaste_loop i ss ds sc dc dims acc).1 = length acc.1 /\
  length (copypaste_loop i ss ds sc dc dims acc).2 = length acc.2.
Proof.
  revert i ds sc dc dims acc.
  induction ss as [|s ss IH]; intros i ds sc dc dims acc; [done|].
  destruct ds as [|d ds], sc as [|c sc], dc as [|e dc], dims as [|dim dims];
    try done.
  rewrite copypaste_loop_cons.
  destruct (IH (S i) ds sc dc dims (loop_step i s d c e dim acc)) as [-> ->].
  apply loop_step_length.
Qed.

Lemma zipped_cons_S k s ss d ds c sc e dc dim dims :
  zipped (S k) (s :: ss) (d :: ds) (c :: sc) (e :: dc) (dim :: dims)
  = zipped k ss ds sc dc dims.
Proof. reflexivity. Qed.

Lemma zipped_short k ss ds sc dc dims :
  ss = [] \/ ds = [] \/ sc = [] \/ dc = [] \/ dims = [] ->
  zipped k ss ds sc dc dims = None.
Proof.
  unfold zipped. intros [->|[->|[->|[->| ->]]]]; rewrite ?lookup_nil;
    repeat (destruct (_ !! _)); done.
Qed.

Lemma lookup_insert_same_congr {X} (l l' : list X) (j : nat) (x : X) :
  l !! j = l' !! j -> <[j := x]> l !! j = <[j := x]> l' !! j.
Proof.
  intros E. destruct (l !! j) as [y|] eqn:Hl.
  - rewrite !list_lookup_insert_eq; eauto using lookup_lt_Some.
  - rewrite !list_insert_ge; [congruence| |]; by apply lookup_ge_None.
Qed.

Lemma loop_step_lookup_congr j s d c e dim acc acc' :
  acc.1 !! j = acc'.1 !! j -> acc.2 !! j = acc'.2 !! j ->
  (loop_step j s d c e dim acc).1 !! j = (loop_step j s d c e dim acc').1 !! j /\
  (loop_step j s d c e dim acc).2 !! j = (loop_step j s d c e dim acc').2 !! j.
Proof.
  intros E1 E2. unfold loop_step. destruct (truthy dim); [|done].
  cbn [fst snd]. split; by apply lookup_insert_same_congr.
Qed.

(** What the loop leaves at position [i + k] of both lists: the window of
    the [k]-th zipped tuple when its [dim] is true, the old entry
    otherwise. *)
Lemma copypaste_loop_lookup i ss ds sc dc dims acc k :
  match zipped k ss ds sc dc dims with
  | Some (s, d, c, e, dim) =>
      (copypaste_loop i ss ds sc dc dims acc).1 !! (i + k)%nat
      = (loop_step (i + k) s d c e dim acc).1 !! (i + k)%nat /\
      (copypaste_loop i ss ds sc dc dims acc).2 !! (i + k)%nat
      = (loop_step (i + k) s d c e dim acc).2 !! (i + k)%nat
  | None =>
      (copypaste_loop i ss ds sc dc dims acc).1 !! (i + k)%nat
      = acc.1 !! (i + k)%nat /\
      (copypaste_loop i ss ds sc dc dims acc).2 !! (i + k)%nat
      = acc.2 !! (i + k)%nat
  end.
Proof.
  revert i ds sc dc dims acc k.
  induction ss as [|s ss IH]; intros i ds sc dc dims acc k.
  { rewrite zipped_short by auto. done. }
  destruct ds as [|d ds]; [rewrite zipped_short by auto; done|].
  destruct sc as [|c sc]; [rewrite zipped_short by auto; done|].
  destruct dc as [|e dc]; [rewrite zipped_short by auto; done|].
  destruct dims as [|dim dims]; [rewrite zipped_short by auto; done|].
  rewrite copypaste_loop_cons.
  destruct k as [|k].
  - replace (i + 0)%nat with i by lia. cbn [zipped lookup list_lookup].
    apply copypaste_loop_before. lia.
  - rewrite zipped_cons_S. replace (i + S k)%nat with (S i + k)%nat by lia.
    specialize (IH (S i) ds sc dc dims (loop_step i s d c e dim acc) k).
    destruct (loop_step_lookup_ne i (S i + k) s d c e dim acc ltac:(lia))
      as [E1 E2].
    destruct (zipped k ss ds sc dc dims) as [[[[[s' d'] c'] e'] dim']|].
    + destruct IH as [-> ->]. by apply loop_step_lookup_congr.
    + by destruct IH as [-> ->].
Qed.

Lemma copypaste_loop_entry ss ds sc dc dims i n m :
  ss !! i = Some n -> ds !! i = Some m ->
  let r := copypaste_loop 0 ss ds sc dc dims
             (replicate (length ss) slice_all, replicate (length ds) slice_all) in
  r.1 !! i = Some (axis_window i n m sc dc dims).1 /\
  r.2 !! i = Some (axis_window i n m sc dc dims).2.
Proof.
  intros Hn Hm r. subst r.
  pose proof (copypaste_loop_lookup 0 ss ds sc dc dims
    (replicate (length ss) slice_all, replicate (length ds) slice_all) i) as H.
  pose proof (lookup_lt_Some _ _ _ Hn) as Ln.
  pose proof (lookup_lt_Some _ _ _ Hm) as Lm.
  assert (replicate (length ss) slice_all !! i = Some slice_all) as R1
    by (by apply lookup_replicate).
  assert (replicate (length ds) slice_all !! i = Some slice_all) as R2
    by (by apply lookup_replicate).
  unfold zipped, axis_window, active in *. rewrite Hn, Hm in H.
  replace (0 + i)%nat with i in H by lia.
  destruct (sc !! i) as [c|]; [|by destruct H as [-> ->]].
  destruct (dc !! i) as [e|]; [|by destruct H as [-> ->]].
  destruct (dims !! i) as [dim|]; [|by destruct H as [-> ->]].
  destruct H as [-> ->]. unfold loop_step. cbn [default].
  destruct (truthy dim); cbn [fst snd]; [|done].
  by rewrite !list_lookup_insert_eq by (by rewrite length_replicate).
Qed.

(** *** Arithmetic of one axis *)

Lemma np_clip_bounds a hi : 0 <= hi -> 0 <= np_clip a 0 hi <= hi.
Proof. unfold np_clip. lia. Qed.

Lemma slice_indices_explicit a b n :
  0 <= a <= n -> 0 <= b <= n ->
  slice_indices (Slice (Some a) (Some b)) n = (a, b).
Proof.
  intros Ha Hb. unfold slice_indices, adjust_bound.
  cbn [fst snd slice_start slice_stop from_option].
  destruct (Z.ltb_spec a 0), (Z.ltb_spec b 0); f_equal; lia.
Qed.

Lemma window_fits ss ds sc dc dim :
  0 <= sc <= ss -> 0 <= dc <= ds ->
  slice_within ss (window ss ds sc dc dim).1 /\
  slice_within ds (window ss ds sc dc dim).2 /\
  slice_len (window ss ds sc dc dim).1 ss = slice_len (window ss ds sc dc dim).2 ds.
Proof.
  intros Hs Hd. unfold window.
  pose proof (np_clip_bounds (dim `div` 2) (Z.min sc dc) ltac:(lia)) as H1.
  pose proof (np_clip_bounds (dim `div` 2 + 1) (Z.min (ss - sc) (ds - dc))
                ltac:(lia)) as H2.
  generalize dependent (np_clip (dim `div` 2) 0 (Z.min sc dc)).
  generalize dependent (np_clip (dim `div` 2 + 1) 0 (Z.min (ss - sc) (ds - dc))).
  intros d2 H2 d1 H1. cbn [fst snd]. unfold slice_len.
  rewrite !slice_indices_explicit by lia.
  unfold slice_within. cbn [fst snd slice_start slice_stop from_option]. lia.
Qed.

Lemma slice_all_within n : 0 <= n -> slice_within n slice_all.
Proof. by unfold slice_within. Qed.

Lemma slice_all_len n : 0 <= n -> slice_len slice_all n = n.
Proof. unfold slice_len, slice_indices. cbn. lia. Qed.

Section CopyPaste.
Context {A : Type}.
Implicit Types (h : heap A) (a b : ndarray A).

Lemma copypaste_arrays_run h src dest a b sc dc dims :
  h !! src = Some a -> h !! dest = Some b ->
  copypaste_arrays src dest sc dc dims h
  = (Ok (copypaste_loop 0 (shape a) (shape b) sc dc dims
           (replicate (ndim a) slice_all, replicate (ndim b) slice_all)), h).
Proof.
  intros Ha Hb. unfold copypaste_arrays, bind, load, ret. by rewrite Ha, Hb.
Qed.

Lemma copypaste_arrays_heap h src dest sc dc dims :
  (copypaste_arrays src dest sc dc dims h).2 = h.
Proof.
  unfold copypaste_arrays, bind, load, ret.
  destruct (h !! src); [|done]. by destruct (h !! dest).
Qed.

(** C1, amended. For two stored arrays of equal rank and centres inside
    them, [copypaste_arrays] returns (leaving the store alone) one slice per
    axis for each array, every slice has its bounds inside its axis, and on
    every axis where the loop computes a window (an entry of [dims] that is
    true, with both centres present) the two slices select equally many
    positions; on every other axis both slices are [slice(None)]. *)
Theorem copypaste_arrays_windows_fit h src dest a b sc dc dims :
  h !! src = Some a -> h !! dest = Some b -> ndim a = ndim b ->
  center_in_bounds (shape a) sc -> center_in_bounds (shape b) dc ->
  exists r,
    copypaste_arrays src dest sc dc dims h = (Ok r, h) /\
    slices_fit a b r /\
    forall i,
      if active i sc dc dims then same_length_at a b r i
      else (i < ndim a)%nat ->
           r.1 !! i = Some slice_all /\ r.2 !! i = Some slice_all.
Proof.
  intros Ha Hb Hrank Hsc Hdc. eexists. split; [by apply copypaste_arrays_run|].
  set (r := copypaste_loop _ _ _ _ _ _ _).
  assert (forall i n m, shape a !! i = Some n -> shape b !! i = Some m ->
            r.1 !! i = Some (axis_window i n m sc dc dims).1 /\
            r.2 !! i = Some (axis_window i n m sc dc dims).2) as Hr.
  { intros i n m Hn Hm. by apply copypaste_loop_entry. }
  assert (forall i n m, shape a !! i = Some n -> shape b !! i = Some m ->
            active i sc dc dims = true ->
            0 <= default 0 (sc !! i) <= Z.of_nat n /\
            0 <= default 0 (dc !! i) <= Z.of_nat m) as Hc.
  { intros i n m Hn Hm Hact. unfold active in Hact.
    destruct (sc !! i) as [c|] eqn:Ec; [|done].
    destruct (dc !! i) as [e|] eqn:Ee; [|done].
    specialize (Hsc i n c Hn Ec). specialize (Hdc i m e Hm Ee). simpl. lia. }
  split; [split; [|split]|].
  - subst r. destruct (copypaste_loop_length 0 (shape a) (shape b) sc dc dims
      (replicate (ndim a) slice_all, replicate (ndim b) slice_all)) as [-> _].
    apply length_replicate.
  - subst r. destruct (copypaste_loop_length 0 (shape a) (shape b) sc dc dims
      (replicate (ndim a) slice_all, replicate (ndim b) slice_all)) as [_ ->].
    apply length_replicate.
  - intros i n m s d Hn Hm Hs Hd.
    destruct (Hr i n m Hn Hm) as [E1 E2]. rewrite E1 in Hs. rewrite E2 in Hd.
    injection Hs as <-. injection Hd as <-.
    unfold axis_window. destruct (active i sc dc dims) eqn:Hact.
    + destruct (Hc i n m Hn Hm Hact) as [C1 C2].
      pose proof (window_fits (Z.of_nat n) (Z.of_nat m) _ _
        (default 0 (default None (dims !! i))) C1 C2). tauto.
    + split; apply slice_all_within; lia.
  - intros i. destruct (active i sc dc dims) eqn:Hact.
    + intros n m s d Hn Hm Hs Hd.
      destruct (Hr i n m Hn Hm) as [E1 E2]. rewrite E1 in Hs. rewrite E2 in Hd.
      injection Hs as <-. injection Hd as <-.
      unfold axis_window. rewrite Hact.
      destruct (Hc i n m Hn Hm Hact) as [C1 C2].
      by apply window_fits.
    + intros Hi.
      destruct (lookup_lt_is_Some_2 (shape a) i Hi) as [n Hn].
      destruct (lookup_lt_is_Some_2 (shape b) i) as [m Hm].
      { unfold ndim in *. lia. }
      destruct (Hr i n m Hn Hm) as [E1 E2].
      unfold axis_window in E1, E2. by rewrite Hact in E1, E2.
Qed.

End CopyPaste.

Lemma copypaste_arrays_windows_fit_witness :
  exists r,
    copypaste_arrays 0%nat 1%nat [1] [2] [Some 2] [vec3; vec5]
    = (Ok r, [vec3; vec5]) /\
    slices_fit vec3 vec5 r /\
    forall i,
      if active i [1] [2] [Some 2] then same_length_at vec3 vec5 r i
      else (i < ndim vec3)%nat ->
           r.1 !! i = Some slice_all /\ r.2 !! i = Some slice_all.
Proof.
  apply (copypaste_arrays_windows_fit [vec3; vec5] 0%nat 1%nat vec3 vec5
           [1] [2] [Some 2]); try reflexivity.
  - intros [|i] n x Hn Hx; simpl in *; [|done].
    injection Hn as <-. injection Hx as <-. lia.
  - intros [|i] n x Hn Hx; simpl in *; [|done].
    injection Hn as <-. injection Hx as <-. lia.
Defined.

(** C1 as stated fails: with [dims = (0,)] both slices are [slice(None)],
    which selects 3 positions of the source and 5 of the destination. *)
Lemma copypaste_arrays_zero_dim_lengths_differ :
  ndim vec3 = ndim vec5 /\
  center_in_bounds (shape vec3) [1] /\ center_in_bounds (shape vec5) [2] /\
  copypaste_arrays 0%nat 1%nat [1] [2] [Some 0] [vec3; vec5]
  = (Ok ([slice_all], [slice_all]), [vec3; vec5]) /\
  ~ (forall i, same_length_at vec3 vec5 ([slice_all], [slice_all]) i).
Proof.
  split; [done|]. split; [|split; [|split; [done|]]].
  - intros [|i] n x Hn Hx; simpl in *; [|done].
    injection Hn as <-. injection Hx as <-. lia.
  - intros [|i] n x Hn Hx; simpl in *; [|done].
    injection Hn as <-. injection Hx as <-. lia.
  - intros H. specialize (H 0%nat 3%nat 5%nat slice_all slice_all
      eq_refl eq_refl eq_refl eq_refl). vm_compute in H. discriminate.
Qed.

(** C10. [copypaste_arrays] leaves the store as it found it, and two calls
    on arrays of equal shapes, whatever their elements, return the same
    slices. *)
Theorem copypaste_arrays_reads_shapes_only {A}
    (h h' : heap A) src dest src' dest' (a b a' b' : ndarray A) sc dc dims :
  h !! src = Some a -> h !! dest = Some b ->
  h' !! src' = Some a' -> h' !! dest' = Some b' ->
  shape a = shape a' -> shape b = shape b' ->
  (copypaste_arrays src dest sc dc dims h).2 = h /\
  (copypaste_arrays src' dest' sc dc dims h').2 = h' /\
  (copypaste_arrays src dest sc dc dims h).1
  = (copypaste_arrays src' dest' sc dc dims h').1.
Proof.
  intros Ha Hb Ha' Hb' Es Ed.
  rewrite (copypaste_arrays_run h src dest a b) by done.
  rewrite (copypaste_arrays_run h' src' dest' a' b') by done.
  unfold ndim. by rewrite Es, Ed.
Qed.

Lemma copypaste_arrays_reads_shapes_only_witness :
  (copypaste_arrays 0%nat 1%nat [1] [2] [Some 3] [vec3; vec5]).2 = [vec3; vec5] /\
  (copypaste_arrays 1%nat 0%nat [1] [2] [Some 3] [vec5'; vec3']).2 = [vec5'; vec3'] /\
  (copypaste_arrays 0%nat 1%nat [1] [2] [Some 3] [vec3; vec5]).1
  = (copypaste_arrays 1%nat 0%nat [1] [2] [Some 3] [vec5'; vec3']).1.
Proof.
  apply (copypaste_arrays_reads_shapes_only [vec3; vec5] [vec5'; vec3']
           0%nat 1%nat 1%nat 0%nat vec3 vec5 vec3' vec5'); reflexivity.
Defined.

(** ** Slicing and assignment on boxes *)

Section Boxes.
Context {A : Type}.
Implicit Types (x v y : nest A) (l lv : list (nest A)).

Lemma has_shape_cons n s l :
  has_shape (n :: s) (Node l) <-> length l = n /\ Forall (has_shape s) l.
Proof. reflexivity. Qed.

Lemma has_shape_cons_inv n s x :
  has_shape (n :: s) x ->
  exists l, x = Node l /\ length l = n /\ Forall (has_shape s) l.
Proof. destruct x as [a|l]; [done|]. intros [? ?]. eauto. Qed.

Lemma has_shape_nil_inv x : has_shape [] x -> exists a, x = Leaf a.
Proof. destruct x; [eauto|done]. Qed.

Lemma full_nest_has_shape s (v : A) : has_shape s (full_nest s v).
Proof.
  induction s as [|n s IH]; [done|]. simpl. split.
  - apply length_replicate.
  - by apply Forall_replicate.
Qed.

Lemma nest_at_full s (v : A) p : in_shape p s -> nest_at p (full_nest s v) = Some v.
Proof.
  intros H. induction H as [|i n p s Hi _ IH]; [done|].
  simpl. rewrite lookup_replicate_2 by done. exact IH.
Qed.

Lemma rows_selects sl l lo r :
  selects sl (length l) lo r -> rows sl l = take r (drop lo l).
Proof.
  intros [E _]. unfold rows. rewrite E. f_equal; [lia|f_equal; lia].
Qed.

Lemma write_selects sl idx l lv lo r :
  selects sl (length l) lo r ->
  write (ISlice sl :: idx) (Node l) (Node lv)
  = Node (take lo l ++ zip_with (write idx) (take r (drop lo l)) lv
          ++ drop (lo + r) l).
Proof.
  intros [E _]. cbn [write]. rewrite E.
  replace (Z.to_nat (Z.of_nat (lo + r) - Z.of_nat lo)) with r by lia.
  by rewrite Nat2Z.id.
Qed.

Lemma boxed_lengths sls ts los rs :
  boxed sls ts los rs ->
  length sls = length ts /\ length los = length ts /\ length rs = length ts.
Proof. induction 1; simpl; [done|lia]. Qed.

Lemma boxed_intro sls ts los rs :
  length sls = length ts -> length los = length ts -> length rs = length ts ->
  (forall i sl t lo r,
     sls !! i = Some sl -> ts !! i = Some t -> los !! i = Some lo ->
     rs !! i = Some r -> selects sl t lo r) ->
  boxed sls ts los rs.
Proof.
  revert sls los rs. induction ts as [|t ts IH]; intros sls los rs L1 L2 L3 H.
  - destruct sls, los, rs; try done. constructor.
  - destruct sls as [|sl sls], los as [|lo los], rs as [|r rs]; try done.
    constructor.
    + by apply (H 0%nat).
    + apply IH; simpl in *; try lia.
      intros i. apply (H (S i)).
Qed.

Lemma index_shape_boxed sls ts los rs :
  boxed sls ts los rs -> index_shape (ISlice <$> sls) ts = Ok rs.
Proof.
  induction 1 as [|sl sls t ts lo los r rs [E Hle] _ IH]; [done|].
  cbn. rewrite IH. cbn. unfold slice_len. rewrite E. cbn. do 2 f_equal. lia.
Qed.

(** Reading back the box that was just assigned gives the assigned value. *)
Lemma index_data_write sls sls' ts los rs x v :
  boxed sls ts los rs -> boxed sls' ts los rs ->
  has_shape ts x -> has_shape rs v ->
  index_data (ISlice <$> sls') (write (ISlice <$> sls) x v) = v.
Proof.
  intros H. revert sls' x v.
  induction H as [|sl sls t ts lo los r rs Hsel _ IH]; intros sls' x v H' Hx Hv.
  { inversion H'; subst. done. }
  inversion H' as [|sl' sls'' ? ? ? ? ? ? Hsel' Hb']; subst.
  apply has_shape_cons_inv in Hx as (l & -> & Hl & Fl).
  apply has_shape_cons_inv in Hv as (lv & -> & Hlv & Flv).
  cbn [fmap list_fmap]. rewrite <- Hl in Hsel, Hsel'.
  rewrite (write_selects sl _ l lv lo r Hsel).
  pose proof (proj2 Hsel) as Hle.
  set (mid := zip_with (write (ISlice <$> sls)) (take r (drop lo l)) lv).
  assert (length mid = r) as Lmid.
  { subst mid. rewrite length_zip_with, length_take, length_drop. lia. }
  cbn [index_data]. rewrite (rows_selects sl' _ lo r).
  2:{ rewrite !length_app, Lmid, length_take, length_drop.
      replace (lo `min` length l + (r + (length l - (lo + r))))%nat
        with (length l) by lia. done. }
  rewrite drop_app_length' by (rewrite length_take; lia).
  rewrite take_app_length' by done.
  f_equal. subst mid.
  assert (Forall (has_shape ts) (take r (drop lo l))) as Fy.
  { apply Forall_take, Forall_drop, Fl. }
  assert (length (take r (drop lo l)) = length lv) as Ly.
  { rewrite length_take, length_drop. lia. }
  clear -IH Hb' Fy Flv Ly. revert Fy Ly.
  generalize (take r (drop lo l)) as ys. 
  induction Flv as [|w lv Hw _ IHlv]; intros ys Fy Ly.
  { by destruct ys. }
  destruct ys as [|y ys]; [done|].
  inversion Fy; subst. cbn. f_equal.
  - by apply IH.
  - apply IHlv; [done|]. simpl in Ly. lia.
Qed.

Lemma zip_with_write_whole (f : nest A -> nest A -> nest A) s l lv :
  (forall y w, has_shape s y -> has_shape s w -> f y w = w) ->
  Forall (has_shape s) l -> Forall (has_shape s) lv -> length l = length lv ->
  zip_with f l lv = lv.
Proof.
  intros Hf Fl. revert lv. induction Fl as [|y l Hy _ IH]; intros lv Flv L.
  { by destruct lv. }
  destruct lv as [|w lv]; [done|]. inversion Flv; subst. cbn. f_equal.
  - by apply Hf.
  - apply IH; [done|]. simpl in L. lia.
Qed.

(** Assigning to the whole array replaces it. *)
Lemma write_whole sls rs x v :
  boxed sls rs (replicate (length rs) 0%nat) rs ->
  has_shape rs x -> has_shape rs v ->
  write (ISlice <$> sls) x v = v.
Proof.
  revert sls x v. induction rs as [|r rs IH]; intros sls x v H Hx Hv.
  { inversion H; subst. done. }
  inversion H as [|sl sls' ? ? ? ? ? ? Hsel Hb]; subst.
  apply has_shape_cons_inv in Hx as (l & -> & Hl & Fl).
  apply has_shape_cons_inv in Hv as (lv & -> & Hlv & Flv).
  cbn [fmap list_fmap]. subst r.
  rewrite (write_selects sl _ l lv 0 (length l) Hsel).
  rewrite drop_0, take_0, Nat.add_0_l. cbn [app].
  rewrite firstn_all, drop_all, app_nil_r. f_equal.
  apply (zip_with_write_whole _ rs); try done.
  intros y w Hy Hw. by apply IH.
Qed.

(** Reading the whole array gives the array. *)
Lemma index_data_whole sls rs x :
  boxed sls rs (replicate (length rs) 0%nat) rs ->
  has_shape rs x -> index_data (ISlice <$> sls) x = x.
Proof.
  revert sls x. induction rs as [|r rs IH]; intros sls x H Hx.
  { inversion H; subst. done. }
  inversion H as [|sl sls' ? ? ? ? ? ? Hsel Hb]; subst.
  apply has_shape_cons_inv in Hx as (l & -> & Hl & Fl).
  cbn [fmap list_fmap index_data]. subst r.
  rewrite (rows_selects sl l 0 (length l) Hsel), drop_0, firstn_all. f_equal.
  clear -IH Hb Fl. induction Fl as [|y l Hy _ IHl]; [done|].
  cbn. f_equal; [by apply IH|done].
Qed.

(** Elements after an assignment to a box: inside the box those of the
    value, outside the old ones. *)
Lemma nest_at_write sls ts los rs x v p :
  boxed sls ts los rs -> has_shape ts x -> has_shape rs v -> in_shape p ts ->
  nest_at p (write (ISlice <$> sls) x v)
  = if in_box p los rs then nest_at (zip_with Nat.sub p los) v else nest_at p x.
Proof.
  intros H. revert x v p.
  induction H as [|sl sls t ts lo los r rs Hsel _ IH]; intros x v p Hx Hv Hp.
  { inversion Hp; subst. done. }
  inversion Hp as [|i ? p' ? Hi Hp']; subst.
  apply has_shape_cons_inv in Hx as (l & -> & Hl & Fl).
  apply has_shape_cons_inv in Hv as (lv & -> & Hlv & Flv).
  cbn [fmap list_fmap]. rewrite <- Hl in Hsel.
  rewrite (write_selects sl _ l lv lo r Hsel).
  pose proof (proj2 Hsel) as Hle.
  cbn [nest_at in_box zip_with].
  set (mid := zip_with (write (ISlice <$> sls)) (take r (drop lo l)) lv).
  assert (length mid = r) as Lmid.
  { subst mid. rewrite length_zip_with, length_take, length_drop. lia. }
  destruct (decide (i < lo)%nat) as [Hlt|Hge].
  { rewrite lookup_app_l by (rewrite length_take; lia).
    rewrite lookup_take_lt by done.
    rewrite bool_decide_eq_false_2 by lia. done. }
  rewrite lookup_app_r by (rewrite length_take; lia).
  rewrite length_take. replace (lo `min` length l)%nat with lo by lia.
  destruct (decide (i < lo + r)%nat) as [Hin|Hout].
  - rewrite lookup_app_l by lia.
    rewrite bool_decide_eq_true_2 by lia. cbn [andb].
    destruct (lookup_lt_is_Some_2 l i ltac:(lia)) as [y Hy].
    destruct (lookup_lt_is_Some_2 lv (i - lo) ltac:(lia)) as [w Hw].
    assert (mid !! (i - lo)%nat = Some (write (ISlice <$> sls) y w)) as ->.
    { subst mid. rewrite lookup_zip_with, lookup_take_lt, lookup_drop by lia.
      replace (lo + (i - lo))%nat with i by lia. by rewrite Hy, Hw. }
    rewrite Hy, Hw. apply IH; [|by eapply Forall_lookup_1|done].
    by eapply Forall_lookup_1.
  - rewrite lookup_app_r by lia. rewrite lookup_drop.
    replace (lo + r + (i - lo - length mid))%nat with i by lia.
    rewrite bool_decide_eq_false_2 by lia. done.
Qed.

Lemma mapM_stretch_id (f : nest A -> option (nest A)) s l :
  (forall y, has_shape s y -> f y = Some y) ->
  Forall (has_shape s) l -> mapM f l = Some l.
Proof.
  intros Hf. induction 1 as [|y l Hy _ IH]; [done|].
  cbn. rewrite (Hf y Hy). cbn. rewrite IH. done.
Qed.

(** A value that already has the shape of the target is broadcast to
    itself. *)
Lemma stretch_same s x : has_shape s x -> stretch s s x = Some x.
Proof.
  revert x. induction s as [|n s IH]; intros x Hx.
  { done. }
  apply has_shape_cons_inv in Hx as (l & -> & Hl & Fl).
  cbn [stretch]. rewrite decide_False by lia. rewrite decide_True by done.
  rewrite (mapM_stretch_id _ s); done.
Qed.

Lemma broadcast_to_same (v : ndarray A) : wf v -> broadcast_to (shape v) v = Some (data v).
Proof.
  intros Hv. unfold broadcast_to. rewrite Nat.sub_diag. cbn.
  by apply stretch_same.
Qed.
End Boxes.

(** ** resize_center *)

Lemma half_shape_lookup s i n :
  s !! i = Some n -> half_shape s !! i = Some (Z.of_nat n `div` 2).
Proof. intros H. unfold half_shape. by rewrite list_lookup_fmap, H. Qed.

Lemma as_dims_lookup s i n :
  s !! i = Some n -> as_dims s !! i = Some (Some (Z.of_nat n)).
Proof. intros H. unfold as_dims. by rewrite !list_lookup_fmap, H. Qed.

(** Growing: on each axis the whole source goes to the centred window of
    the destination. *)
Lemma grow_axis ss ts i n m :
  ss !! i = Some n -> ts !! i = Some m -> (n <= m)%nat ->
  selects (axis_window i n m (half_shape ss) (half_shape ts) (as_dims ts)).1
          n 0 n /\
  selects (axis_window i n m (half_shape ss) (half_shape ts) (as_dims ts)).2
          m (Z.to_nat (Z.of_nat m `div` 2 - Z.of_nat n `div` 2)) n.
Proof.
  intros Hn Hm Hle. unfold axis_window, active.
  rewrite (half_shape_lookup _ _ _ Hn), (half_shape_lookup _ _ _ Hm),
    (as_dims_lookup _ _ _ Hm). cbn [from_option Datatypes.id truthy].
  destruct (Z.eqb_spec (Z.of_nat m) 0) as [E|E]; cbn [negb].
  - assert (m = 0%nat) as -> by lia. assert (n = 0%nat) as -> by lia.
    split; (split; [reflexivity|lia]).
  - unfold window, selects.
    assert (np_clip (Z.of_nat m `div` 2) 0
              (Z.min (Z.of_nat n `div` 2) (Z.of_nat m `div` 2))
            = Z.of_nat n `div` 2) as -> by (unfold np_clip; div_lia).
    assert (np_clip (Z.of_nat m `div` 2 + 1) 0
              (Z.min (Z.of_nat n - Z.of_nat n `div` 2)
                     (Z.of_nat m - Z.of_nat m `div` 2))
            = Z.of_nat n - Z.of_nat n `div` 2) as -> by (unfold np_clip; div_lia).
    cbn [fst snd]. rewrite !slice_indices_explicit by div_lia.
    split; (split; [f_equal|]); div_lia.
Qed.

(** Shrinking: on each axis the centred window of the source goes to the
    whole destination. *)
Lemma shrink_axis ss ts i n m :
  ss !! i = Some n -> ts !! i = Some m -> (n <= m)%nat -> (0 < n)%nat ->
  selects (axis_window i m n (half_shape ts) (half_shape ss) (as_dims ss)).1
          m (Z.to_nat (Z.of_nat m `div` 2 - Z.of_nat n `div` 2)) n /\
  selects (axis_window i m n (half_shape ts) (half_shape ss) (as_dims ss)).2
          n 0 n.
Proof.
  intros Hn Hm Hle Hpos. unfold axis_window, active.
  rewrite (half_shape_lookup _ _ _ Hn), (half_shape_lookup _ _ _ Hm),
    (as_dims_lookup _ _ _ Hn). cbn [from_option Datatypes.id truthy].
  destruct (Z.eqb_spec (Z.of_nat n) 0) as [E|E]; [lia|]. cbn [negb].
  unfold window, selects.
  assert (np_clip (Z.of_nat n `div` 2) 0
            (Z.min (Z.of_nat m `div` 2) (Z.of_nat n `div` 2))
          = Z.of_nat n `div` 2) as -> by (unfold np_clip; div_lia).
  assert (np_clip (Z.of_nat n `div` 2 + 1) 0
            (Z.min (Z.of_nat m - Z.of_nat m `div` 2)
                   (Z.of_nat n - Z.of_nat n `div` 2))
          = Z.of_nat n - Z.of_nat n `div` 2) as -> by (unfold np_clip; div_lia).
  cbn [fst snd]. rewrite !slice_indices_explicit by div_lia.
  split; (split; [f_equal|]); div_lia.
Qed.

Lemma resolve_dims_keep i ds s :
  (forall k d, ds !! k = Some d -> d <> 0%nat \/ s !! (i + k)%nat = Some 0%nat) ->
  resolve_dims i (as_dims ds) s = Ok (Z.of_nat <$> ds).
Proof.
  revert i. induction ds as [|d ds IH]; intros i H; [done|].
  cbn [as_dims fmap list_fmap resolve_dims].
  assert (py_or (Some (Z.of_nat d)) (shape_item s i) = Ok (Z.of_nat d)) as ->.
  { unfold py_or, truthy. destruct (Z.eqb_spec (Z.of_nat d) 0) as [E|E]; [|done].
    cbn [negb]. destruct (H 0%nat d eq_refl) as [?|Hs]; [lia|].
    replace (i + 0)%nat with i in Hs by lia. unfold shape_item. rewrite Hs.
    f_equal. lia. }
  cbn [rbind]. fold (as_dims ds). rewrite IH; [done|].
  intros k d' Hk. replace (S i + k)%nat with (i + S k)%nat by lia.
  by apply (H (S k)).
Qed.

Lemma np_full_nat {A} (ts : list nat) (v : A) :
  np_full (Z.of_nat <$> ts) v = Ok (NdArray ts (full_nest ts v)).
Proof.
  unfold np_full.
  assert (forallb (fun d => 0 <=? d) (Z.of_nat <$> ts) = true) as ->.
  { induction ts as [|t ts IH]; [done|]. cbn. rewrite IH.
    destruct (Z.leb_spec 0 (Z.of_nat t)); [done|lia]. }
  assert (Z.to_nat <$> (Z.of_nat <$> ts) = ts) as ->; [|done].
  induction ts as [|t ts IH]; [done|]. cbn. by rewrite Nat2Z.id, IH.
Qed.

(** One call of [resize_center], once the slices are known to select boxes
    of one and the same shape [rs]. *)
Lemma resize_center_run {A} (h : heap A) img a ts rs fill :
  h !! img = Some a ->
  resolve_dims 0 (as_dims ts) (shape a) = Ok (Z.of_nat <$> ts) ->
  let r := copypaste_loop 0 (shape a) ts (half_shape (shape a)) (half_shape ts)
             (as_dims ts)
             (replicate (ndim a) slice_all, replicate (length ts) slice_all) in
  index_shape (ISlice <$> r.1) (shape a) = Ok rs ->
  index_shape (ISlice <$> r.2) ts = Ok rs ->
  has_shape rs (index_data (ISlice <$> r.1) (data a)) ->
  resize_center img (as_dims ts) fill h
  = (Ok (length h),
     h ++ [NdArray ts (write (ISlice <$> r.2) (full_nest ts fill)
                         (index_data (ISlice <$> r.1) (data a)))]).
Proof.
  intros Ha Hres r Hs1 Hs2 Hv.
  pose proof (lookup_lt_Some _ _ _ Ha) as Himg.
  unfold resize_center, bind, lift, alloc, store, ret.
  unfold load at 1. rewrite Ha, Hres, np_full_nat.
  set (d := NdArray ts (full_nest ts fill)).
  rewrite (copypaste_arrays_run (h ++ [d]) img (length h) a d).
  2:{ by rewrite lookup_app_l. }
  2:{ by rewrite list_lookup_middle. }
  change (shape d) with ts. change (ndim d) with (length ts).
  change (Some <$> (Z.of_nat <$> ts)) with (as_dims ts). fold r.
  destruct r as [srcslices destslices]. cbn [fst snd] in *. cbv beta.
  unfold load. rewrite (lookup_app_l h [d] img) by done. rewrite Ha.
  unfold np_getitem. rewrite Hs1. cbn [rbind].
  rewrite list_lookup_middle by done.
  subst d. unfold np_setitem. cbn [shape data]. rewrite Hs2. cbn [rbind].
  unfold broadcast_to. cbn [shape data]. rewrite Nat.sub_diag.
  cbn [strip_unit_axes]. rewrite stretch_same by done.
  rewrite insert_app_r_alt by lia. rewrite Nat.sub_diag. done.
Qed.

Lemma center_offsets_lookup ss ts i n m :
  ss !! i = Some n -> ts !! i = Some m ->
  center_offsets ss ts !! i
  = Some (Z.to_nat (Z.of_nat m `div` 2 - Z.of_nat n `div` 2)).
Proof.
  intros Hn Hm. unfold center_offsets. by rewrite lookup_zip_with, Hn, Hm.
Qed.

Lemma center_offsets_length ss ts :
  length ss = length ts -> length (center_offsets ss ts) = length ts.
Proof. intros H. unfold center_offsets. rewrite length_zip_with. lia. Qed.

(** The slices computed when growing from shape [ss] to shape [ts]. *)
Lemma copypaste_boxes_grow ss ts :
  Forall2 (fun n m => (n <= m)%nat) ss ts ->
  let r := copypaste_loop 0 ss ts (half_shape ss) (half_shape ts) (as_dims ts)
             (replicate (length ss) slice_all, replicate (length ts) slice_all) in
  boxed r.1 ss (replicate (length ss) 0%nat) ss /\
  boxed r.2 ts (center_offsets ss ts) ss.
Proof.
  intros Hle r. pose proof Hle as Hlen; apply Forall2_length in Hlen.
  destruct (copypaste_loop_length 0 ss ts (half_shape ss) (half_shape ts)
    (as_dims ts) (replicate (length ss) slice_all, replicate (length ts) slice_all))
    as [L1 L2]. fold r in L1, L2. cbn [fst snd] in L1, L2.
  rewrite length_replicate in L1, L2.
  assert (forall i n m, ss !! i = Some n -> ts !! i = Some m ->
    r.1 !! i = Some (axis_window i n m (half_shape ss) (half_shape ts) (as_dims ts)).1 /\
    r.2 !! i = Some (axis_window i n m (half_shape ss) (half_shape ts) (as_dims ts)).2)
    as Hr by (intros; by apply copypaste_loop_entry).
  split; apply boxed_intro; rewrite ?length_replicate; try lia.
  - intros i sl t lo k Hsl Ht Hlo Hk. rewrite Ht in Hk. injection Hk as <-.
    apply lookup_replicate in Hlo as [-> _].
    destruct (lookup_lt_is_Some_2 ts i) as [m Hm];
      [apply lookup_lt_Some in Ht; lia|].
    destruct (Hr i t m Ht Hm) as [E _]. rewrite E in Hsl. injection Hsl as <-.
    apply grow_axis; [done..|]. by eapply (Forall2_lookup_lr _ ss ts).
  - by apply center_offsets_length.
  - intros i sl m lo n Hsl Hm Hlo Hn.
    rewrite (center_offsets_lookup _ _ _ _ _ Hn Hm) in Hlo. injection Hlo as <-.
    destruct (Hr i n m Hn Hm) as [_ E]. rewrite E in Hsl. injection Hsl as <-.
    apply grow_axis; [done..|]. by eapply (Forall2_lookup_lr _ ss ts).
Qed.

(** The slices computed when shrinking from shape [ts] back to [ss]. *)
Lemma copypaste_boxes_shrink ss ts :
  Forall2 (fun n m => (n <= m)%nat) ss ts -> Forall (fun n => (0 < n)%nat) ss ->
  let r := copypaste_loop 0 ts ss (half_shape ts) (half_shape ss) (as_dims ss)
             (replicate (length ts) slice_all, replicate (length ss) slice_all) in
  boxed r.1 ts (center_offsets ss ts) ss /\
  boxed r.2 ss (replicate (length ss) 0%nat) ss.
Proof.
  intros Hle Hpos r. pose proof Hle as Hlen; apply Forall2_length in Hlen.
  destruct (copypaste_loop_length 0 ts ss (half_shape ts) (half_shape ss)
    (as_dims ss) (replicate (length ts) slice_all, replicate (length ss) slice_all))
    as [L1 L2]. fold r in L1, L2. cbn [fst snd] in L1, L2.
  rewrite length_replicate in L1, L2.
  assert (forall i n m, ss !! i = Some n -> ts !! i = Some m ->
    r.1 !! i = Some (axis_window i m n (half_shape ts) (half_shape ss) (as_dims ss)).1 /\
    r.2 !! i = Some (axis_window i m n (half_shape ts) (half_shape ss) (as_dims ss)).2)
    as Hr by (intros; by apply copypaste_loop_entry).
  split; apply boxed_intro; rewrite ?length_replicate; try lia.
  - by apply center_offsets_length.
  - intros i sl m lo n Hsl Hm Hlo Hn.
    rewrite (center_offsets_lookup _ _ _ _ _ Hn Hm) in Hlo. injection Hlo as <-.
    destruct (Hr i n m Hn Hm) as [E _]. rewrite E in Hsl. injection Hsl as <-.
    apply shrink_axis; [done..| |].
    + by eapply (Forall2_lookup_lr _ ss ts).
    + by eapply (Forall_lookup_1 _ ss).
  - intros i sl t lo k Hsl Ht Hlo Hk. rewrite Ht in Hk. injection Hk as <-.
    apply lookup_replicate in Hlo as [-> _].
    destruct (lookup_lt_is_Some_2 ts i) as [m Hm];
      [apply lookup_lt_Some in Ht; lia|].
    destruct (Hr i t m Ht Hm) as [_ E]. rewrite E in Hsl. injection Hsl as <-.
    apply shrink_axis; [done..| |].
    + by eapply (Forall2_lookup_lr _ ss ts).
    + by eapply (Forall_lookup_1 _ ss).
Qed.

Lemma Forall2_le_refl (s : list nat) : Forall2 (fun n m => (n <= m)%nat) s s.
Proof. induction s; constructor; [lia|done]. Qed.

Lemma center_offsets_same s : center_offsets s s = replicate (length s) 0%nat.
Proof.
  induction s as [|n s IH]; [done|]. unfold center_offsets in *. cbn.
  rewrite IH. f_equal. lia.
Qed.

Section ResizeCenter.
Context {A : Type}.
Implicit Types (h : heap A) (a : ndarray A).

(** C5. Resizing a stored array to its own shape returns a reference to a
    new array equal to it; nothing else in the store changes. *)
Theorem resize_center_identity h img a fill :
  h !! img = Some a -> wf a ->
  resize_center img (as_dims (shape a)) fill h = (Ok (length h), h ++ [a]).
Proof.
  intros Ha Hwf.
  destruct (copypaste_boxes_grow (shape a) (shape a) (Forall2_le_refl _))
    as [B1 B2]. rewrite center_offsets_same in B2.
  rewrite (resize_center_run h img a (shape a) (shape a) fill Ha).
  - rewrite (index_data_whole _ (shape a)) by done.
    rewrite (write_whole _ (shape a)); [by destruct a|done| |done].
    apply full_nest_has_shape.
  - apply resolve_dims_keep. intros k d Hk. destruct d; [by right|by left].
  - by apply (index_shape_boxed _ _ (replicate (length (shape a)) 0%nat)).
  - by apply (index_shape_boxed _ _ (replicate (length (shape a)) 0%nat)).
  - by rewrite (index_data_whole _ (shape a)).
Qed.

(** C4. For a stored array of the specification (its shape is a sequence
    of positive integers) and a target shape at least as large on every
    axis, [resize_center] to the target returns a new array of that shape
    which holds the elements of the array in the centred box and the fill
    value at every other position, and [resize_center] of that array to the
    original shape returns a new array equal to the original one. *)
Theorem resize_center_grow_shrink h img a ts fill fill' :
  h !! img = Some a -> wf a ->
  Forall (fun n => (0 < n)%nat) (shape a) ->
  Forall2 (fun n m => (n <= m)%nat) (shape a) ts ->
  exists grown,
    resize_center img (as_dims ts) fill h = (Ok (length h), h ++ [grown]) /\
    shape grown = ts /\
    (forall p, in_shape p ts ->
       nest_at p (data grown)
       = if in_box p (center_offsets (shape a) ts) (shape a)
         then nest_at (zip_with Nat.sub p (center_offsets (shape a) ts)) (data a)
         else Some fill) /\
    resize_center (length h) (as_dims (shape a)) fill' (h ++ [grown])
    = (Ok (S (length h)), h ++ [grown; a]).
Proof.
  intros Ha Hwf Hpos Hle.
  pose proof Hle as Hlen; apply Forall2_length in Hlen.
  destruct (copypaste_boxes_grow (shape a) ts Hle) as [B1 B2].
  destruct (copypaste_boxes_shrink (shape a) ts Hle Hpos) as [B3 B4].
  set (r := copypaste_loop 0 (shape a) ts (half_shape (shape a)) (half_shape ts)
              (as_dims ts)
              (replicate (length (shape a)) slice_all,
               replicate (length ts) slice_all)) in *.
  set (grown := NdArray ts (write (ISlice <$> r.2) (full_nest ts fill) (data a))).
  assert (resize_center img (as_dims ts) fill h = (Ok (length h), h ++ [grown]))
    as Hgrow.
  { rewrite (resize_center_run h img a ts (shape a) fill Ha).
    - fold r. by rewrite (index_data_whole _ (shape a)).
    - apply resolve_dims_keep. intros k d Hk. destruct d; [right|by left].
      destruct (lookup_lt_is_Some_2 (shape a) k) as [n Hn];
        [apply lookup_lt_Some in Hk; lia|].
      pose proof (Forall2_lookup_lr _ _ _ _ _ _ Hle Hn Hk). simpl in *.
      rewrite Hn. f_equal. lia.
    - by apply (index_shape_boxed _ _ (replicate (length (shape a)) 0%nat)).
    - by apply (index_shape_boxed _ _ (center_offsets (shape a) ts)).
    - fold r. by rewrite (index_data_whole _ (shape a)). }
  exists grown. split; [done|]. split; [done|]. split.
  - intros p Hp. subst grown. cbn [data].
    rewrite (nest_at_write _ ts (center_offsets (shape a) ts) (shape a));
      [|done|apply full_nest_has_shape|done|done].
    destruct (in_box _ _ _); [done|]. by apply nest_at_full.
  - rewrite (resize_center_run (h ++ [grown]) (length h) grown (shape a)
               (shape a) fill').
    + rewrite length_app. cbn [length]. rewrite Nat.add_1_r.
      rewrite <- app_assoc. cbn [app]. do 3 f_equal.
      subst grown. cbn [shape data ndim].
      rewrite (index_data_write _ _ ts (center_offsets (shape a) ts) (shape a));
        [|done|done|apply full_nest_has_shape|done].
      rewrite (write_whole _ (shape a)); [by destruct a|done| |done].
      apply full_nest_has_shape.
    + by rewrite list_lookup_middle.
    + apply resolve_dims_keep. intros k d Hk. left.
      pose proof (Forall_lookup_1 _ _ _ _ Hpos Hk). simpl in *. lia.
    + subst grown. cbn [shape data ndim].
      by apply (index_shape_boxed _ _ (center_offsets (shape a) ts)).
    + by apply (index_shape_boxed _ _ (replicate (length (shape a)) 0%nat)).
    + subst grown. cbn [shape data ndim].
      by rewrite (index_data_write _ _ ts (center_offsets (shape a) ts) (shape a));
        [|done|done|apply full_nest_has_shape|done].
Qed.

End ResizeCenter.

Lemma resize_center_identity_witness :
  resize_center 0%nat (as_dims (shape vec3)) 0 [vec3] = (Ok 1%nat, [vec3; vec3]).
Proof.
  apply (resize_center_identity [vec3] 0%nat vec3 0); [reflexivity|].
  unfold wf. simpl. split; [reflexivity|]. repeat constructor.
Defined.

Lemma resize_center_grow_shrink_witness :
  exists grown,
    resize_center 0%nat (as_dims [5%nat]) (-1) [vec3]
    = (Ok 1%nat, [vec3] ++ [grown]) /\
    shape grown = [5%nat] /\
    (forall p, in_shape p [5%nat] ->
       nest_at p (data grown)
       = if in_box p (center_offsets (shape vec3) [5%nat]) (shape vec3)
         then nest_at (zip_with Nat.sub p (center_offsets (shape vec3) [5%nat]))
                (data vec3)
         else Some (-1)) /\
    resize_center 1%nat (as_dims (shape vec3)) 0 ([vec3] ++ [grown])
    = (Ok 2%nat, [vec3] ++ [grown; vec3]).
Proof.
  apply (resize_center_grow_shrink [vec3] 0%nat vec3 [5%nat] (-1) 0).
  - reflexivity.
  - unfold wf. simpl. split; [reflexivity|]. repeat constructor.
  - simpl. repeat constructor.
  - simpl. repeat constructor.
Defined.

(** The grown copy of [vec3] inside five cells filled with -1. *)
Example resize_center_grow_example :
  resize_center 0%nat (as_dims [5%nat]) (-1) [vec3]
  = (Ok 1%nat,
     [vec3; NdArray [5%nat] (Node [Leaf (-1); Leaf 7; Leaf 8; Leaf 9; Leaf (-1)])]).
Proof. reflexivity. Qed.

(** Why the axes are positive: numpy also has arrays with an axis of length
    zero, which are no arrays of the specification; for them a requested
    length 0 means the length of the argument, so the second call keeps the
    grown length 3 instead of going back to 0. *)
Lemma resize_center_zero_axis_not_restored :
  wf empty1 /\
  Forall2 (fun n m => (n <= m)%nat) (shape empty1) [3%nat] /\
  resize_center 0%nat (as_dims [3%nat]) 0 [empty1]
  = (Ok 1%nat, [empty1; NdArray [3%nat] (Node [Leaf 0; Leaf 0; Leaf 0])]) /\
  resize_center 1%nat (as_dims (shape empty1)) 0
    [empty1; NdArray [3%nat] (Node [Leaf 0; Leaf 0; Leaf 0])]
  = (Ok 2%nat, [empty1; NdArray [3%nat] (Node [Leaf 0; Leaf 0; Leaf 0]);
                NdArray [3%nat] (Node [Leaf 0; Leaf 0; Leaf 0])]) /\
  NdArray [3%nat] (Node [Leaf 0; Leaf 0; Leaf 0]) <> empty1.
Proof.
  split; [by split|]. split; [repeat constructor|].
  split; [reflexivity|]. split; [reflexivity|]. discriminate.
Qed.

(** ** generate_pos_neg_label_crop_centers *)

(** The first scenario of the specification: a 10 x 10 label with one
    foreground voxel, ROI 4 x 4, five samples, ratio 1. *)
Example crop_centers_scenario_foreground :
  valid_range [10; 10]%nat [4; 4] = Ok ([2; 2], [9; 9]) /\
  generate_pos_neg_label_crop_centers nonzero Z.gtb counter_rand counter_randint
    label_10x10 [4; 4] 5 1%Q None 0 0
  = Outcome (Ok [[5; 5]; [5; 5]; [5; 5]; [5; 5]; [5; 5]]) [] 10.
Proof. split; vm_compute; reflexivity. Qed.

(** The second scenario: no foreground, ratio 0.7: a warning, and centres
    drawn from the background. *)
Example crop_centers_scenario_background :
  generate_pos_neg_label_crop_centers nonzero Z.gtb counter_rand counter_randint
    label_blank [1] 3 (7 # 10)%Q None 0 0
  = Outcome (Ok [[1]; [0]; [2]]) [UnbalancedWarning 0 3] 6.
Proof. vm_compute. reflexivity. Qed.

(** C2 fails on an axis too long for 16 bits. For one channel of 65546
    voxels and an ROI of 20, [valid_start] is 10 while the cast leaves
    [valid_end = 65537 mod 2^16 = 1]; the foreground voxel 100 is at or
    above [valid_end] and is moved to [valid_end - 1 = 0], below
    [valid_start] and outside the range [10, 65537) the comment and the
    docstring promise. *)
Theorem crop_centers_uint16_wrap :
  valid_range (tail (shape label_long)) [20] = Ok ([10], [1]) /\
  returned (generate_pos_neg_label_crop_centers nonzero Z.gtb
              counter_rand counter_randint label_long [20] 1 1%Q None 0 0)
  = Ok [[0]] /\
  ~ (10 <= 0 < 65546 + 1 - 20 `div` 2).
Proof.
  split; [vm_compute; reflexivity|]. split; [vm_compute; reflexivity|]. lia.
Qed.

(** *** Shapes through the reductions *)

Lemma Forall_weaken {X} (P Q : X -> Prop) (l : list X) :
  Forall P l -> (forall x, P x -> Q x) -> Forall Q l.
Proof. induction 1; intros HPQ; constructor; auto. Qed.

Lemma nest_map_has_shape {V W} (f : V -> W) s x :
  has_shape s x -> has_shape s (nest_map f x).
Proof.
  revert x. induction s as [|n s IH]; intros x Hx.
  - apply has_shape_nil_inv in Hx as [a ->]. done.
  - apply has_shape_cons_inv in Hx as (l & -> & Hl & Fl). cbn. split.
    + by rewrite length_fmap.
    + apply Forall_fmap. apply (Forall_weaken _ _ _ Fl). intros y. apply IH.
Qed.

Lemma nest_or_has_shape s x y :
  has_shape s x -> has_shape s y -> has_shape s (nest_or x y).
Proof.
  revert x y. induction s as [|n s IH]; intros x y Hx Hy.
  - apply has_shape_nil_inv in Hx as [a ->].
    apply has_shape_nil_inv in Hy as [b ->]. done.
  - apply has_shape_cons_inv in Hx as (l & -> & Hl & Fl).
    apply has_shape_cons_inv in Hy as (k & -> & Hk & Fk). cbn. split.
    + rewrite length_zip_with. lia.
    + clear Hl Hk. revert k Fk. induction Fl as [|u l Hu _ IHl]; intros k Fk.
      { constructor. }
      destruct Fk as [|v k Hv Fk]; constructor; [by apply IH|by apply IHl].
Qed.

Lemma fold_nest_or_has_shape s chans acc :
  has_shape s acc -> Forall (has_shape s) chans ->
  has_shape s (fold_left nest_or chans acc).
Proof.
  intros Hacc F. revert acc Hacc. induction F as [|c chans Hc _ IH]; intros acc Hacc.
  - done.
  - cbn. apply IH. by apply nest_or_has_shape.
Qed.

Lemma np_any_axis0_ok {V} (truth : V -> bool) (a : ndarray V) c spatial :
  wf a -> shape a = c :: spatial ->
  exists x, np_any_axis0 truth a = Ok (NdArray spatial x) /\ has_shape spatial x.
Proof.
  intros Hwf Hs. unfold wf in Hwf. unfold np_any_axis0. rewrite Hs in *.
  apply has_shape_cons_inv in Hwf as (chans & -> & _ & F).
  eexists. split; [done|]. apply fold_nest_or_has_shape.
  - apply full_nest_has_shape.
  - apply Forall_fmap. apply (Forall_weaken _ _ _ F).
    intros y. apply nest_map_has_shape.
Qed.

Lemma size_of_nonneg s : 0 <= size_of s.
Proof.
  induction s as [|n s IH]; [done|].
  change (size_of (n :: s)) with (Z.of_nat n * size_of s).
  apply Z.mul_nonneg_nonneg; lia.
Qed.

Lemma ravel_length {V} s (x : nest V) :
  has_shape s x -> Z.of_nat (length (ravel x)) = size_of s.
Proof.
  revert x. induction s as [|n s IH]; intros x Hx.
  - apply has_shape_nil_inv in Hx as [a ->]. done.
  - apply has_shape_cons_inv in Hx as (l & -> & <- & Fl).
    change (size_of (length l :: s)) with (Z.of_nat (length l) * size_of s).
    cbn [ravel]. induction Fl as [|y l Hy _ IHl]; [done|].
    rewrite fmap_cons. cbn [concat]. rewrite length_app, Nat2Z.inj_add.
    rewrite (IH y Hy), IHl. cbn [length]. rewrite Nat2Z.inj_succ. ring.
Qed.

Lemma nonzero_from_range i l :
  Forall (fun j => i <= j < i + Z.of_nat (length l)) (nonzero_from i l).
Proof.
  revert i. induction l as [|b l IH]; intros i; [constructor|].
  cbn [nonzero_from length].
  assert (Forall (fun j => i <= j < i + Z.of_nat (S (length l)))
            (nonzero_from (i + 1) l)) as H.
  { apply (Forall_weaken _ _ _ (IH (i + 1))). intros j Hj. lia. }
  destruct b; [constructor; [lia|done]|done].
Qed.

Lemma np_nonzero_range l :
  Forall (fun j => 0 <= j < Z.of_nat (length l)) (np_nonzero l).
Proof. apply (nonzero_from_range 0 l). Qed.

Section SamplerFacts.
Context {V W G : Type}.
Context (truth : V -> bool) (above : W -> W -> bool).
Context (rand : G -> Q * G) (randint : Z -> G -> Z * G).

(** The index sets are computed without error and hold positions of the
    flattened spatial volume. *)
Lemma fg_bg_indicies_ok (label : ndarray V) (image : option (ndarray W)) thr c spatial :
  wf label -> shape label = c :: spatial -> image_fits spatial image ->
  exists fg bg,
    fg_bg_indicies truth above label image thr = Ok (fg, bg) /\
    Forall (fun j => 0 <= j < size_of spatial) fg /\
    Forall (fun j => 0 <= j < size_of spatial) bg.
Proof.
  intros Hwf Hs Himg. unfold fg_bg_indicies.
  destruct (np_any_axis0_ok truth label c spatial Hwf Hs) as (x & -> & Hx).
  cbn [rbind data]. pose proof (ravel_length spatial x Hx) as Lx.
  assert (Forall (fun j => 0 <= j < size_of spatial) (np_nonzero (ravel x))) as Hfg.
  { rewrite <- Lx. apply np_nonzero_range. }
  destruct image as [img|].
  - destruct Himg as (Hwfi & ci & Hsi).
    destruct (np_any_axis0_ok (fun v => above v thr) img ci spatial Hwfi Hsi)
      as (y & -> & Hy).
    cbn [rbind data]. pose proof (ravel_length spatial y Hy) as Ly.
    unfold np_logical_and. rewrite decide_True by (rewrite length_fmap; lia).
    cbn [rbind]. do 2 eexists. split; [done|]. split; [done|].
    eapply Forall_weaken; [apply np_nonzero_range|].
    intros j Hj. cbv beta in *. rewrite length_zip_with, length_fmap in Hj. lia.
  - do 2 eexists. split; [done|]. split; [done|].
    eapply Forall_weaken; [apply np_nonzero_range|].
    intros j Hj. cbv beta in *. rewrite length_fmap in Hj. lia.
Qed.

Lemma unravel_rev_length idx s : length (unravel_rev idx s) = length s.
Proof. revert idx. induction s as [|n s IH]; intros idx; cbn; [done|by rewrite IH]. Qed.

Lemma np_unravel_index_ok idx s :
  0 <= idx < size_of s ->
  exists c, np_unravel_index idx s = Ok c /\ length c = length s.
Proof.
  intros H. unfold np_unravel_index.
  destruct (Z.leb_spec 0 idx); [|lia]. destruct (Z.ltb_spec idx (size_of s)); [|lia].
  eexists. split; [done|]. by rewrite length_rev, unravel_rev_length, length_rev.
Qed.

Lemma shift_center_ok i center vs ve :
  (i + length center <= length vs)%nat -> (i + length center <= length ve)%nat ->
  exists c, shift_center i center vs ve = Ok c /\ length c = length center.
Proof.
  revert i. induction center as [|x center IH]; intros i H1 H2.
  { by exists []. }
  cbn [shift_center length] in *.
  destruct (lookup_lt_is_Some_2 vs i ltac:(lia)) as [s ->].
  destruct (lookup_lt_is_Some_2 ve i ltac:(lia)) as [e ->].
  destruct (IH (S i) ltac:(lia) ltac:(lia)) as (c & -> & Lc).
  eexists. split; [done|]. cbn. by rewrite Lc.
Qed.

Lemma valid_range_lengths max_size size vs ve :
  valid_range max_size size = Ok (vs, ve) ->
  length size = length max_size /\ length vs = length max_size /\
  length ve = length max_size.
Proof.
  unfold valid_range. destruct (Nat.eqb_spec (length max_size) (length size)) as [E|];
    [|done]. cbn [negb]. destruct (negb _); [done|].
  intros [= <- <-]. rewrite !length_zip_with, length_fmap. lia.
Qed.

Lemma center_of_index_ok c spatial vs ve idx :
  (0 < c)%nat -> length vs = length spatial -> length ve = length spatial ->
  0 <= idx < size_of spatial ->
  exists center, center_of_index (c :: spatial) vs ve idx = Ok center.
Proof.
  intros Hc Lvs Lve Hidx. unfold center_of_index.
  destruct (np_unravel_index_ok idx (c :: spatial)) as (co & -> & Lco).
  { change (size_of (c :: spatial)) with (Z.of_nat c * size_of spatial).
    pose proof (size_of_nonneg spatial). nia. }
  cbn [rbind].
  destruct (shift_center_ok 0 (tail co) vs ve) as (r & -> & _).
  - destruct co; simpl in *; lia.
  - destruct co; simpl in *; lia.
  - by eexists.
Qed.

Lemma Qltb_true u r : Qltb u r = true <-> (u < r)%Q.
Proof.
  unfold Qltb. rewrite negb_true_iff. split.
  - intros H. apply Qnot_le_lt. intros Hle. apply Qle_bool_iff in Hle. congruence.
  - intros H. destruct (Qle_bool r u) eqn:E; [|done].
    apply Qle_bool_iff in E. exfalso. by apply (Qlt_not_le u r).
Qed.

Lemma draw_index_ok fg bg ratio g :
  random_source rand randint ->
  (fg <> [] \/ (ratio <= 0)%Q) -> (bg <> [] \/ (1 <= ratio)%Q) ->
  exists idx,
    (draw_index rand randint fg bg ratio g).1 = Ok idx /\
    drawn_from fg bg ratio idx.
Proof.
  intros [Hrand Hrandint] Hfg Hbg. unfold draw_index.
  specialize (Hrand g). destruct (rand g) as [u g1]. cbn [fst] in Hrand.
  destruct Hrand as [Hu0 Hu1].
  set (used := if Qltb u ratio then fg else bg).
  assert (used <> []) as Hne.
  { subst used. destruct (Qltb u ratio) eqn:E.
    - apply Qltb_true in E. destruct Hfg as [?|Hr]; [done|].
      exfalso. apply (Qlt_not_le u ratio E). by apply (Qle_trans _ 0).
    - destruct Hbg as [?|Hr]; [done|]. exfalso.
      assert (u < ratio)%Q as Hlt by (by apply (Qlt_le_trans _ 1)).
      apply Qltb_true in Hlt. congruence. }
  assert (0 < Z.of_nat (length used)) as Hlen by (destruct used; [done|cbn; lia]).
  destruct (Z.leb_spec (Z.of_nat (length used)) 0); [lia|].
  specialize (Hrandint (Z.of_nat (length used)) g1 Hlen).
  destruct (randint (Z.of_nat (length used)) g1) as [k g2]. cbn [fst] in Hrandint.
  unfold norm_index. destruct (Z.ltb_spec k 0); [lia|].
  destruct (lookup_lt_is_Some_2 used (Z.to_nat k) ltac:(lia)) as [idx Hidx].
  rewrite Hidx. destruct (Z.leb_spec 0 k); [|lia]. cbn [fst].
  exists idx. split; [done|].
  assert (idx ∈ used) as Hin by (apply list_elem_of_lookup; eauto).
  subst used. unfold drawn_from. destruct (Qltb u ratio) eqn:E.
  - apply Qltb_true in E. split; [by left|]. split; [done|].
    intros Hr. exfalso. apply (Qlt_not_le u ratio E). by apply (Qle_trans _ 0).
  - split; [by right|]. split; [|done]. intros Hr. exfalso.
    assert (u < ratio)%Q as Hlt by (by apply (Qlt_le_trans _ 1)).
    apply Qltb_true in Hlt. congruence.
Qed.

Lemma draw_centers_ok n c spatial vs ve fg bg ratio g :
  random_source rand randint ->
  (0 < c)%nat -> length vs = length spatial -> length ve = length spatial ->
  Forall (fun j => 0 <= j < size_of spatial) fg ->
  Forall (fun j => 0 <= j < size_of spatial) bg ->
  (fg <> [] \/ (ratio <= 0)%Q) -> (bg <> [] \/ (1 <= ratio)%Q) ->
  exists idxs centers,
    (draw_centers rand randint n (c :: spatial) vs ve fg bg ratio g).1 = Ok centers /\
    length idxs = n /\
    rmapM (center_of_index (c :: spatial) vs ve) idxs = Ok centers /\
    Forall (drawn_from fg bg ratio) idxs.
Proof.
  intros Hsrc Hc Lvs Lve Ffg Fbg Hfg Hbg. revert g.
  induction n as [|n IH]; intros g.
  { exists [], []. by repeat split. }
  cbn [draw_centers].
  destruct (draw_index_ok fg bg ratio g Hsrc Hfg Hbg) as (idx & Hd & Hfrom).
  destruct (draw_index rand randint fg bg ratio g) as [r g1]. cbn [fst] in Hd.
  subst r.
  assert (0 <= idx < size_of spatial) as Hidx.
  { destruct Hfrom as [[Hin|Hin] _].
    - apply list_elem_of_lookup in Hin as [i Hi].
      by apply (Forall_lookup_1 _ _ _ _ Ffg Hi).
    - apply list_elem_of_lookup in Hin as [i Hi].
      by apply (Forall_lookup_1 _ _ _ _ Fbg Hi). }
  destruct (center_of_index_ok c spatial vs ve idx Hc Lvs Lve Hidx) as [center Hcen].
  rewrite Hcen.
  destruct (IH g1) as (idxs & centers & Hrest & Hlen & Hmap & Hall).
  destruct (draw_centers rand randint n (c :: spatial) vs ve fg bg ratio g1)
    as [r g2]. cbn [fst] in Hrest. subst r. cbn [fst].
  exists (idx :: idxs), (center :: centers). split; [done|].
  split; [cbn; by rewrite Hlen|]. split; [|by constructor].
  cbn [rmapM]. rewrite Hcen. cbn [rbind]. by rewrite Hmap.
Qed.

Lemma balance_cases fg bg pos_ratio :
  (fg = [] /\ bg = [] /\
   balance fg bg pos_ratio = Raise (ValueError "no sampling location available.")) \/
  (fg = [] /\ bg <> [] /\
   balance fg bg pos_ratio = Ok (0%Q, [UnbalancedWarning (length fg) (length bg)])) \/
  (fg <> [] /\ bg = [] /\
   balance fg bg pos_ratio = Ok (1%Q, [UnbalancedWarning (length fg) (length bg)])) \/
  (fg <> [] /\ bg <> [] /\ balance fg bg pos_ratio = Ok (pos_ratio, [])).
Proof.
  unfold balance. destruct fg as [|x fg], bg as [|y bg]; cbn.
  - by left.
  - right; left. by repeat split.
  - right; right; left. by repeat split.
  - right; right; right. by repeat split.
Qed.

(** C3. On a label that fills its shape and has at least one channel, with
    an image (if any) of the same spatial shape, a size that passes the two
    assertions and a random source that keeps numpy's contract,
    [generate_pos_neg_label_crop_centers] raises exactly when the
    foreground and the background index sets are both empty (the error is
    the [ValueError] of line 208); when exactly one of them is empty it
    returns normally, has issued one warning, the ratio in force is 1 if the
    background is empty and 0 if the foreground is, and every centre comes
    from a flat index of the set that is not empty. *)
Theorem crop_centers_raise_iff_both_empty
    (label : ndarray V) size num_samples pos_ratio (image : option (ndarray W))
    thr g c spatial vs ve :
  random_source rand randint ->
  wf label -> shape label = c :: spatial -> (0 < c)%nat ->
  image_fits spatial image ->
  valid_range spatial size = Ok (vs, ve) ->
  exists fg bg,
    fg_bg_indicies truth above label image thr = Ok (fg, bg) /\
    let out := generate_pos_neg_label_crop_centers truth above rand randint
                 label size num_samples pos_ratio image thr g in
    ((exists e, returned out = Raise e) <-> fg = [] /\ bg = []) /\
    (fg = [] /\ bg = [] ->
       returned out = Raise (ValueError "no sampling location available.")) /\
    (exactly_one_empty fg bg ->
       let ratio := if decide (bg = []) then 1%Q else 0%Q in
       balance fg bg pos_ratio
       = Ok (ratio, [UnbalancedWarning (length fg) (length bg)]) /\
       warned out = [UnbalancedWarning (length fg) (length bg)] /\
       exists idxs centers,
         returned out = Ok centers /\
         length idxs = Z.to_nat num_samples /\
         Forall (fun idx => idx ∈ (if decide (bg = []) then fg else bg)) idxs /\
         rmapM (center_of_index (shape label) vs ve) idxs = Ok centers).
Proof.
  intros Hsrc Hwf Hs Hc Himg Hvr.
  destruct (fg_bg_indicies_ok label image thr c spatial Hwf Hs Himg)
    as (fg & bg & Hfb & Ffg & Fbg).
  exists fg, bg. split; [done|]. cbv zeta.
  destruct (valid_range_lengths _ _ _ _ Hvr) as (_ & Lvs & Lve).
  unfold generate_pos_neg_label_crop_centers.
  rewrite Hs. cbn [tail]. rewrite Hvr, Hfb.
  assert (forall ratio,
    (fg <> [] \/ (ratio <= 0)%Q) -> (bg <> [] \/ (1 <= ratio)%Q) ->
    exists idxs centers g',
      draw_centers rand randint (Z.to_nat num_samples) (c :: spatial) vs ve
        fg bg ratio g = (Ok centers, g') /\
      length idxs = Z.to_nat num_samples /\
      rmapM (center_of_index (c :: spatial) vs ve) idxs = Ok centers /\
      Forall (drawn_from fg bg ratio) idxs) as Hdraw.
  { intros ratio H1 H2.
    destruct (draw_centers_ok (Z.to_nat num_samples) c spatial vs ve fg bg ratio g
                Hsrc Hc Lvs Lve Ffg Fbg H1 H2) as (idxs & centers & Hd & Hrest).
    destruct (draw_centers _ _ _ _ _ _ _ _ _ _) as [r g']. cbn [fst] in Hd. subst r.
    by exists idxs, centers, g'. }
  destruct (balance_cases fg bg pos_ratio)
    as [(Efg & Ebg & ->)|[(Efg & Ebg & ->)|[(Efg & Ebg & ->)|(Efg & Ebg & ->)]]].
  - (* both empty *)
    cbn [returned warned]. split; [split; [done|intros _; eauto]|].
    split; [done|]. intros [[_ ?]|[? _]]; done.
  - (* no foreground *)
    destruct (Hdraw 0%Q) as (idxs & centers & g' & -> & Hlen & Hmap & Hall);
      [right; apply Qle_refl|by left|].
    cbn [returned warned]. split; [split; [intros [e ?]; done|intros [_ ?]; done]|].
    split; [intros [_ ?]; done|]. intros _. cbv zeta.
    destruct (decide (bg = [])) as [?|_]; [done|]. split; [done|]. split; [done|].
    exists idxs, centers. split; [done|]. split; [done|]. split; [|done].
    eapply Forall_weaken; [exact Hall|]. intros idx (_ & _ & H). apply H, Qle_refl.
  - (* no background *)
    destruct (Hdraw 1%Q) as (idxs & centers & g' & -> & Hlen & Hmap & Hall);
      [by left|right; apply Qle_refl|].
    cbn [returned warned]. split; [split; [intros [e ?]; done|intros [? _]; done]|].
    split; [intros [? _]; done|]. intros _. cbv zeta.
    destruct (decide (bg = [])) as [_|?]; [|done]. split; [done|]. split; [done|].
    exists idxs, centers. split; [done|]. split; [done|]. split; [|done].
    eapply Forall_weaken; [exact Hall|]. intros idx (_ & H & _). apply H, Qle_refl.
  - (* both sets inhabited *)
    destruct (Hdraw pos_ratio) as (idxs & centers & g' & -> & Hlen & Hmap & Hall);
      [by left|by left|].
    cbn [returned warned]. split; [split; [intros [e ?]; done|intros [? _]; done]|].
    split; [intros [? _]; done|]. intros [[? _]|[_ ?]]; done.
Qed.

End SamplerFacts.

Lemma counter_random_source : random_source counter_rand counter_randint.
Proof.
  split.
  - intros g. unfold counter_rand. cbn [fst]. unfold Qle, Qlt. cbn.
    pose proof (Z.mod_pos_bound g 10 ltac:(lia)). lia.
  - intros n g Hn. unfold counter_randint. cbn [fst].
    by apply Z.mod_pos_bound.
Qed.

Lemma crop_centers_raise_iff_both_empty_witness :
  exists fg bg,
    fg_bg_indicies nonzero Z.gtb label_blank None 0 = Ok (fg, bg) /\
    let out := generate_pos_neg_label_crop_centers nonzero Z.gtb
                 counter_rand counter_randint label_blank [1] 3 (7 # 10)%Q None 0 0 in
    ((exists e, returned out = Raise e) <-> fg = [] /\ bg = []) /\
    (fg = [] /\ bg = [] ->
       returned out = Raise (ValueError "no sampling location available.")) /\
    (exactly_one_empty fg bg ->
       let ratio := if decide (bg = []) then 1%Q else 0%Q in
       balance fg bg (7 # 10)%Q
       = Ok (ratio, [UnbalancedWarning (length fg) (length bg)]) /\
       warned out = [UnbalancedWarning (length fg) (length bg)] /\
       exists idxs centers,
         returned out = Ok centers /\
         length idxs = Z.to_nat 3 /\
         Forall (fun idx => idx ∈ (if decide (bg = []) then fg else bg)) idxs /\
         rmapM (center_of_index (shape label_blank) [0] [3]) idxs = Ok centers).
Proof.
  apply (crop_centers_raise_iff_both_empty nonzero Z.gtb counter_rand
           counter_randint label_blank [1] 3 (7 # 10)%Q None 0 0
           1%nat [3%nat] [0] [3]).
  - exact counter_random_source.
  - unfold wf. simpl. repeat (split || constructor).
  - reflexivity.
  - lia.
  - exact I.
  - reflexivity.
Defined.

(** *** Centres when [valid_end] fits in 16 bits *)

Lemma shift_coord_range c s e : s < e -> s <= shift_coord c s e < e.
Proof.
  intros H. unfold shift_coord.
  destruct (Z.ltb_spec c s), (Z.leb_spec e c); lia.
Qed.

Lemma shift_center_range i center vs ve r :
  Forall2 Z.lt vs ve -> shift_center i center vs ve = Ok r ->
  forall k x, r !! k = Some x ->
    exists s e, vs !! (i + k)%nat = Some s /\ ve !! (i + k)%nat = Some e /\
                s <= x < e.
Proof.
  intros Hlt. revert i r. induction center as [|c center IH]; intros i r H k x Hk.
  { injection H as <-. by rewrite lookup_nil in Hk. }
  cbn [shift_center] in H.
  destruct (vs !! i) as [s|] eqn:Es; [|done].
  destruct (ve !! i) as [e|] eqn:Ee; [|done].
  destruct (shift_center (S i) center vs ve) as [r'|] eqn:Er; [|done].
  injection H as <-. destruct k as [|k].
  - injection Hk as <-. exists s, e. replace (i + 0)%nat with i by lia.
    split; [done|]. split; [done|]. apply shift_coord_range.
    by apply (Forall2_lookup_lr _ _ _ _ _ _ Hlt Es Ee).
  - replace (i + S k)%nat with (S i + k)%nat by lia. by apply (IH (S i) r').
Qed.

(** Under the assertions, and when the bound fits in 16 bits, the valid
    range is not empty on any axis and is the one the comments describe. *)
Lemma valid_range_ordered max_size size vs ve :
  valid_range max_size size = Ok (vs, ve) ->
  Forall2 (fun m s => Z.of_nat m + 1 - s `div` 2 < 65536) max_size size ->
  Forall2 Z.lt vs ve /\
  vs = (fun s => s `div` 2) <$> size /\
  ve = zip_with (fun m s => Z.quot (2 * (Z.of_nat m + 1) - s) 2) max_size size.
Proof.
  unfold valid_range.
  destruct (Nat.eqb_spec (length max_size) (length size)) as [E|]; [|done].
  cbn [negb].
  destruct (forallb _ _) eqn:Hall; [|done]. cbn [negb].
  intros [= <- <-] Hfit. clear E.
  induction Hfit as [|m s max_size size Hms _ IH]; [done|].
  cbn [zip_with forallb] in Hall. apply andb_true_iff in Hall as [Hle Hall].
  destruct (IH Hall) as (IH1 & IH2 & IH3).
  cbn [fmap list_fmap zip_with].
  assert (0 <= Z.of_nat m - s) as Hge by (by apply Z.leb_le).
  assert (valid_end_cast (Z.of_nat m) s = Z.quot (2 * (Z.of_nat m + 1) - s) 2) as Ec.
  { unfold valid_end_cast, to_uint16. apply Z.mod_small.
    rewrite Z.quot_div_nonneg by lia. div_lia. }
  assert (s `div` 2 < Z.quot (2 * (Z.of_nat m + 1) - s) 2) as Hlt.
  { rewrite Z.quot_div_nonneg by lia. div_lia. }
  assert (bump_end (s `div` 2) (valid_end_cast (Z.of_nat m) s)
          = Z.quot (2 * (Z.of_nat m + 1) - s) 2) as Eb.
  { unfold bump_end. rewrite Ec. destruct (Z.eqb_spec (s `div` 2)
      (Z.quot (2 * (Z.of_nat m + 1) - s) 2)); [lia|done]. }
  rewrite Eb. split; [constructor; [done|exact IH1]|].
  split; [done|]. f_equal. exact IH3.
Qed.

Section SamplerRange.
Context {V W G : Type}.
Context (truth : V -> bool) (above : W -> W -> bool).
Context (rand : G -> Q * G) (randint : Z -> G -> Z * G).

Lemma center_of_index_range label_shape vs ve idx center :
  Forall2 Z.lt vs ve -> center_of_index label_shape vs ve idx = Ok center ->
  center_in_range vs ve center.
Proof.
  intros Hlt H. unfold center_of_index in H.
  destruct (np_unravel_index idx label_shape) as [co|]; [|done].
  cbn [rbind] in H. intros k x Hk.
  by apply (shift_center_range 0 (tail co) vs ve center Hlt H k x).
Qed.

Lemma draw_centers_range n label_shape vs ve fg bg ratio g centers :
  Forall2 Z.lt vs ve ->
  (draw_centers rand randint n label_shape vs ve fg bg ratio g).1 = Ok centers ->
  Forall (center_in_range vs ve) centers.
Proof.
  intros Hlt. revert g centers. induction n as [|n IH]; intros g centers H.
  { injection H as <-. constructor. }
  cbn [draw_centers] in H.
  destruct (draw_index rand randint fg bg ratio g) as [[idx|e] g1]; [|done].
  destruct (center_of_index label_shape vs ve idx) as [center|e] eqn:Ec; [|done].
  specialize (IH g1).
  destruct (draw_centers rand randint n label_shape vs ve fg bg ratio g1)
    as [[rest|e] g2]; [|done].
  injection H as <-. constructor.
  - by apply (center_of_index_range label_shape vs ve idx).
  - by apply IH.
Qed.

(** The bounds of C2 hold whenever [valid_end] fits in 16 bits: every
    centre returned has [valid_start[i] <= c[i] < valid_end[i]] on every
    axis. *)
Lemma crop_centers_in_valid_range
    (label : ndarray V) size num_samples pos_ratio (image : option (ndarray W))
    thr g vs ve centers :
  valid_range (tail (shape label)) size = Ok (vs, ve) ->
  Forall2 (fun m s => Z.of_nat m + 1 - s `div` 2 < 65536) (tail (shape label)) size ->
  returned (generate_pos_neg_label_crop_centers truth above rand randint
              label size num_samples pos_ratio image thr g) = Ok centers ->
  Forall (center_in_range vs ve) centers.
Proof.
  intros Hvr Hfit. destruct (valid_range_ordered _ _ _ _ Hvr Hfit) as (Hlt & _ & _).
  unfold generate_pos_neg_label_crop_centers. rewrite Hvr.
  destruct (fg_bg_indicies truth above label image thr) as [[fg bg]|]; [|done].
  destruct (balance fg bg pos_ratio) as [[ratio ws]|]; [|done].
  destruct (draw_centers _ _ _ _ _ _ _ _ _ _) as [r g'] eqn:Ed. cbn [returned].
  intros ->.
  apply (draw_centers_range (Z.to_nat num_samples) (shape label) vs ve fg bg ratio g);
    [done|]. by rewrite Ed.
Qed.

End SamplerRange.

(** ** Affine builders *)

(** With every angle counting as 0 each elementary rotation is the
    identity, and so is their product. *)
Example create_rotate_zero_angles :
  create_rotate (H := Z_scalar) 3 (Many [0; 0; 0])
  = Ok (Some (np_eye (H := Z_scalar) 4)).
Proof. vm_compute. reflexivity. Qed.

Example create_translate_example :
  create_translate (H := Z_scalar) 2 (Many [5; 7])
  = Ok (np_array2 [[1; 0; 5]; [0; 1; 7]; [0; 0; 1]]).
Proof. vm_compute. reflexivity. Qed.

Example create_scale_example :
  create_scale (H := Z_scalar) 3 (One 2)
  = np_array2 [[2; 0; 0; 0]; [0; 1; 0; 0]; [0; 0; 1; 0]; [0; 0; 0; 1]].
Proof. vm_compute. reflexivity. Qed.

Section AffineFacts.
Context {T : Type} `{Scalar T}.

(** *** to_affine_nd *)

Lemma to_affine_nd_2_3_entries (a b c d e f g h i : T) :
  (m <- to_affine_nd (RInt 2) (np_array2 [[a; b; c]; [d; e; f]; [g; h; i]]) ;;
   to_affine_nd (RInt 3) m)
  = Ok (np_array2 [[a; b; fzero; c]; [d; e; fzero; f];
                   [fzero; fzero; fone; fzero]; [fzero; fzero; fzero; fone]]).
Proof. vm_compute. reflexivity. Qed.

Lemma has_shape_vector k (x : nest T) :
  has_shape [k] x -> exists l, x = Node (Leaf <$> l) /\ length l = k.
Proof.
  intros Hx. apply has_shape_cons_inv in Hx as (l & -> & Hl & Fl). subst k.
  induction Fl as [|y l Hy _ IH].
  - by exists [].
  - apply has_shape_nil_inv in Hy as [a ->]. destruct IH as (l' & E & Hl').
    injection E as ->. exists (a :: l'). split; [done|]. cbn.
    by rewrite !length_fmap.
Qed.

Lemma has_shape_matrix n k (x : nest T) :
  has_shape [n; k] x ->
  exists rows, x = Node ((fun r => Node (Leaf <$> r)) <$> rows) /\
               length rows = n /\ Forall (fun r => length r = k) rows.
Proof.
  intros Hx. apply has_shape_cons_inv in Hx as (l & -> & Hl & Fl). subst n.
  induction Fl as [|y l Hy _ IH].
  - by exists [].
  - apply has_shape_vector in Hy as (r & -> & Hr). destruct IH as (rows & E & Hl' & F).
    injection E as ->. exists (r :: rows). split; [done|]. split.
    + cbn. by rewrite !length_fmap.
    + by constructor.
Qed.

Lemma array_3x3 (m : ndarray T) :
  wf m -> shape m = [3; 3]%nat ->
  exists a b c d e f g h i, m = np_array2 [[a; b; c]; [d; e; f]; [g; h; i]].
Proof.
  destruct m as [s x]. unfold wf. cbn [shape data]. intros Hx ->.
  apply has_shape_matrix in Hx as (rows & -> & Hl & F).
  destruct rows as [|r1 [|r2 [|r3 [|]]]]; try done.
  inversion_clear F as [|? ? L1 F1]. inversion_clear F1 as [|? ? L2 F2].
  inversion_clear F2 as [|? ? L3 _].
  destruct r1 as [|a [|b [|c [|]]]]; try done.
  destruct r2 as [|d [|e [|f [|]]]]; try done.
  destruct r3 as [|g [|h [|i [|]]]]; try done.
  by exists a, b, c, d, e, f, g, h, i.
Qed.

(** C8. For a 3 x 3 matrix [m], [to_affine_nd(3, to_affine_nd(2, m))] is a
    4 x 4 matrix with the top-left 2 x 2 block of [m], the first two entries
    of the last column of [m] in its last column, and the third row and
    the third column of the identity (so a zero translation on the third
    axis). *)
Theorem to_affine_nd_2_then_3 (m : ndarray T) :
  wf m -> shape m = [3; 3]%nat ->
  exists n,
    (m2 <- to_affine_nd (RInt 2) m ;; to_affine_nd (RInt 3) m2) = Ok n /\
    shape n = [4; 4]%nat /\
    (forall i j, (i < 2)%nat -> (j < 2)%nat ->
       nest_at [i; j] (data n) = nest_at [i; j] (data m)) /\
    (forall i, (i < 2)%nat ->
       nest_at [i; 3%nat] (data n) = nest_at [i; 2%nat] (data m)) /\
    (forall j, (j < 4)%nat ->
       nest_at [2%nat; j] (data n) = Some (if decide (j = 2%nat) then fone else fzero)) /\
    (forall i, (i < 4)%nat ->
       nest_at [i; 2%nat] (data n) = Some (if decide (i = 2%nat) then fone else fzero)).
Proof.
  intros Hwf Hs.
  destruct (array_3x3 m Hwf Hs) as (a & b & c & d & e & f & g & h & i & ->).
  eexists. split; [apply to_affine_nd_2_3_entries|]. split; [done|].
  split; [|split; [|split]].
  - intros [|[|?]] [|[|?]] ? ?; try lia; reflexivity.
  - intros [|[|?]] ?; try lia; reflexivity.
  - intros [|[|[|[|?]]]] ?; try lia; reflexivity.
  - intros [|[|[|[|?]]]] ?; try lia; reflexivity.
Qed.

Lemma leaf_row_has_shape (r : list T) : has_shape [length r] (Node (Leaf <$> r)).
Proof.
  cbn. split; [by rewrite length_fmap|]. apply Forall_fmap.
  by apply Forall_true.
Qed.

Lemma np_array2_wf (rows : list (list T)) k :
  rows <> [] -> Forall (fun r => length r = k) rows ->
  wf (np_array2 rows) /\ shape (np_array2 rows) = [length rows; k].
Proof.
  intros Hne F. unfold wf, np_array2. cbn [shape data].
  assert (length (default [] (head rows)) = k) as ->.
  { destruct rows as [|r rows]; [done|]. by inversion_clear F. }
  split; [|done]. cbn. split; [by rewrite length_fmap|].
  apply Forall_fmap. apply (Forall_weaken _ _ _ F).
  intros r <-. apply leaf_row_has_shape.
Qed.

(** *** create_rotate *)

Lemma create_rotate_3d_1 (a : T) :
  create_rotate 3 (Many [a]) = Ok (Some (rotate_axis1 a)).
Proof. reflexivity. Qed.

Lemma create_rotate_3d_2 (a b : T) :
  create_rotate 3 (Many [a; b])
  = (m <- np_matmul (rotate_axis1 a) (rotate_axis2 b) ;; Ok (Some m)).
Proof. reflexivity. Qed.

Lemma create_rotate_3d_3 (a b c : T) rest :
  create_rotate 3 (Many (a :: b :: c :: rest))
  = (m <- np_matmul (rotate_axis1 a) (rotate_axis2 b) ;;
     m' <- np_matmul m (rotate_axis3 c) ;; Ok (Some m')).
Proof.
  unfold create_rotate, matmul_value. cbn -[np_matmul].
  destruct (np_matmul (rotate_axis1 a) (rotate_axis2 b)) as [m|e]; [|done].
  cbn [rbind]. by destruct (np_matmul m (rotate_axis3 c)).
Qed.

Lemma np_matmul_4x4
    (a00 a01 a02 a03 a10 a11 a12 a13 a20 a21 a22 a23 a30 a31 a32 a33 : T)
    (b00 b01 b02 b03 b10 b11 b12 b13 b20 b21 b22 b23 b30 b31 b32 b33 : T) :
  let a := [[a00; a01; a02; a03]; [a10; a11; a12; a13];
            [a20; a21; a22; a23]; [a30; a31; a32; a33]] in
  let b := [[b00; b01; b02; b03]; [b10; b11; b12; b13];
            [b20; b21; b22; b23]; [b30; b31; b32; b33]] in
  np_matmul (np_array2 a) (np_array2 b) = Ok (np_array2 (mat_mul a b 4)).
Proof. reflexivity. Qed.


Section Laws.
Context `{!ScalarLaws T}.

Lemma np_matmul_eye_4
    (a00 a01 a02 a03 a10 a11 a12 a13 a20 a21 a22 a23 a30 a31 a32 a33 : T) :
  let a := [[a00; a01; a02; a03]; [a10; a11; a12; a13];
            [a20; a21; a22; a23]; [a30; a31; a32; a33]] in
  np_matmul (np_array2 a) (np_eye 4) = Ok (np_array2 a).
Proof.
  cbn. rewrite decide_True by done.
  by rewrite ?fmul_1_r, ?fmul_0_r, ?fadd_0_l, ?fadd_0_r.
Qed.

(** With one, two or three angles the three-dimensional branch does what
    the specification says, in exact arithmetic: [create_rotate] returns the
    product of the elementary rotations about axes 1, 2 and 3 in that order,
    a missing trailing rotation contributing the identity; it is also the
    product of only the supplied elementary rotations. *)
Theorem create_rotate_3d_product (radians : list T) :
  (1 <= length radians <= 3)%nat ->
  exists m, create_rotate 3 (Many radians) = Ok (Some m) /\
            rotate3_spec radians = Ok m /\
            supplied_product radians = Ok m.
Proof.
  intros Hlen. destruct radians as [|a [|b [|c [|]]]]; cbn in Hlen; try lia.
  - exists (rotate_axis1 a). split; [done|]. split; [|done].
    unfold rotate3_spec. cbn [lookup list_lookup]. unfold rotate_axis1. cbv zeta.
    rewrite np_matmul_eye_4. cbn [rbind]. by rewrite np_matmul_eye_4.
  - rewrite create_rotate_3d_2. unfold rotate3_spec, supplied_product.
    cbn [lookup list_lookup zip_with fold_left rbind].
    unfold rotate_axis1, rotate_axis2. cbv zeta. rewrite np_matmul_4x4. cbn [rbind].
    eexists. split; [done|]. split; [|done]. cbn [mat_mul fmap list_fmap seq].
    by rewrite np_matmul_eye_4.
  - rewrite create_rotate_3d_3. unfold rotate3_spec, supplied_product.
    cbn [lookup list_lookup zip_with fold_left rbind].
    unfold rotate_axis1, rotate_axis2, rotate_axis3. cbv zeta.
    rewrite np_matmul_4x4. cbn [rbind]. cbn [mat_mul fmap list_fmap seq].
    rewrite np_matmul_4x4. cbn [rbind]. by eexists.
Qed.

Lemma rotate3_spec_nil : rotate3_spec [] = Ok (np_eye 4).
Proof.
  unfold rotate3_spec. cbn. rewrite decide_True by done. cbn.
  rewrite decide_True by done.
  by rewrite ?fmul_1_r, ?fmul_0_r, ?fadd_0_l, ?fadd_0_r.
Qed.

End Laws.

(** *** The bottom row *)

Lemma ravel_leaves (r : list T) : ravel (Node (Leaf <$> r)) = r.
Proof. cbn. induction r as [|x r IH]; [done|]. cbn. by rewrite IH. Qed.

Lemma to_rows_array2 (rows : list (list T)) : to_rows (np_array2 rows) = rows.
Proof.
  unfold to_rows, np_array2. cbn [data].
  induction rows as [|r rows IH]; [done|].
  rewrite !fmap_cons, ravel_leaves. f_equal. exact IH.
Qed.

Lemma affine_form_shape n (a : ndarray T) :
  affine_form n a -> shape a = [S n; S n] /\ wf a.
Proof.
  intros (rows & -> & Hl & F).
  destruct (np_array2_wf (rows ++ [replicate n fzero ++ [fone]]) (S n)) as [Hw Hs].
  - by destruct rows.
  - apply Forall_app. split; [done|]. constructor; [|done].
    rewrite length_app, length_replicate. cbn. lia.
  - split; [|done]. rewrite Hs, length_app, Hl. cbn. f_equal. lia.
Qed.

Lemma affine_form_bottom_row n (a : ndarray T) :
  affine_form n a -> bottom_row a = Some (replicate n fzero ++ [fone]).
Proof.
  intros (rows & -> & _ & _). unfold bottom_row.
  by rewrite to_rows_array2, last_snoc.
Qed.

Lemma affine_form_intro n (rows : list (list T)) :
  length rows = n -> Forall (fun r => length r = S n) rows ->
  affine_form n (np_array2 (rows ++ [replicate n fzero ++ [fone]])).
Proof. intros Hl F. by exists rows. Qed.

End AffineFacts.

Lemma to_affine_nd_2_then_3_witness :
  exists n,
    (m2 <- to_affine_nd (H := Z_scalar) (RInt 2)
             (np_array2 [[1; 2; 3]; [4; 5; 6]; [7; 8; 9]]) ;;
     to_affine_nd (H := Z_scalar) (RInt 3) m2) = Ok n /\
    shape n = [4; 4]%nat /\
    (forall i j, (i < 2)%nat -> (j < 2)%nat ->
       nest_at [i; j] (data n)
       = nest_at [i; j] (data (np_array2 [[1; 2; 3]; [4; 5; 6]; [7; 8; 9]]))) /\
    (forall i, (i < 2)%nat ->
       nest_at [i; 3%nat] (data n)
       = nest_at [i; 2%nat] (data (np_array2 [[1; 2; 3]; [4; 5; 6]; [7; 8; 9]]))) /\
    (forall j, (j < 4)%nat ->
       nest_at [2%nat; j] (data n) = Some (if decide (j = 2%nat) then 1 else 0)) /\
    (forall i, (i < 4)%nat ->
       nest_at [i; 2%nat] (data n) = Some (if decide (i = 2%nat) then 1 else 0)).
Proof.
  apply (to_affine_nd_2_then_3 (H := Z_scalar)
           (np_array2 [[1; 2; 3]; [4; 5; 6]; [7; 8; 9]])).
  - unfold wf. simpl. repeat (split || constructor).
  - reflexivity.
Defined.

Section AffineBottom.
Context {T : Type} `{ScalarLaws T}.

Lemma dot_zeros (c : list T) n :
  fold_left (fun acc p => fadd acc (fmul p.1 p.2)) (zip (replicate n fzero) c) fzero
  = fzero.
Proof.
  revert c. induction n as [|n IH]; intros c; [done|].
  destruct c as [|y c]; [done|]. cbn. rewrite fmul_0_l, fadd_0_l. apply IH.
Qed.

(** The product of the row [0, ..., 0, 1] with a column is the last entry
    of the column. *)
Lemma dot_unit n (c : list T) e :
  length c = n -> dot (replicate n fzero ++ [fone]) (c ++ [e]) = e.
Proof.
  intros Hc. unfold dot.
  rewrite zip_with_app by (by rewrite length_replicate).
  rewrite fold_left_app. fold (zip (replicate n fzero) c). rewrite dot_zeros.
  cbn. by rewrite fmul_1_l, fadd_0_l.
Qed.

Lemma fmap_lookup_seq (l : list T) :
  (fun j => default fzero (l !! j)) <$> seq 0 (length l) = l.
Proof.
  apply list_eq. intros i. rewrite list_lookup_fmap.
  destruct (decide (i < length l)%nat) as [Hi|Hi].
  - rewrite lookup_seq_lt by done. cbn.
    destruct (lookup_lt_is_Some_2 l i Hi) as [x ->]. done.
  - rewrite lookup_seq_ge by lia. cbn. symmetry. apply lookup_ge_None. lia.
Qed.

Lemma mat_mul_bottom n (a' b' : list (list T)) :
  length b' = n ->
  mat_mul (a' ++ [replicate n fzero ++ [fone]])
          (b' ++ [replicate n fzero ++ [fone]]) (S n)
  = mat_mul a' (b' ++ [replicate n fzero ++ [fone]]) (S n)
    ++ [replicate n fzero ++ [fone]].
Proof.
  intros Hb. unfold mat_mul. rewrite fmap_app. f_equal. cbn [fmap list_fmap].
  f_equal. set (e := replicate n fzero ++ [fone]).
  assert (length e = S n) as Le.
  { subst e. rewrite length_app, length_replicate. cbn. lia. }
  etrans; [|apply (fmap_lookup_seq e)]. rewrite Le.
  apply list_fmap_ext. intros _ j _.
  unfold column. rewrite fmap_app. cbn [fmap list_fmap]. subst e.
  apply dot_unit. by rewrite length_fmap.
Qed.

Lemma mat_mul_rows (a b : list (list T)) m :
  length (mat_mul a b m) = length a /\
  Forall (fun r => length r = m) (mat_mul a b m).
Proof.
  unfold mat_mul. split; [by rewrite length_fmap|].
  apply Forall_fmap. apply Forall_true. intros r. cbn.
  by rewrite length_fmap, length_seq.
Qed.

(** The product of two matrices with bottom row [0, ..., 0, 1] has it
    too. *)
Lemma np_matmul_affine n (a b : ndarray T) :
  affine_form n a -> affine_form n b ->
  exists c, np_matmul a b = Ok c /\ affine_form n c.
Proof.
  intros Ha Hb.
  destruct (affine_form_shape n a Ha) as [Sa _].
  destruct (affine_form_shape n b Hb) as [Sb _].
  destruct Ha as (a' & -> & La & Fa). destruct Hb as (b' & -> & Lb & Fb).
  unfold np_matmul. rewrite Sa, Sb. rewrite decide_True by done.
  rewrite !to_rows_array2, (mat_mul_bottom n a' b' Lb).
  set (rows := mat_mul a' (b' ++ [replicate n fzero ++ [fone]]) (S n)).
  destruct (mat_mul_rows a' (b' ++ [replicate n fzero ++ [fone]]) (S n)) as [Lr Fr].
  fold rows in Lr, Fr.
  eexists. split; [done|]. exists rows. split; [|split; [lia|done]].
  unfold np_array2. f_equal. rewrite length_app, Lr, La. cbn [length].
  f_equal; [lia|]. f_equal.
  destruct rows as [|r rows']; cbn.
  - rewrite length_app, length_replicate. cbn. cbn in Lr. lia.
  - by inversion_clear Fr.
Qed.

(** *** The builders *)

Lemma insert_replicate_last {X} n (x y : X) :
  <[n := x]> (replicate (S n) y) = replicate n y ++ [x].
Proof. induction n as [|n IH]; [done|]. cbn. f_equal. exact IH. Qed.

Lemma np_diag_affine (l : list T) :
  affine_form (length l) (np_diag (l ++ [fone])).
Proof.
  unfold np_diag. rewrite imap_app. cbn [imap]. rewrite length_app. cbn [length].
  replace (length l + 1)%nat with (S (length l)) by lia.
  replace (length l + 0)%nat with (length l) by lia.
  rewrite insert_replicate_last.
  apply affine_form_intro; [apply length_imap|].
  apply Forall_lookup. intros i r Hr. rewrite list_lookup_imap in Hr.
  destruct (l !! i) as [x|]; [|done]. injection Hr as <-.
  rewrite length_insert. cbn. by rewrite length_replicate.
Qed.

Lemma create_scale_affine d (factors : floats T) :
  affine_form d (create_scale d factors).
Proof.
  unfold create_scale.
  assert (length (take d (pad_to d fone (ensure_tuple factors))) = d) as E.
  { unfold pad_to. rewrite length_take, length_app, length_replicate. lia. }
  rewrite <- E at 1. apply np_diag_affine.
Qed.

Lemma np_eye_affine d : affine_form d (np_eye (d + 1)).
Proof.
  unfold np_eye. rewrite replicate_add. cbn [replicate].
  rewrite <- (length_replicate d fone) at 1. apply np_diag_affine.
Qed.

(** One assignment [affine[i, d] = x] above the bottom row. *)
Lemma np_setitem_entry d i (x : T) (a : ndarray T) :
  affine_form d a -> (i < d)%nat ->
  exists m, np_setitem a [IInt (Z.of_nat i); IInt (Z.of_nat d)] (NdArray [] (Leaf x))
            = Ok m /\ affine_form d m.
Proof.
  intros Ha Hi. destruct (affine_form_shape d a Ha) as [Sa _].
  destruct Ha as (rows & -> & Lr & Fr).
  unfold np_setitem. rewrite Sa. cbn [index_shape].
  unfold norm_index.
  destruct (Z.ltb_spec (Z.of_nat i) 0); [lia|].
  destruct (Z.ltb_spec (Z.of_nat d) 0); [lia|].
  destruct (Z.leb_spec 0 (Z.of_nat i)); [|lia].
  destruct (Z.ltb_spec (Z.of_nat i) (Z.of_nat (S d))); [|lia].
  destruct (Z.leb_spec 0 (Z.of_nat d)); [|lia].
  destruct (Z.ltb_spec (Z.of_nat d) (Z.of_nat (S d))); [|lia].
  cbn [andb rbind]. unfold broadcast_to. cbn [shape data length Nat.sub
    strip_unit_axes stretch].
  eexists. split; [done|].
  set (e := replicate d fzero ++ [fone]).
  exists (alter (fun r => <[d := x]> r) i rows).
  split; [|split].
  - unfold np_array2. cbn [shape data write].
    rewrite !length_fmap. unfold norm_index.
    destruct (Z.ltb_spec (Z.of_nat i) 0); [lia|]. rewrite Nat2Z.id.
    f_equal.
    + rewrite !length_app, length_alter. cbn [length]. f_equal; [lia|].
      f_equal. destruct rows as [|r rows]; [cbn in Lr; lia|].
      inversion_clear Fr as [|? ? Hr _].
      destruct i; cbn; [by rewrite length_insert|done].
    + f_equal. rewrite <- alter_app_l by lia. symmetry.
      apply (list_fmap_alter (fun r => Node (Leaf <$> r))).
      apply Forall_true. intros r. cbn. f_equal.
      destruct (Z.ltb_spec (Z.of_nat d) 0); [lia|]. rewrite Nat2Z.id.
      rewrite list_fmap_insert, list_insert_alter. done.
  - by rewrite length_alter.
  - apply Forall_lookup. intros j r Hr.
    destruct (decide (i = j)) as [<-|Hne].
    + rewrite list_lookup_alter_eq in Hr.
      destruct (rows !! i) as [r0|] eqn:E0; [|done]. injection Hr as <-.
      rewrite length_insert. by apply (Forall_lookup_1 _ _ _ _ Fr E0).
    + rewrite list_lookup_alter_ne in Hr by done.
      by apply (Forall_lookup_1 _ _ _ _ Fr Hr).
Qed.

Lemma translate_loop_affine d i (shift : list T) (a : ndarray T) :
  affine_form d a -> (i + length shift <= d)%nat ->
  exists m, translate_loop i d shift a = Ok m /\ affine_form d m.
Proof.
  revert i a. induction shift as [|x shift IH]; intros i a Ha Hi.
  { by exists a. }
  cbn [translate_loop length] in *.
  destruct (np_setitem_entry d i x a Ha ltac:(lia)) as (m & -> & Hm).
  cbn [rbind]. apply IH; [done|lia].
Qed.

Lemma create_translate_affine d (shift : floats T) :
  exists m, create_translate d shift = Ok m /\ affine_form d m.
Proof.
  unfold create_translate. apply translate_loop_affine; [apply np_eye_affine|].
  rewrite length_take. lia.
Qed.

Lemma explicit_affine_2 (a b c d e f : T) :
  affine_form 2 (np_array2 [[a; b; c]; [d; e; f]; [fzero; fzero; fone]]).
Proof. exists [[a; b; c]; [d; e; f]]. split; [done|]. split; [done|]. by repeat constructor. Qed.

Lemma explicit_affine_3 (a b c d e f g h i j k l : T) :
  affine_form 3 (np_array2 [[a; b; c; d]; [e; f; g; h]; [i; j; k; l];
                            [fzero; fzero; fzero; fone]]).
Proof.
  exists [[a; b; c; d]; [e; f; g; h]; [i; j; k; l]].
  split; [done|]. split; [done|]. by repeat constructor.
Qed.

Lemma create_shear_affine d (coefs : floats T) m :
  create_shear d coefs = Ok m -> affine_form d m.
Proof.
  unfold create_shear.
  destruct (Nat.eqb_spec d 2) as [->|_].
  { intros [= <-]. apply explicit_affine_2. }
  destruct (Nat.eqb_spec d 3) as [->|_]; [|done].
  intros [= <-]. apply explicit_affine_3.
Qed.

Lemma create_rotate_affine d (radians : floats T) m :
  create_rotate d radians = Ok (Some m) -> affine_form d m.
Proof.
  assert (create_rotate d radians = create_rotate d (Many (ensure_tuple radians)))
    as -> by (by destruct radians).
  destruct (ensure_tuple radians) as [|a l].
  { unfold create_rotate. cbn.
    destruct (Nat.eqb_spec d 2); [by destruct (Nat.eqb_spec d 3)|].
    by destruct (Nat.eqb_spec d 3). }
  unfold create_rotate at 1. cbn [ensure_tuple length Nat.leb].
  destruct (Nat.eqb_spec d 2) as [->|_].
  { intros [= <-]. apply explicit_affine_2. }
  destruct (Nat.eqb_spec d 3) as [->|_]; [|done].
  change (create_rotate 3 (Many (a :: l)) = Ok (Some m) -> affine_form 3 m).
  assert (affine_form 3 (rotate_axis1 a)) as H1 by apply explicit_affine_3.
  destruct l as [|b [|c rest]].
  - rewrite create_rotate_3d_1. by intros [= <-].
  - rewrite create_rotate_3d_2.
    destruct (np_matmul_affine 3 (rotate_axis1 a) (rotate_axis2 b) H1)
      as (p & -> & Hp); [apply explicit_affine_3|].
    by intros [= <-].
  - rewrite create_rotate_3d_3.
    destruct (np_matmul_affine 3 (rotate_axis1 a) (rotate_axis2 b) H1)
      as (p & -> & Hp); [apply explicit_affine_3|]. cbn [rbind].
    destruct (np_matmul_affine 3 p (rotate_axis3 c) Hp)
      as (q & -> & Hq); [apply explicit_affine_3|].
    by intros [= <-].
Qed.

Lemma built_affine_form (m : ndarray T) : built m -> exists n, affine_form n m.
Proof.
  induction 1 as [d radians m Hm|d coefs m Hm|d factors|d shift m Hm
                  |a b m _ [na Ha] _ [nb Hb] Hm].
  - exists d. by apply (create_rotate_affine d radians).
  - exists d. by apply (create_shear_affine d coefs).
  - exists d. apply create_scale_affine.
  - exists d. destruct (create_translate_affine d shift) as (m' & E & Hm').
    rewrite E in Hm. by injection Hm as <-.
  - destruct (affine_form_shape na a Ha) as [Sa _].
    destruct (affine_form_shape nb b Hb) as [Sb _].
    assert (na = nb) as ->.
    { unfold np_matmul in Hm. rewrite Sa, Sb in Hm.
      destruct (decide (S na = S nb)); [lia|done]. }
    exists nb. destruct (np_matmul_affine nb a b Ha Hb) as (c & E & Hc).
    rewrite E in Hm. by injection Hm as <-.
Qed.

(** In exact arithmetic every matrix returned by [create_rotate],
    [create_shear], [create_scale] or [create_translate], and every product
    of such matrices, is square and has the bottom row [0, ..., 0, 1]. *)
Theorem built_bottom_row (m : ndarray T) :
  built m ->
  exists n, shape m = [S n; S n] /\
            bottom_row m = Some (replicate n fzero ++ [fone]).
Proof.
  intros Hm. destruct (built_affine_form m Hm) as [n Hn]. exists n. split.
  - by apply affine_form_shape.
  - by apply affine_form_bottom_row.
Qed.

End AffineBottom.

(** *** Real numbers satisfy the laws *)

Lemma R_scalar_laws : ScalarLaws R.
Proof. split; intros x; cbn; ring. Qed.

Lemma Z_scalar_laws : @ScalarLaws Z Z_scalar.
Proof. split; intros x; cbn; lia. Qed.

Lemma create_rotate_3d_product_witness :
  exists m, create_rotate 3 (Many [1%R; 2%R]) = Ok (Some m) /\
            rotate3_spec [1%R; 2%R] = Ok m /\
            supplied_product [1%R; 2%R] = Ok m.
Proof.
  apply (@create_rotate_3d_product R R_scalar R_scalar_laws [1%R; 2%R]).
  simpl. lia.
Defined.

(** C6. For three spatial dimensions and no angle the product of the
    specification exists (it is the identity matrix, every rotation being
    missing), but [create_rotate] returns [None] and no matrix: [affine] is
    assigned under [len(radians) >= 1] only, where the two-dimensional
    branch raises a [ValueError]. *)
Lemma create_rotate_3d_no_angle_returns_none :
  create_rotate (T := R) 3 (Many []) = Ok None /\
  rotate3_spec (T := R) [] = Ok (np_eye 4) /\
  ~ (exists m, create_rotate (T := R) 3 (Many []) = Ok (Some m) /\
               rotate3_spec (T := R) [] = Ok m).
Proof.
  split; [reflexivity|]. split.
  - apply (@rotate3_spec_nil R R_scalar R_scalar_laws).
  - intros (m & Hm & _). discriminate Hm.
Qed.


Lemma built_bottom_row_witness :
  exists n, shape (create_scale (T := R) 2 (One 3%R)) = [S n; S n] /\
            bottom_row (create_scale (T := R) 2 (One 3%R))
            = Some (replicate n 0%R ++ [1%R]).
Proof.
  apply (@built_bottom_row R R_scalar R_scalar_laws
           (create_scale (T := R) 2 (One 3%R))).
  apply built_scale.
Defined.

(** *** The bottom row in floating point *)

Section FiniteBottom.
Context {T : Type} `{Scalar T} (fin : T -> bool) `{!FiniteLaws fin}.












End FiniteBottom.







(** *** Rotations over the real numbers *)









(** ** ensure_tuple_size *)

Lemma tuple_mul_zero n : tuple_mul [0] n = replicate (Z.to_nat n) 0.
Proof.
  unfold tuple_mul. induction (Z.to_nat n) as [|k IH]; [done|].
  cbn [replicate concat app]. by rewrite IH.
Qed.

Lemma tuple_slice_upto {X} (t : list X) stop :
  tuple_slice (Slice None (Some stop)) t
  = take (Z.to_nat (adjust_bound (Z.of_nat (length t)) stop)) t.
Proof.
  unfold tuple_slice, slice_indices. cbn [slice_start slice_stop from_option].
  rewrite drop_0. f_equal. lia.
Qed.

Lemma ensure_tuple_size_nonneg tup dim :
  0 <= dim ->
  ensure_tuple_size tup dim
  = take (Z.to_nat dim) (tup ++ replicate (Z.to_nat dim) 0).
Proof.
  intros Hd. unfold ensure_tuple_size.
  rewrite tuple_slice_upto, tuple_mul_zero. f_equal.
  unfold adjust_bound. destruct (Z.ltb_spec dim 0); [lia|].
  rewrite length_app, length_replicate. lia.
Qed.

(** X1. For [dim >= 0] the result of [ensure_tuple_size] has exactly [dim]
    entries; entry [i] is entry [i] of [tup] where [tup] has one, and 0
    beyond the end of [tup]. *)
Theorem ensure_tuple_size_pads_or_cuts tup dim :
  0 <= dim ->
  length (ensure_tuple_size tup dim) = Z.to_nat dim /\
  forall i, (i < Z.to_nat dim)%nat ->
    ensure_tuple_size tup dim !! i = Some (default 0 (tup !! i)).
Proof.
  intros Hd. rewrite ensure_tuple_size_nonneg by done. split.
  - rewrite length_take, length_app, length_replicate. lia.
  - intros i Hi. rewrite lookup_take_lt by done.
    destruct (decide (i < length tup)%nat) as [Hlt|Hge].
    + rewrite lookup_app_l by done.
      destruct (lookup_lt_is_Some_2 tup i Hlt) as [x ->]. done.
    + rewrite lookup_app_r by lia.
      rewrite (lookup_ge_None_2 tup i) by lia. cbn.
      apply lookup_replicate_2. lia.
Qed.

Lemma ensure_tuple_size_pads_or_cuts_witness :
  length (ensure_tuple_size [4; 5] 3) = Z.to_nat 3 /\
  forall i, (i < Z.to_nat 3)%nat ->
    ensure_tuple_size [4; 5] 3 !! i = Some (default 0 ([4; 5] !! i)).
Proof. apply (ensure_tuple_size_pads_or_cuts [4; 5] 3). lia. Defined.

(** X2. Cutting or padding to [dim] and then to a size [dim'] that is not
    larger gives what cutting or padding to [dim'] gives at once; in
    particular a second call with the same size changes nothing. *)
Theorem ensure_tuple_size_twice tup dim dim' :
  0 <= dim' <= dim ->
  ensure_tuple_size (ensure_tuple_size tup dim) dim' = ensure_tuple_size tup dim'.
Proof.
  intros Hd. apply list_eq. intros i.
  destruct (ensure_tuple_size_pads_or_cuts tup dim ltac:(lia)) as [L1 E1].
  destruct (ensure_tuple_size_pads_or_cuts tup dim' ltac:(lia)) as [L2 E2].
  destruct (ensure_tuple_size_pads_or_cuts (ensure_tuple_size tup dim) dim'
              ltac:(lia)) as [L3 E3].
  destruct (decide (i < Z.to_nat dim')%nat) as [Hi|Hi].
  - rewrite E3, E2 by done. rewrite E1 by lia. done.
  - rewrite !lookup_ge_None_2 by lia. done.
Qed.

Lemma ensure_tuple_size_twice_witness :
  ensure_tuple_size (ensure_tuple_size [4; 5] 3) 1 = ensure_tuple_size [4; 5] 1.
Proof. apply (ensure_tuple_size_twice [4; 5] 3 1). lia. Defined.

(** X3. A negative [dim] does not fail and pads nothing: the slice
    [[:dim]] drops the last [-dim] entries of [tup].  The result has
    [len(tup) + dim] entries, or none when [tup] has at most [-dim] of
    them; it never has [dim] entries. *)
Theorem ensure_tuple_size_negative tup dim :
  dim < 0 ->
  ensure_tuple_size tup dim = take (length tup - Z.to_nat (- dim)) tup /\
  Z.of_nat (length (ensure_tuple_size tup dim))
  = Z.max 0 (Z.of_nat (length tup) + dim) /\
  (ensure_tuple_size tup dim = [] <-> Z.of_nat (length tup) <= - dim).
Proof.
  intros Hd.
  assert (ensure_tuple_size tup dim = take (length tup - Z.to_nat (- dim)) tup) as E.
  { unfold ensure_tuple_size.
    rewrite tuple_slice_upto, tuple_mul_zero.
    replace (Z.to_nat dim) with 0%nat by lia. cbn [replicate].
    rewrite app_nil_r. f_equal.
    unfold adjust_bound. destruct (Z.ltb_spec dim 0); lia. }
  split; [done|]. rewrite E. split.
  - rewrite length_take. lia.
  - split.
    + intros Hnil. apply (f_equal length) in Hnil.
      rewrite length_take in Hnil. cbn in Hnil. lia.
    + intros Hle. replace (length tup - Z.to_nat (- dim))%nat with 0%nat by lia.
      done.
Qed.

Lemma ensure_tuple_size_negative_witness :
  ensure_tuple_size [4; 5] (-5) = take (length [4; 5] - Z.to_nat (- -5)) [4; 5] /\
  Z.of_nat (length (ensure_tuple_size [4; 5] (-5)))
  = Z.max 0 (Z.of_nat (length [4; 5]) + -5) /\
  (ensure_tuple_size [4; 5] (-5) = [] <-> Z.of_nat (length [4; 5]) <= - -5).
Proof. apply (ensure_tuple_size_negative [4; 5] (-5)). lia. Defined.

(** ** in_bounds *)

(** X4. A point that is in bounds for a margin is in bounds for every
    smaller margin, and the rectangle it lies in is not degenerate: twice
    the margin is less than each extent. *)
Theorem in_bounds_smaller_margin x y margin maxx maxy :
  in_bounds x y margin maxx maxy = true ->
  2 * margin < maxx /\ 2 * margin < maxy /\
  forall margin', margin' <= margin -> in_bounds x y margin' maxx maxy = true.
Proof.
  unfold in_bounds. rewrite !andb_true_iff, !Z.leb_le, !Z.ltb_lt.
  intros [[H1 H2] [H3 H4]]. split; [lia|]. split; [lia|].
  intros margin' Hm. rewrite !andb_true_iff, !Z.leb_le, !Z.ltb_lt. lia.
Qed.

Lemma in_bounds_smaller_margin_witness :
  2 * 2 < 10 /\ 2 * 2 < 8 /\
  forall margin', margin' <= 2 -> in_bounds 3 5 margin' 10 8 = true.
Proof. apply (in_bounds_smaller_margin 3 5 2 10 8). reflexivity. Defined.

(** ** copypaste_arrays: how much is copied *)

Lemma window_len ss ds sc dc dim :
  0 <= sc <= ss -> 0 <= dc <= ds ->
  slice_len (window ss ds sc dc dim).1 ss
  = np_clip (dim `div` 2) 0 (Z.min sc dc)
    + np_clip (dim `div` 2 + 1) 0 (Z.min (ss - sc) (ds - dc)).
Proof.
  intros Hs Hd. unfold window.
  pose proof (np_clip_bounds (dim `div` 2) (Z.min sc dc) ltac:(lia)) as H1.
  pose proof (np_clip_bounds (dim `div` 2 + 1) (Z.min (ss - sc) (ds - dc))
                ltac:(lia)) as H2.
  generalize dependent (np_clip (dim `div` 2) 0 (Z.min sc dc)).
  generalize dependent (np_clip (dim `div` 2 + 1) 0 (Z.min (ss - sc) (ds - dc))).
  intros d2 H2 d1 H1. cbn [fst snd]. unfold slice_len.
  rewrite slice_indices_explicit by lia. cbn [fst snd]. lia.
Qed.

(** The slices returned for an axis on which the loop computes a window. *)
Lemma copypaste_arrays_axis {A} (h : heap A) src dest a b sc dc dims i n m c e dim :
  h !! src = Some a -> h !! dest = Some b ->
  shape a !! i = Some n -> shape b !! i = Some m ->
  sc !! i = Some c -> dc !! i = Some e -> dims !! i = Some (Some dim) ->
  dim <> 0 ->
  exists r,
    copypaste_arrays src dest sc dc dims h = (Ok r, h) /\
    r.1 !! i = Some (window (Z.of_nat n) (Z.of_nat m) c e dim).1 /\
    r.2 !! i = Some (window (Z.of_nat n) (Z.of_nat m) c e dim).2.
Proof.
  intros Ha Hb Hn Hm Hc He Hdim Hnz.
  eexists. split; [by apply copypaste_arrays_run|].
  destruct (copypaste_loop_entry (shape a) (shape b) sc dc dims i n m Hn Hm)
    as [E1 E2].
  unfold ndim. rewrite E1, E2. unfold axis_window, active.
  rewrite Hc, He, Hdim. cbn [truthy default from_option Datatypes.id].
  destruct (Z.eqb_spec dim 0); [done|]. done.
Qed.

(** X5. On an axis with a positive entry [dim] of [dims] and centres inside
    the arrays, both returned slices select
    [min(dim // 2, sc, dc) + min(dim // 2 + 1, ss - sc, ds - dc)] positions.
    When neither clipping applies this is [dim] for an odd [dim] and
    [dim + 1] for an even one: an even [dim] copies one position more than
    requested. *)
Theorem copypaste_arrays_copied_width {A} (h : heap A) src dest a b sc dc dims
    i n m c e dim :
  h !! src = Some a -> h !! dest = Some b ->
  shape a !! i = Some n -> shape b !! i = Some m ->
  sc !! i = Some c -> dc !! i = Some e -> dims !! i = Some (Some dim) ->
  0 <= c <= Z.of_nat n -> 0 <= e <= Z.of_nat m -> 0 < dim ->
  exists r s d,
    copypaste_arrays src dest sc dc dims h = (Ok r, h) /\
    r.1 !! i = Some s /\ r.2 !! i = Some d /\
    slice_len s (Z.of_nat n) = slice_len d (Z.of_nat m) /\
    slice_len s (Z.of_nat n)
    = Z.min (dim `div` 2) (Z.min c e)
      + Z.min (dim `div` 2 + 1) (Z.min (Z.of_nat n - c) (Z.of_nat m - e)) /\
    (dim `div` 2 <= Z.min c e ->
     dim `div` 2 + 1 <= Z.min (Z.of_nat n - c) (Z.of_nat m - e) ->
     slice_len s (Z.of_nat n) = if Z.even dim then dim + 1 else dim).
Proof.
  intros Ha Hb Hn Hm Hc He Hdim Hcn Hem Hpos.
  destruct (copypaste_arrays_axis h src dest a b sc dc dims i n m c e dim)
    as (r & Hr & E1 & E2); [done..|lia|].
  exists r, (window (Z.of_nat n) (Z.of_nat m) c e dim).1,
    (window (Z.of_nat n) (Z.of_nat m) c e dim).2.
  split; [done|]. split; [done|]. split; [done|].
  destruct (window_fits (Z.of_nat n) (Z.of_nat m) c e dim Hcn Hem) as (_ & _ & Hlen).
  split; [done|].
  rewrite (window_len _ _ _ _ _ Hcn Hem).
  assert (0 <= dim `div` 2) by div_lia.
  assert (np_clip (dim `div` 2) 0 (Z.min c e) = Z.min (dim `div` 2) (Z.min c e))
    as -> by (unfold np_clip; lia).
  assert (np_clip (dim `div` 2 + 1) 0 (Z.min (Z.of_nat n - c) (Z.of_nat m - e))
          = Z.min (dim `div` 2 + 1) (Z.min (Z.of_nat n - c) (Z.of_nat m - e)))
    as -> by (unfold np_clip; lia).
  split; [done|]. intros R1 R2.
  rewrite (Z.min_l _ _ R1), (Z.min_l _ _ R2).
  destruct (Z.even dim) eqn:Ev.
  - apply Z.even_spec in Ev as [k ->]. div_lia.
  - assert (Z.odd dim = true) as Od by (by rewrite <- Z.negb_even, Ev).
    apply Z.odd_spec in Od as [k ->]. div_lia.
Qed.

Lemma copypaste_arrays_copied_width_witness :
  exists r s d,
    copypaste_arrays 0%nat 1%nat [3] [3] [Some 4] [docstring_src; docstring_src]
    = (Ok r, [docstring_src; docstring_src]) /\
    r.1 !! 0%nat = Some s /\ r.2 !! 0%nat = Some d /\
    slice_len s (Z.of_nat 6) = slice_len d (Z.of_nat 6) /\
    slice_len s (Z.of_nat 6)
    = Z.min (4 `div` 2) (Z.min 3 3)
      + Z.min (4 `div` 2 + 1) (Z.min (Z.of_nat 6 - 3) (Z.of_nat 6 - 3)) /\
    (4 `div` 2 <= Z.min 3 3 ->
     4 `div` 2 + 1 <= Z.min (Z.of_nat 6 - 3) (Z.of_nat 6 - 3) ->
     slice_len s (Z.of_nat 6) = if Z.even 4 then 4 + 1 else 4).
Proof.
  apply (copypaste_arrays_copied_width [docstring_src; docstring_src] 0%nat 1%nat
           docstring_src docstring_src [3] [3] [Some 4] 0%nat 6%nat 6%nat 3 3 4);
    try reflexivity; lia.
Defined.

(** X6. A negative entry of [dims] is true, so a window is computed, but
    both clipped halves are 0: with centres inside the arrays both slices
    are empty, at the centres, and nothing would be copied on that axis. *)
Theorem copypaste_arrays_negative_dim {A} (h : heap A) src dest a b sc dc dims
    i n m c e dim :
  h !! src = Some a -> h !! dest = Some b ->
  shape a !! i = Some n -> shape b !! i = Some m ->
  sc !! i = Some c -> dc !! i = Some e -> dims !! i = Some (Some dim) ->
  0 <= c <= Z.of_nat n -> 0 <= e <= Z.of_nat m -> dim < 0 ->
  exists r,
    copypaste_arrays src dest sc dc dims h = (Ok r, h) /\
    r.1 !! i = Some (Slice (Some c) (Some c)) /\
    r.2 !! i = Some (Slice (Some e) (Some e)) /\
    slice_len (Slice (Some c) (Some c)) (Z.of_nat n) = 0 /\
    slice_len (Slice (Some e) (Some e)) (Z.of_nat m) = 0.
Proof.
  intros Ha Hb Hn Hm Hc He Hdim Hcn Hem Hneg.
  destruct (copypaste_arrays_axis h src dest a b sc dc dims i n m c e dim)
    as (r & Hr & E1 & E2); [done..|lia|].
  exists r. split; [done|].
  assert (dim `div` 2 < 0) by div_lia.
  assert (window (Z.of_nat n) (Z.of_nat m) c e dim
          = (Slice (Some c) (Some c), Slice (Some e) (Some e))) as Ew.
  { unfold window.
    assert (np_clip (dim `div` 2) 0 (Z.min c e) = 0) as ->
      by (unfold np_clip; lia).
    assert (np_clip (dim `div` 2 + 1) 0 (Z.min (Z.of_nat n - c) (Z.of_nat m - e)) = 0)
      as -> by (unfold np_clip; lia).
    by rewrite !Z.sub_0_r, !Z.add_0_r. }
  rewrite Ew in E1, E2. split; [done|]. split; [done|].
  unfold slice_len. rewrite !slice_indices_explicit by lia. cbn [fst snd]. lia.
Qed.

Lemma copypaste_arrays_negative_dim_witness :
  exists r,
    copypaste_arrays 0%nat 1%nat [1] [2] [Some (-3)] [vec3; vec5] = (Ok r, [vec3; vec5]) /\
    r.1 !! 0%nat = Some (Slice (Some 1) (Some 1)) /\
    r.2 !! 0%nat = Some (Slice (Some 2) (Some 2)) /\
    slice_len (Slice (Some 1) (Some 1)) (Z.of_nat 3) = 0 /\
    slice_len (Slice (Some 2) (Some 2)) (Z.of_nat 5) = 0.
Proof.
  apply (copypaste_arrays_negative_dim [vec3; vec5] 0%nat 1%nat vec3 vec5
           [1] [2] [Some (-3)] 0%nat 3%nat 5%nat 1 2 (-3));
    try reflexivity; lia.
Defined.

(** ** resize_center: crop and pad in one call *)

Section BoxesRead.
Context {A : Type}.
Implicit Types (x v : nest A).

Lemma index_data_has_shape sls ts los rs x :
  boxed sls ts los rs -> has_shape ts x ->
  has_shape rs (index_data (ISlice <$> sls) x).
Proof.
  intros H. revert x.
  induction H as [|sl sls t ts lo los r rs Hsel _ IH]; intros x Hx; [done|].
  apply has_shape_cons_inv in Hx as (l & -> & Hl & Fl).
  cbn [fmap list_fmap index_data]. rewrite <- Hl in Hsel.
  rewrite (rows_selects sl l lo r Hsel).
  destruct Hsel as [_ Hle]. apply has_shape_cons. split.
  - rewrite length_fmap, length_take, length_drop. lia.
  - apply Forall_fmap. apply Forall_take, Forall_drop.
    apply (Forall_weaken (has_shape ts)); [exact Fl|]. intros y Hy. by apply IH.
Qed.

Lemma nest_at_index_data sls ts los rs x p :
  boxed sls ts los rs -> has_shape ts x -> in_shape p rs ->
  nest_at p (index_data (ISlice <$> sls) x) = nest_at (zip_with Nat.add p los) x.
Proof.
  intros H. revert x p.
  induction H as [|sl sls t ts lo los r rs Hsel _ IH]; intros x p Hx Hp.
  { inversion Hp; subst. done. }
  inversion Hp as [|i ? p' ? Hi Hp']; subst.
  apply has_shape_cons_inv in Hx as (l & -> & Hl & Fl).
  cbn [fmap list_fmap index_data]. rewrite <- Hl in Hsel.
  rewrite (rows_selects sl l lo r Hsel).
  destruct Hsel as [_ Hle]. cbn [zip_with nest_at].
  rewrite list_lookup_fmap, lookup_take_lt, lookup_drop by done.
  replace (lo + i)%nat with (i + lo)%nat by lia.
  destruct (lookup_lt_is_Some_2 l (i + lo)) as [y Hy]; [lia|].
  rewrite Hy. cbn. apply IH; [|done].
  by apply (Forall_lookup_1 _ _ _ _ Fl Hy).
Qed.

Lemma write_has_shape sls ts los rs x v :
  boxed sls ts los rs -> has_shape ts x -> has_shape rs v ->
  has_shape ts (write (ISlice <$> sls) x v).
Proof.
  intros H. revert x v.
  induction H as [|sl sls t ts lo los r rs Hsel _ IH]; intros x v Hx Hv; [done|].
  apply has_shape_cons_inv in Hx as (l & -> & Hl & Fl).
  apply has_shape_cons_inv in Hv as (lv & -> & Hlv & Flv).
  cbn [fmap list_fmap]. rewrite <- Hl in Hsel.
  rewrite (write_selects sl _ l lv lo r Hsel).
  destruct Hsel as [_ Hle]. apply has_shape_cons. split.
  - rewrite !length_app, length_zip_with, !length_take, !length_drop. lia.
  - apply Forall_app. split; [by apply Forall_take|].
    apply Forall_app. split; [|by apply Forall_drop].
    apply Forall_lookup. intros k y Hy.
    apply lookup_zip_with_Some in Hy as (y1 & y2 & -> & H1 & H2).
    apply IH.
    + apply lookup_take_Some in H1 as [H1 _]. rewrite lookup_drop in H1.
      by apply (Forall_lookup_1 _ _ _ _ Fl H1).
    + by apply (Forall_lookup_1 _ _ _ _ Flv H2).
Qed.
End BoxesRead.

Lemma in_box_in_shape p los rs :
  in_box p los rs = true -> in_shape (zip_with Nat.sub p los) rs.
Proof.
  revert los rs. induction p as [|i p IH]; intros los rs Hbox.
  - destruct los, rs; try done. constructor.
  - destruct los as [|lo los], rs as [|k rs]; try done.
    cbn [in_box] in Hbox. apply andb_true_iff in Hbox as [H1 H2].
    apply bool_decide_eq_true in H1. cbn [zip_with].
    constructor; [lia|]. by apply IH.
Qed.

(** One axis of a resize to a positive length: the common part is the
    shorter of the two lengths, centred in the longer one. *)
Lemma resize_axis ss ts i n m :
  ss !! i = Some n -> ts !! i = Some m -> (0 < m)%nat ->
  selects (axis_window i n m (half_shape ss) (half_shape ts) (as_dims ts)).1
          n (Z.to_nat (Z.of_nat n `div` 2 - Z.of_nat m `div` 2)) (n `min` m) /\
  selects (axis_window i n m (half_shape ss) (half_shape ts) (as_dims ts)).2
          m (Z.to_nat (Z.of_nat m `div` 2 - Z.of_nat n `div` 2)) (n `min` m).
Proof.
  intros Hn Hm Hpos. destruct (decide (n <= m)%nat) as [Hle|Hgt].
  - destruct (grow_axis ss ts i n m Hn Hm Hle) as [G1 G2].
    replace (n `min` m)%nat with n by lia.
    replace (Z.to_nat (Z.of_nat n `div` 2 - Z.of_nat m `div` 2)) with 0%nat
      by div_lia.
    done.
  - destruct (shrink_axis ts ss i m n Hm Hn ltac:(lia) Hpos) as [G1 G2].
    replace (n `min` m)%nat with m by lia.
    replace (Z.to_nat (Z.of_nat m `div` 2 - Z.of_nat n `div` 2)) with 0%nat
      by div_lia.
    done.
Qed.

(** The slices computed when resizing from shape [ss] to a shape [ts] of
    positive lengths. *)
Lemma copypaste_boxes_resize ss ts :
  length ss = length ts -> Forall (fun m => (0 < m)%nat) ts ->
  let r := copypaste_loop 0 ss ts (half_shape ss) (half_shape ts) (as_dims ts)
             (replicate (length ss) slice_all, replicate (length ts) slice_all) in
  boxed r.1 ss (center_offsets ts ss) (zip_with Nat.min ss ts) /\
  boxed r.2 ts (center_offsets ss ts) (zip_with Nat.min ss ts).
Proof.
  intros Hlen Hpos r.
  destruct (copypaste_loop_length 0 ss ts (half_shape ss) (half_shape ts)
    (as_dims ts) (replicate (length ss) slice_all, replicate (length ts) slice_all))
    as [L1 L2]. fold r in L1, L2. cbn [fst snd] in L1, L2.
  rewrite length_replicate in L1, L2.
  assert (forall i n m, ss !! i = Some n -> ts !! i = Some m ->
            r.1 !! i = Some (axis_window i n m (half_shape ss) (half_shape ts)
                               (as_dims ts)).1 /\
            r.2 !! i = Some (axis_window i n m (half_shape ss) (half_shape ts)
                               (as_dims ts)).2) as Hr.
  { intros i n m Hn Hm. by apply copypaste_loop_entry. }
  split; apply boxed_intro; try done.
  - unfold center_offsets. rewrite length_zip_with. lia.
  - rewrite length_zip_with. lia.
  - intros i sl n lo k Hsl Hn Hlo Hk.
    destruct (lookup_lt_is_Some_2 ts i) as [m Hm];
      [apply lookup_lt_Some in Hn; lia|].
    rewrite (center_offsets_lookup _ _ _ _ _ Hm Hn) in Hlo. injection Hlo as <-.
    rewrite lookup_zip_with, Hn, Hm in Hk. injection Hk as <-.
    destruct (Hr i n m Hn Hm) as [E _]. rewrite E in Hsl. injection Hsl as <-.
    apply resize_axis; [done..|]. by apply (Forall_lookup_1 _ _ _ _ Hpos Hm).
  - unfold center_offsets. rewrite length_zip_with. lia.
  - rewrite length_zip_with. lia.
  - intros i sl m lo k Hsl Hm Hlo Hk.
    destruct (lookup_lt_is_Some_2 ss i) as [n Hn];
      [apply lookup_lt_Some in Hm; lia|].
    rewrite (center_offsets_lookup _ _ _ _ _ Hn Hm) in Hlo. injection Hlo as <-.
    rewrite lookup_zip_with, Hn, Hm in Hk. injection Hk as <-.
    destruct (Hr i n m Hn Hm) as [_ E]. rewrite E in Hsl. injection Hsl as <-.
    apply resize_axis; [done..|]. by apply (Forall_lookup_1 _ _ _ _ Hpos Hm).
Qed.

(** X7. For a stored array and requested lengths that are all positive, one
    per axis, [resize_center] returns a new array of the requested shape
    that fills it; on every axis the common part has the shorter of the two
    lengths and is centred in both arrays (offsets [n // 2 - m // 2] cut to
    0). Inside the common part the result holds the elements of the
    argument, outside it the fill value: longer axes are cropped and shorter
    ones padded in the same call. *)
Theorem resize_center_crop_and_pad_centred {A} (h : heap A) img a ts fill :
  h !! img = Some a -> wf a ->
  length ts = ndim a -> Forall (fun m => (0 < m)%nat) ts ->
  exists out,
    resize_center img (as_dims ts) fill h = (Ok (length h), h ++ [out]) /\
    shape out = ts /\ wf out /\
    forall p, in_shape p ts ->
      nest_at p (data out)
      = if in_box p (center_offsets (shape a) ts) (zip_with Nat.min (shape a) ts)
        then nest_at (zip_with Nat.add
                        (zip_with Nat.sub p (center_offsets (shape a) ts))
                        (center_offsets ts (shape a)))
               (data a)
        else Some fill.
Proof.
  intros Ha Hwf Hlen Hpos. unfold ndim in Hlen.
  destruct (copypaste_boxes_resize (shape a) ts ltac:(lia) Hpos) as [B1 B2].
  set (r := copypaste_loop 0 (shape a) ts (half_shape (shape a)) (half_shape ts)
              (as_dims ts)
              (replicate (length (shape a)) slice_all,
               replicate (length ts) slice_all)) in *.
  set (rs := zip_with Nat.min (shape a) ts) in *.
  pose proof (index_data_has_shape _ _ _ _ (data a) B1 Hwf) as Hv.
  exists (NdArray ts (write (ISlice <$> r.2) (full_nest ts fill)
                        (index_data (ISlice <$> r.1) (data a)))).
  split.
  { rewrite (resize_center_run h img a ts rs fill Ha).
    - done.
    - apply resolve_dims_keep. intros k d Hk. left.
      pose proof (Forall_lookup_1 _ _ _ _ Hpos Hk). simpl in *. lia.
    - exact (index_shape_boxed _ _ _ _ B1).
    - exact (index_shape_boxed _ _ _ _ B2).
    - exact Hv. }
  cbn [shape data]. split; [done|]. split.
  { unfold wf. cbn [shape data].
    apply (write_has_shape _ ts (center_offsets (shape a) ts) rs);
      [done|apply full_nest_has_shape|done]. }
  intros p Hp.
  rewrite (nest_at_write _ ts (center_offsets (shape a) ts) rs);
    [|done|apply full_nest_has_shape|done|done].
  destruct (in_box p (center_offsets (shape a) ts) rs) eqn:Hbox;
    [|by apply nest_at_full].
  apply (nest_at_index_data _ (shape a) (center_offsets ts (shape a)) rs);
    [done|done|]. by apply in_box_in_shape.
Qed.

Lemma resize_center_crop_and_pad_centred_witness :
  exists out,
    resize_center 0%nat (as_dims [2; 5]%nat) 0 [grid3]
    = (Ok (length [grid3]), [grid3] ++ [out]) /\
    shape out = [2; 5]%nat /\ wf out /\
    forall p, in_shape p [2; 5]%nat ->
      nest_at p (data out)
      = if in_box p (center_offsets (shape grid3) [2; 5]%nat)
             (zip_with Nat.min (shape grid3) [2; 5]%nat)
        then nest_at (zip_with Nat.add
                        (zip_with Nat.sub p (center_offsets (shape grid3) [2; 5]%nat))
                        (center_offsets [2; 5]%nat (shape grid3)))
               (data grid3)
        else Some 0.
Proof.
  apply (resize_center_crop_and_pad_centred [grid3] 0%nat grid3 [2; 5]%nat 0).
  - reflexivity.
  - unfold wf. simpl. split; [reflexivity|]. repeat constructor.
  - reflexivity.
  - repeat constructor.
Defined.

(** ** resize_center: the store and the errors *)

Lemma resize_center_cases {A} (h : heap A) img dims fill :
  (exists e, resize_center img dims fill h = (Raise e, h)) \/
  (exists e d, resize_center img dims fill h = (Raise e, h ++ [d])) \/
  (exists d, resize_center img dims fill h = (Ok (length h), h ++ [d])).
Proof.
  unfold resize_center, bind, lift, alloc, ret, load, store.
  destruct (h !! img) as [a|]; [|left; by eexists].
  destruct (resolve_dims 0 dims (shape a)) as [rd|]; [|left; by eexists].
  destruct (np_full rd fill) as [d|]; [|left; by eexists].
  pose proof (copypaste_arrays_heap (h ++ [d]) img (length h)
                (half_shape (shape a)) (half_shape (shape d)) (Some <$> rd)) as Hh.
  destruct (copypaste_arrays img (length h) (half_shape (shape a))
              (half_shape (shape d)) (Some <$> rd) (h ++ [d])) as [[[s1 s2]|] h2];
    cbn [snd] in Hh; subst h2; [|right; left; by do 2 eexists].
  destruct ((h ++ [d]) !! img) as [a'|];
    [|right; left; by do 2 eexists].
  destruct (np_getitem a' (ISlice <$> s1)) as [v|];
    [|right; left; by do 2 eexists].
  destruct ((h ++ [d]) !! length h) as [d0|];
    [|right; left; by do 2 eexists].
  destruct (np_setitem d0 (ISlice <$> s2) v) as [d'|];
    [|right; left; by do 2 eexists].
  right. right. exists d'.
  rewrite insert_app_r_alt by lia. rewrite Nat.sub_diag. done.
Qed.

(** X8. Whatever the arguments, and whether it returns or raises,
    [resize_center] leaves every array that was in the store as it was: the
    argument is never modified. When it returns, the reference returned is
    new and the store holds exactly one array more. *)
Theorem resize_center_keeps_store {A} (h : heap A) img dims fill :
  take (length h) (resize_center img dims fill h).2 = h /\
  forall r, (resize_center img dims fill h).1 = Ok r ->
    r = length h /\ length (resize_center img dims fill h).2 = S (length h).
Proof.
  destruct (resize_center_cases h img dims fill)
    as [[e ->]|[(e & d & ->)|[d ->]]]; cbn [fst snd].
  - split; [apply firstn_all|done].
  - split; [by rewrite take_app_length|done].
  - split; [by rewrite take_app_length|]. intros r [= <-].
    split; [done|]. rewrite length_app. cbn. lia.
Qed.

Lemma resolve_dims_explicit i dims s :
  (i + length dims <= length s)%nat ->
  exists l, resolve_dims i dims s = Ok l /\
    forall k d, dims !! k = Some (Some d) -> d <> 0 -> l !! k = Some d.
Proof.
  revert i. induction dims as [|x dims IH]; intros i Hi.
  { exists []. split; [done|]. intros k d Hk. by rewrite lookup_nil in Hk. }
  cbn [length] in Hi. cbn [resolve_dims].
  assert (exists y, py_or x (shape_item s i) = Ok y /\
                    forall d, x = Some d -> d <> 0 -> y = d) as (y & -> & Hy).
  { unfold py_or. destruct (truthy x) eqn:Et.
    - eexists. split; [done|]. by intros d ->.
    - destruct (lookup_lt_is_Some_2 s i ltac:(lia)) as [n Hn].
      unfold shape_item. rewrite Hn. eexists. split; [done|].
      intros d -> Hd. unfold truthy in Et.
      destruct (Z.eqb_spec d 0); [done|discriminate]. }
  destruct (IH (S i) ltac:(lia)) as (l & -> & Hl). cbn [rbind].
  exists (y :: l). split; [done|]. intros [|k] d Hk Hd.
  - cbn in Hk. injection Hk as ->. cbn. f_equal. by apply Hy.
  - cbn in *. by apply Hl.
Qed.

(** X9. For a stored array and at most one requested length per axis, a
    negative requested length makes [resize_center] raise the [ValueError]
    of [np.full]; the store is left as it was. *)
Theorem resize_center_negative_dim {A} (h : heap A) img a dims fill i d :
  h !! img = Some a -> (length dims <= ndim a)%nat ->
  dims !! i = Some (Some d) -> d < 0 ->
  resize_center img dims fill h
  = (Raise (ValueError "negative dimensions are not allowed"), h).
Proof.
  intros Ha Hlen Hi Hd.
  destruct (resolve_dims_explicit 0 dims (shape a)) as (l & Hl & Hent);
    [unfold ndim in Hlen; lia|].
  unfold resize_center, bind, lift, load. rewrite Ha, Hl.
  unfold np_full.
  assert (forallb (fun d => 0 <=? d) l = false) as ->; [|done].
  apply not_true_is_false. intros Hall.
  rewrite forallb_forall in Hall.
  specialize (Hent i d Hi ltac:(lia)).
  apply list_elem_of_lookup_2, list_elem_of_In in Hent.
  specialize (Hall d Hent). apply Z.leb_le in Hall. lia.
Qed.

Lemma resize_center_negative_dim_witness :
  resize_center 0%nat [Some (-2)] 0 [vec3]
  = (Raise (ValueError "negative dimensions are not allowed"), [vec3]).
Proof.
  apply (resize_center_negative_dim [vec3] 0%nat vec3 [Some (-2)] 0 0%nat (-2));
    [reflexivity|vm_compute; lia|reflexivity|lia].
Defined.

(** ** generate_pos_neg_label_crop_centers: what is returned *)

Lemma shift_center_length i center vs ve r :
  shift_center i center vs ve = Ok r -> length r = length center.
Proof.
  revert i r. induction center as [|c center IH]; intros i r H.
  { by injection H as <-. }
  cbn [shift_center] in H.
  destruct (vs !! i); [|done]. destruct (ve !! i); [|done].
  destruct (shift_center (S i) center vs ve) as [r'|] eqn:Er; [|done].
  injection H as <-. cbn. f_equal. by apply (IH (S i)).
Qed.

Lemma tail_length {X} (l : list X) : length (tail l) = (length l - 1)%nat.
Proof. destruct l; cbn; lia. Qed.

Lemma center_of_index_length label_shape vs ve idx center :
  center_of_index label_shape vs ve idx = Ok center ->
  length center = length (tail label_shape).
Proof.
  unfold center_of_index, np_unravel_index.
  destruct (_ && _); [|done]. cbn [rbind]. intros H.
  apply shift_center_length in H. rewrite H.
  rewrite !tail_length, length_rev, unravel_rev_length, length_rev. done.
Qed.

Lemma valid_range_sizes max_size size vs ve :
  valid_range max_size size = Ok (vs, ve) ->
  Forall2 (fun m s => s <= Z.of_nat m) max_size size.
Proof.
  unfold valid_range.
  destruct (Nat.eqb_spec (length max_size) (length size)) as [E|]; [|done].
  cbn [negb]. destruct (forallb _ _) eqn:Hall; [|done]. intros _.
  revert size E Hall. induction max_size as [|m ms IH]; intros [|s size] E Hall;
    try done; try (by constructor).
  cbn [zip_with forallb] in Hall. apply andb_true_iff in Hall as [Hle Hall].
  apply Z.leb_le in Hle. constructor; [lia|]. apply IH; [|done].
  cbn in E. lia.
Qed.

Section SamplerReturn.
Context {V W G : Type}.
Context (truth : V -> bool) (above : W -> W -> bool).
Context (rand : G -> Q * G) (randint : Z -> G -> Z * G).

Lemma draw_centers_length n label_shape vs ve fg bg ratio g centers :
  (draw_centers rand randint n label_shape vs ve fg bg ratio g).1 = Ok centers ->
  length centers = n /\
  Forall (fun c => length c = length (tail label_shape)) centers.
Proof.
  revert g centers. induction n as [|n IH]; intros g centers H.
  { injection H as <-. split; [done|constructor]. }
  cbn [draw_centers] in H.
  destruct (draw_index rand randint fg bg ratio g) as [[idx|e] g1]; [|done].
  destruct (center_of_index label_shape vs ve idx) as [center|e] eqn:Ec; [|done].
  specialize (IH g1).
  destruct (draw_centers rand randint n label_shape vs ve fg bg ratio g1)
    as [[rest|e] g2]; [|done].
  injection H as <-. destruct (IH rest eq_refl) as [L F]. split.
  - cbn. by rewrite L.
  - constructor; [|done]. by apply (center_of_index_length _ vs ve idx).
Qed.

(** What a call that returns has gone through. *)
Lemma crop_centers_returned
    (label : ndarray V) size num_samples pos_ratio (image : option (ndarray W))
    thr g centers :
  returned (generate_pos_neg_label_crop_centers truth above rand randint
              label size num_samples pos_ratio image thr g) = Ok centers ->
  exists vs ve fg bg ratio,
    valid_range (tail (shape label)) size = Ok (vs, ve) /\
    (draw_centers rand randint (Z.to_nat num_samples) (shape label) vs ve
       fg bg ratio g).1 = Ok centers.
Proof.
  unfold generate_pos_neg_label_crop_centers.
  destruct (valid_range (tail (shape label)) size) as [[vs ve]|]; [|done].
  destruct (fg_bg_indicies truth above label image thr) as [[fg bg]|]; [|done].
  destruct (balance fg bg pos_ratio) as [[ratio ws]|]; [|done].
  destruct (draw_centers _ _ _ _ _ _ _ _ _ _) as [r g'] eqn:Ed. cbn [returned].
  intros ->. exists vs, ve, fg, bg, ratio. split; [done|]. by rewrite Ed.
Qed.

(** X10. A call that returns gives exactly [num_samples] centres (none for
    a negative [num_samples]), each with one coordinate per entry of
    [size], that is, per spatial axis of the label. *)
Theorem crop_centers_count
    (label : ndarray V) size num_samples pos_ratio (image : option (ndarray W))
    thr g centers :
  returned (generate_pos_neg_label_crop_centers truth above rand randint
              label size num_samples pos_ratio image thr g) = Ok centers ->
  length centers = Z.to_nat num_samples /\
  Forall (fun c => length c = length size /\
                   length c = length (tail (shape label))) centers.
Proof.
  intros H. apply crop_centers_returned in H
    as (vs & ve & fg & bg & ratio & Hvr & Hd).
  apply draw_centers_length in Hd as [L F]. split; [done|].
  apply valid_range_lengths in Hvr as (Ls & _ & _).
  apply (Forall_weaken _ _ _ F). intros c Hc. split; [lia|done].
Qed.

(** X11. When [valid_end] fits in 16 bits on every axis, each centre that
    is returned leaves room for the whole region of interest: on every
    axis the [size] positions that start at [centre - size // 2] lie inside
    the label. *)
Theorem crop_centers_roi_inside
    (label : ndarray V) size num_samples pos_ratio (image : option (ndarray W))
    thr g centers :
  Forall2 (fun m s => Z.of_nat m + 1 - s `div` 2 < 65536) (tail (shape label)) size ->
  returned (generate_pos_neg_label_crop_centers truth above rand randint
              label size num_samples pos_ratio image thr g) = Ok centers ->
  Forall (fun c => forall k x, c !! k = Some x ->
            exists m s, tail (shape label) !! k = Some m /\ size !! k = Some s /\
                        0 <= x - s `div` 2 /\
                        x - s `div` 2 + s <= Z.of_nat m) centers.
Proof.
  intros Hfit H. apply crop_centers_returned in H
    as (vs & ve & fg & bg & ratio & Hvr & Hd).
  destruct (valid_range_ordered _ _ _ _ Hvr Hfit) as (Hlt & Evs & Eve).
  pose proof (valid_range_sizes _ _ _ _ Hvr) as Hsz.
  pose proof (draw_centers_range rand randint _ _ _ _ _ _ _ _ _ Hlt Hd) as Hr.
  apply (Forall_weaken _ _ _ Hr). intros c Hc k x Hk.
  destruct (Hc k x Hk) as (s0 & e0 & Hs0 & He0 & Hx).
  subst vs ve. rewrite list_lookup_fmap in Hs0.
  destruct (size !! k) as [s|] eqn:Es; [|done]. injection Hs0 as <-.
  rewrite lookup_zip_with in He0.
  destruct (tail (shape label) !! k) as [m|] eqn:Em; [|done].
  cbn in He0. rewrite Es in He0. injection He0 as <-.
  exists m, s. split; [done|]. split; [done|].
  pose proof (Forall2_lookup_lr _ _ _ _ _ _ Hsz Em Es) as Hle. cbn in Hle.
  rewrite Z.quot_div_nonneg in Hx by lia. div_lia.
Qed.

Lemma shift_center_no_assertion i center vs ve msg :
  shift_center i center vs ve <> Raise (AssertionError msg).
Proof.
  revert i. induction center as [|c center IH]; intros i; [done|].
  cbn [shift_center]. destruct (vs !! i); [|done]. destruct (ve !! i); [|done].
  specialize (IH (S i)).
  destruct (shift_center (S i) center vs ve); [done|].
  cbn [rbind]. congruence.
Qed.

Lemma center_of_index_no_assertion label_shape vs ve idx msg :
  center_of_index label_shape vs ve idx <> Raise (AssertionError msg).
Proof.
  unfold center_of_index, np_unravel_index. destruct (_ && _); [|done].
  cbn [rbind]. apply shift_center_no_assertion.
Qed.

Lemma draw_index_no_assertion fg bg ratio g msg :
  (draw_index rand randint fg bg ratio g).1 <> Raise (AssertionError msg).
Proof.
  unfold draw_index. destruct (rand g) as [u g1].
  destruct (Z.of_nat _ <=? 0); [done|].
  destruct (randint _ g1) as [k g2].
  destruct (_ !! _); [|done]. by destruct (0 <=? _).
Qed.

Lemma draw_centers_no_assertion n label_shape vs ve fg bg ratio g msg :
  (draw_centers rand randint n label_shape vs ve fg bg ratio g).1
  <> Raise (AssertionError msg).
Proof.
  revert g. induction n as [|n IH]; intros g; [done|].
  cbn [draw_centers].
  pose proof (draw_index_no_assertion fg bg ratio g msg) as Hd.
  destruct (draw_index rand randint fg bg ratio g) as [[idx|e] g1];
    [|cbn [fst] in *; congruence].
  pose proof (center_of_index_no_assertion label_shape vs ve idx msg) as Hc.
  destruct (center_of_index label_shape vs ve idx) as [center|e];
    [|cbn [fst]; congruence].
  specialize (IH g1).
  destruct (draw_centers rand randint n label_shape vs ve fg bg ratio g1)
    as [[rest|e] g2]; [done|]. cbn [fst] in *. congruence.
Qed.

Lemma fg_bg_indicies_no_assertion (label : ndarray V) (image : option (ndarray W))
    thr msg :
  fg_bg_indicies truth above label image thr <> Raise (AssertionError msg).
Proof.
  unfold fg_bg_indicies, np_any_axis0.
  destruct (shape label); [done|]. destruct (data label); [done|].
  cbn [rbind]. destruct image as [img|]; [|done].
  destruct (shape img); [done|]. destruct (data img); [done|].
  cbn [rbind]. unfold np_logical_and.
  destruct (decide _); [done|].
  match goal with
  | |- context [match ?a with [] => _ | _ :: _ => _ end] => destruct a as [|? [|? ?]]
  end; try done.
  all: match goal with
       | |- context [match ?b with [] => _ | _ :: _ => _ end] =>
           destruct b as [|? [|? ?]]
       end; done.
Qed.

(** Once both assertions have passed, no [AssertionError] is raised. *)
Lemma crop_centers_past_assertions
    (label : ndarray V) size num_samples pos_ratio (image : option (ndarray W))
    thr g vs ve msg :
  valid_range (tail (shape label)) size = Ok (vs, ve) ->
  returned (generate_pos_neg_label_crop_centers truth above rand randint
              label size num_samples pos_ratio image thr g)
  <> Raise (AssertionError msg).
Proof.
  intros Hvr. unfold generate_pos_neg_label_crop_centers. rewrite Hvr.
  pose proof (fg_bg_indicies_no_assertion label image thr msg) as Hf.
  destruct (fg_bg_indicies truth above label image thr) as [[fg bg]|];
    [|cbn [returned]; congruence].
  assert (balance fg bg pos_ratio <> Raise (AssertionError msg)) as Hb.
  { unfold balance. destruct (_ || _); [|done]. by destruct (_ && _). }
  destruct (balance fg bg pos_ratio) as [[ratio ws]|];
    [|cbn [returned]; congruence].
  pose proof (draw_centers_no_assertion (Z.to_nat num_samples) (shape label)
                vs ve fg bg ratio g msg) as Hd.
  by destruct (draw_centers _ _ _ _ _ _ _ _ _ _) as [r g'].
Qed.

(** X12. The call raises an [AssertionError] exactly when [size] has not
    one entry per spatial axis of the label or some entry exceeds the
    length of its axis; the first assertion is the one reported when both
    fail, and nothing is drawn from the random source. *)
Theorem crop_centers_assertions
    (label : ndarray V) size num_samples pos_ratio (image : option (ndarray W))
    thr g :
  let out := generate_pos_neg_label_crop_centers truth above rand randint
               label size num_samples pos_ratio image thr g in
  let max_size := tail (shape label) in
  ((exists msg, returned out = Raise (AssertionError msg)) <->
   length max_size <> length size \/
   exists k m s, max_size !! k = Some m /\ size !! k = Some s /\ Z.of_nat m < s) /\
  (length max_size <> length size ->
   out = Outcome (Raise (AssertionError "expected size does not match label dim."))
           [] g) /\
  (length max_size = length size ->
   (exists k m s, max_size !! k = Some m /\ size !! k = Some s /\ Z.of_nat m < s) ->
   out = Outcome (Raise (AssertionError "proposed roi is larger than image itself."))
           [] g).
Proof.
  intros out max_size.
  assert (forallb (fun d => 0 <=? d)
            (zip_with (fun m s => Z.of_nat m - s) max_size size) = false <->
          exists k m s, max_size !! k = Some m /\ size !! k = Some s /\ Z.of_nat m < s)
    as Hbig.
  { generalize max_size. clear. intros ms. revert size.
    induction ms as [|m ms IH]; intros size.
    - cbn. split; [done|]. intros (k & m & s & Hk & _). by rewrite lookup_nil in Hk.
    - destruct size as [|s size].
      + cbn. split; [done|]. intros (k & m' & s & _ & Hk & _).
        by rewrite lookup_nil in Hk.
      + cbn [zip_with forallb]. rewrite andb_false_iff, IH, Z.leb_gt. split.
        * intros [Hlt|(k & m' & s' & H1 & H2 & H3)].
          -- exists 0%nat, m, s. repeat split; [done..|lia].
          -- by exists (S k), m', s'.
        * intros ([|k] & m' & s' & H1 & H2 & H3).
          -- cbn in H1, H2. injection H1 as <-. injection H2 as <-. left. lia.
          -- right. by exists k, m', s'. }
  assert (length max_size <> length size ->
          out = Outcome (Raise (AssertionError "expected size does not match label dim."))
                  [] g) as H1.
  { intros Hne. subst out. unfold generate_pos_neg_label_crop_centers, valid_range.
    fold max_size.
    destruct (Nat.eqb_spec (length max_size) (length size)); [done|]. done. }
  assert (length max_size = length size ->
          (exists k m s, max_size !! k = Some m /\ size !! k = Some s /\ Z.of_nat m < s) ->
          out = Outcome (Raise (AssertionError "proposed roi is larger than image itself."))
                  [] g) as H2.
  { intros He Hex. apply Hbig in Hex. subst out.
    unfold generate_pos_neg_label_crop_centers, valid_range. fold max_size.
    destruct (Nat.eqb_spec (length max_size) (length size)); [|done].
    cbn [negb]. by rewrite Hex. }
  split; [|by split]. split.
  - intros [msg Hmsg].
    destruct (decide (length max_size = length size)) as [He|Hne]; [|by left].
    right. apply Hbig. apply not_true_is_false. intros Hall. exfalso.
    destruct (valid_range max_size size) as [[vs ve]|e] eqn:Hvr.
    + by apply (crop_centers_past_assertions label size num_samples pos_ratio
                  image thr g vs ve msg Hvr).
    + unfold valid_range in Hvr.
      destruct (Nat.eqb_spec (length max_size) (length size)); [|done].
      cbn [negb] in Hvr. rewrite Hall in Hvr. done.
  - intros [Hne|Hex].
    + rewrite (H1 Hne). by eexists.
    + destruct (decide (length max_size = length size)) as [He|Hne].
      * rewrite (H2 He Hex). by eexists.
      * rewrite (H1 Hne). by eexists.
Qed.
End SamplerReturn.

Lemma crop_centers_count_witness :
  length [[5; 5]; [5; 5]; [5; 5]; [5; 5]; [5; 5]] = Z.to_nat 5 /\
  Forall (fun c => length c = length [4; 4] /\
                   length c = length (tail (shape label_10x10)))
    [[5; 5]; [5; 5]; [5; 5]; [5; 5]; [5; 5]].
Proof.
  apply (crop_centers_count nonzero Z.gtb counter_rand counter_randint
           label_10x10 [4; 4] 5 1%Q None 0 0).
  vm_compute. reflexivity.
Defined.

Lemma crop_centers_roi_inside_witness :
  Forall (fun c => forall k x, c !! k = Some x ->
            exists m s, tail (shape label_10x10) !! k = Some m /\
                        [4; 4] !! k = Some s /\
                        0 <= x - s `div` 2 /\
                        x - s `div` 2 + s <= Z.of_nat m)
    [[5; 5]; [5; 5]; [5; 5]; [5; 5]; [5; 5]].
Proof.
  apply (crop_centers_roi_inside nonzero Z.gtb counter_rand counter_randint
           label_10x10 [4; 4] 5 1%Q None 0 0).
  - repeat constructor; vm_compute; reflexivity.
  - vm_compute. reflexivity.
Defined.

(** ** Affine builders applied to points *)

Section AffinePointFacts.
Context {T : Type} `{ScalarLaws T}.

Lemma fold_zeros_acc (c : list T) n acc :
  fold_left (fun acc p => fadd acc (fmul p.1 p.2)) (zip (replicate n fzero) c) acc
  = acc.
Proof.
  revert c acc. induction n as [|n IH]; intros [|y c] acc; try done.
  cbn. rewrite fmul_0_l, fadd_0_r. apply IH.
Qed.

(** A row with one entry [x] at column [i] picks [x * c[i]]. *)
Lemma dot_insert n i x (c : list T) :
  (i < n)%nat -> (n <= length c)%nat ->
  dot (<[i := x]> (replicate n fzero)) c = fmul x (default fzero (c !! i)).
Proof.
  revert n c. induction i as [|i IH]; intros [|n] [|y c] Hi Hc;
    try (cbn in *; lia).
  - unfold dot. cbn. rewrite fold_zeros_acc. apply fadd_0_l.
  - unfold dot. cbn. rewrite fmul_0_l, fadd_0_l.
    apply (IH n c); cbn in *; lia.
Qed.

Lemma dot_snoc (a c : list T) t e :
  length a = length c -> dot (a ++ [t]) (c ++ [e]) = fadd (dot a c) (fmul t e).
Proof.
  intros Hl. unfold dot. rewrite zip_with_app by done.
  by rewrite fold_left_app.
Qed.

Lemma eye_rows n :
  to_rows (np_eye (T := T) n)
  = (fun i => <[i := fone]> (replicate n fzero)) <$> seq 0 n.
Proof.
  unfold np_eye, np_diag. rewrite to_rows_array2, length_replicate.
  apply list_eq. intros i. rewrite list_lookup_imap, list_lookup_fmap.
  destruct (decide (i < n)%nat) as [Hi|Hi].
  - rewrite lookup_replicate_2, lookup_seq_lt by done. done.
  - rewrite (lookup_ge_None_2 (replicate n fone) i)
      by (rewrite length_replicate; lia).
    rewrite lookup_seq_ge by lia. done.
Qed.

(** X13. [create_scale] applied to a point in homogeneous coordinates
    multiplies coordinate [i] by factor [i]; a coordinate without a factor
    is multiplied by 1 (so it is kept) and factors beyond the number of
    dimensions are ignored. *)
Theorem create_scale_scales_points d (factors : floats T) (p : list T) :
  length p = d ->
  np_matvec (create_scale d factors) (homogeneous p)
  = Ok (homogeneous
          (imap (fun i x => fmul (default fone (ensure_tuple factors !! i)) x) p)).
Proof.
  intros Hp. unfold create_scale, np_matvec, homogeneous.
  set (fs := take d (pad_to d fone (ensure_tuple factors))).
  assert (length fs = d) as Lfs.
  { subst fs. unfold pad_to. rewrite length_take, length_app, length_replicate. lia. }
  assert (forall i, (i < d)%nat ->
            fs !! i = Some (default fone (ensure_tuple factors !! i))) as Hfs.
  { intros i Hi. subst fs. rewrite lookup_take_lt by done. unfold pad_to.
    destruct (decide (i < length (ensure_tuple factors))%nat) as [Hlt|Hge].
    - rewrite lookup_app_l by done.
      by destruct (lookup_lt_is_Some_2 _ i Hlt) as [x ->].
    - rewrite lookup_app_r by lia. rewrite (lookup_ge_None_2 _ i) by lia.
      cbn. apply lookup_replicate_2. lia. }
  unfold np_diag. rewrite to_rows_array2.
  cbn [np_array2 shape].
  destruct (decide _) as [_|Hne].
  2:{ exfalso. apply Hne. rewrite !length_app. cbn [length].
      destruct fs as [|x fs']; cbn in *;
        rewrite ?length_insert, ?length_replicate; lia. }
  rewrite length_app. cbn [length]. f_equal.
  apply list_eq. intros i. rewrite list_lookup_fmap, list_lookup_imap.
  destruct (decide (i < d)%nat) as [Hi|Hi].
  - rewrite lookup_app_l by lia. rewrite (Hfs i Hi). cbn.
    rewrite lookup_app_l by (rewrite length_imap; lia).
    rewrite list_lookup_imap.
    destruct (lookup_lt_is_Some_2 p i ltac:(lia)) as [x Hx]. rewrite Hx. cbn.
    f_equal.
    etrans; [apply (dot_insert (length fs + 1) i _ (p ++ [fone]));
             rewrite ?length_app; cbn; lia|].
    by rewrite lookup_app_l, Hx by lia.
  - destruct (decide (i = d)) as [->|Hne].
    + rewrite lookup_app_r by lia. rewrite Lfs, Nat.sub_diag. cbn.
      rewrite lookup_app_r by (rewrite length_imap; lia).
      rewrite length_imap, Hp, Nat.sub_diag. cbn. f_equal.
      etrans; [apply (dot_insert (d + 1) d _ (p ++ [fone]));
               rewrite ?length_app; cbn; lia|].
      rewrite lookup_app_r by lia. rewrite Hp, Nat.sub_diag. cbn.
      apply fmul_1_l.
    + rewrite !lookup_ge_None_2; [done| |].
      * rewrite length_app, length_imap. cbn. lia.
      * rewrite length_app. cbn. lia.
Qed.

(** One assignment [affine[i, d] = x] on a matrix given by its rows. *)
Lemma np_setitem_rows d i (x : T) (rows : list (list T)) :
  Forall (fun r => length r = S d) rows -> (i < length rows)%nat ->
  np_setitem (np_array2 rows) [IInt (Z.of_nat i); IInt (Z.of_nat d)]
    (NdArray [] (Leaf x))
  = Ok (np_array2 (alter (fun r => <[d := x]> r) i rows)).
Proof.
  intros Fr Hi.
  assert (forall rs : list (list T), Forall (fun r => length r = S d) rs ->
            (0 < length rs)%nat ->
            length (default [] (head rs)) = S d) as Hhead.
  { intros [|r rs] F L; [cbn in L; lia|]. by inversion_clear F. }
  unfold np_setitem. cbn [np_array2 shape]. rewrite (Hhead rows Fr ltac:(lia)).
  cbn [index_shape]. unfold norm_index.
  destruct (Z.ltb_spec (Z.of_nat i) 0); [lia|].
  destruct (Z.ltb_spec (Z.of_nat d) 0); [lia|].
  destruct (Z.leb_spec 0 (Z.of_nat i)); [|lia].
  destruct (Z.ltb_spec (Z.of_nat i) (Z.of_nat (length rows))); [|lia].
  destruct (Z.leb_spec 0 (Z.of_nat d)); [|lia].
  destruct (Z.ltb_spec (Z.of_nat d) (Z.of_nat (S d))); [|lia].
  cbn [andb rbind]. unfold broadcast_to. cbn [shape data length Nat.sub
    strip_unit_axes stretch]. f_equal.
  unfold np_array2. cbn [data write].
  rewrite !length_fmap. unfold norm_index.
  destruct (Z.ltb_spec (Z.of_nat i) 0); [lia|]. rewrite Nat2Z.id.
  f_equal.
  - rewrite length_alter. f_equal. f_equal. symmetry. apply Hhead.
    + apply Forall_lookup. intros j r Hr.
      destruct (decide (i = j)) as [<-|Hne].
      * rewrite list_lookup_alter_eq in Hr.
        destruct (rows !! i) as [r0|] eqn:E0; [|done]. injection Hr as <-.
        rewrite length_insert. by apply (Forall_lookup_1 _ _ _ _ Fr E0).
      * rewrite list_lookup_alter_ne in Hr by done.
        by apply (Forall_lookup_1 _ _ _ _ Fr Hr).
    + rewrite length_alter. lia.
  - f_equal. symmetry.
    apply (list_fmap_alter (fun r => Node (Leaf <$> r))).
    apply Forall_true. intros r. cbn. f_equal.
    destruct (Z.ltb_spec (Z.of_nat d) 0); [lia|]. rewrite Nat2Z.id.
    rewrite list_fmap_insert, list_insert_alter. done.
Qed.

(** The rows after the loop of [create_translate] started at row [i]. *)
Lemma translate_loop_rows d i (shift : list T) (rows : list (list T)) :
  Forall (fun r => length r = S d) rows ->
  (i + length shift <= length rows)%nat ->
  exists rows',
    translate_loop i d shift (np_array2 rows) = Ok (np_array2 rows') /\
    length rows' = length rows /\
    forall k r, rows !! k = Some r ->
      rows' !! k
      = Some (if decide (i <= k)%nat
              then match shift !! (k - i)%nat with
                   | Some t => <[d := t]> r
                   | None => r
                   end
              else r).
Proof.
  revert i rows. induction shift as [|x shift IH]; intros i rows Fr Hi.
  { exists rows. split; [done|]. split; [done|]. intros k r Hk.
    rewrite lookup_nil. by destruct (decide _). }
  cbn [translate_loop length] in *.
  rewrite (np_setitem_rows d i x rows Fr) by lia. cbn [rbind].
  destruct (IH (S i) (alter (fun r => <[d := x]> r) i rows)) as (rows' & -> & L & E).
  - apply Forall_lookup. intros j r Hr.
    destruct (decide (i = j)) as [<-|Hne].
    + rewrite list_lookup_alter_eq in Hr.
      destruct (rows !! i) as [r0|] eqn:E0; [|done]. injection Hr as <-.
      rewrite length_insert. by apply (Forall_lookup_1 _ _ _ _ Fr E0).
    + rewrite list_lookup_alter_ne in Hr by done.
      by apply (Forall_lookup_1 _ _ _ _ Fr Hr).
  - rewrite length_alter. lia.
  - exists rows'. split; [done|]. rewrite length_alter in L. split; [done|].
    intros k r Hk. destruct (decide (i = k)) as [<-|Hne].
    + rewrite (E i (<[d := x]> r)) by (by rewrite list_lookup_alter_eq, Hk).
      rewrite decide_False by lia. rewrite decide_True by lia.
      by rewrite Nat.sub_diag.
    + rewrite (E k r) by (by rewrite list_lookup_alter_ne).
      destruct (decide (S i <= k)%nat) as [Hle|Hgt].
      * rewrite decide_True by lia.
        replace (k - i)%nat with (S (k - S i)) by lia. done.
      * rewrite decide_False by lia. done.
Qed.

(** X14. [create_translate] never fails, and the matrix it returns, applied
    to a point in homogeneous coordinates, adds shift [i] to coordinate
    [i]; a coordinate without a shift gets 0 added (so it is kept) and
    shifts beyond the number of dimensions are ignored. *)
Theorem create_translate_moves_points d (shift : floats T) (p : list T) :
  length p = d ->
  exists m,
    create_translate d shift = Ok m /\
    np_matvec m (homogeneous p)
    = Ok (homogeneous
            (imap (fun i x => fadd x (default fzero (ensure_tuple shift !! i))) p)).
Proof.
  intros Hp. unfold create_translate.
  set (ts := ensure_tuple shift).
  pose proof (eye_rows (d + 1)) as He.
  assert (np_eye (T := T) (d + 1)
          = np_array2 ((fun i => <[i := fone]> (replicate (d + 1) fzero))
                         <$> seq 0 (d + 1))) as ->.
  { rewrite <- He. unfold np_eye, np_diag. by rewrite to_rows_array2. }
  destruct (translate_loop_rows d 0 (take d ts)
              ((fun i => <[i := fone]> (replicate (d + 1) fzero)) <$> seq 0 (d + 1)))
    as (rows' & -> & L & E).
  { apply Forall_fmap, Forall_true. intros i. cbn.
    rewrite length_insert, length_replicate. lia. }
  { rewrite length_fmap, length_seq, length_take. lia. }
  rewrite length_fmap, length_seq in L.
  eexists. split; [done|].
  assert (forall k, (k < d + 1)%nat ->
            rows' !! k
            = Some (match take d ts !! k with
                    | Some t => <[d := t]> (<[k := fone]> (replicate (d + 1) fzero))
                    | None => <[k := fone]> (replicate (d + 1) fzero)
                    end)) as Hrow.
  { intros k Hk.
    rewrite (E k (<[k := fone]> (replicate (d + 1) fzero))).
    - rewrite decide_True by lia. by rewrite Nat.sub_0_r.
    - rewrite list_lookup_fmap, lookup_seq_lt by done. done. }
  unfold np_matvec, homogeneous. cbn [np_array2 shape].
  rewrite to_rows_array2.
  destruct (decide _) as [_|Hne].
  2:{ exfalso. apply Hne. rewrite head_lookup, (Hrow 0%nat) by lia.
      rewrite length_app. cbn [length].
      destruct (take d ts !! 0%nat); cbn [default from_option Datatypes.id];
        rewrite ?length_insert, length_replicate; lia. }
  f_equal. apply list_eq. intros k. rewrite list_lookup_fmap.
  destruct (decide (k < d + 1)%nat) as [Hk|Hk].
  2:{ rewrite !lookup_ge_None_2; [done| |lia].
      rewrite length_app, length_imap. cbn. lia. }
  rewrite (Hrow k Hk). cbn [fmap option_fmap option_map].
  destruct (decide (k < d)%nat) as [Hlt|Hge].
  - rewrite lookup_app_l by (rewrite length_imap; lia).
    rewrite list_lookup_imap.
    destruct (lookup_lt_is_Some_2 p k ltac:(lia)) as [x Hx]. rewrite Hx.
    cbn [fmap option_fmap option_map]. f_equal.
    rewrite lookup_take_lt by done.
    assert (take d (<[k := fone]> (replicate (d + 1) fzero))
            = <[k := fone]> (replicate d fzero)) as Etake.
    { rewrite take_insert_lt by done. rewrite take_replicate. f_equal. f_equal. lia. }
    destruct (ts !! k) as [t|] eqn:Et; cbn [default from_option Datatypes.id].
    + rewrite insert_take_drop by (rewrite length_insert, length_replicate; lia).
      rewrite Etake, drop_ge by (rewrite length_insert, length_replicate; lia).
      rewrite dot_snoc by (rewrite length_insert, length_replicate; lia).
      rewrite dot_insert by lia. rewrite Hx. cbn [default from_option Datatypes.id].
      by rewrite fmul_1_l, fmul_1_r.
    + rewrite dot_insert by (rewrite ?length_app; cbn; lia).
      rewrite lookup_app_l, Hx by lia. cbn [default from_option Datatypes.id].
      by rewrite fmul_1_l, fadd_0_r.
  - assert (k = d) as -> by lia.
    rewrite lookup_app_r by (rewrite length_imap; lia).
    rewrite length_imap, Hp, Nat.sub_diag.
    rewrite (lookup_ge_None_2 (take d ts) d) by (rewrite length_take; lia).
    cbn [lookup list_lookup]. f_equal.
    rewrite dot_insert by (rewrite ?length_app; cbn; lia).
    rewrite lookup_app_r by lia. rewrite Hp, Nat.sub_diag. cbn.
    apply fmul_1_l.
Qed.
End AffinePointFacts.

Lemma create_scale_scales_points_witness :
  np_matvec (create_scale 2 (Many [3; 5; 7]%R)) (homogeneous [1; 2]%R)
  = Ok (homogeneous
          (imap (fun i x => fmul (default fone (ensure_tuple (Many [3; 5; 7]%R) !! i)) x)
             [1; 2]%R)).
Proof.
  apply (@create_scale_scales_points R R_scalar R_scalar_laws 2
           (Many [3; 5; 7]%R) [1; 2]%R).
  reflexivity.
Defined.

Lemma create_translate_moves_points_witness :
  exists m,
    create_translate 3 (One 4%R) = Ok m /\
    np_matvec m (homogeneous [1; 2; 3]%R)
    = Ok (homogeneous
            (imap (fun i x => fadd x (default fzero (ensure_tuple (One 4%R) !! i)))
               [1; 2; 3]%R)).
Proof.
  apply (@create_translate_moves_points R R_scalar R_scalar_laws 3
           (One 4%R) [1; 2; 3]%R).
  reflexivity.
Defined.

Section AffineShearRotate.
Context {T : Type} `{ScalarLaws T}.

Lemma item_pad_to n (l : list T) i : item (pad_to n fzero l) i = item l i.
Proof.
  unfold item, pad_to.
  destruct (decide (i < length l)%nat) as [Hlt|Hge].
  - by rewrite lookup_app_l.
  - rewrite lookup_app_r by lia. rewrite (lookup_ge_None_2 l i) by lia.
    destruct (replicate (n - length l) fzero !! (i - length l)%nat) as [x|] eqn:E;
      [|done].
    apply lookup_replicate in E as [-> _]. done.
Qed.

(** X15. [create_shear] raises [NotImplementedError] exactly when
    [spatial_dims] is neither 2 nor 3. In two dimensions the matrix sends
    the point [(x, y)] to [(x + c0 y, c1 x + y)], in three dimensions
    [(x, y, z)] to [(x + c0 y + c1 z, c2 x + y + c3 z, c4 x + c5 y + z)],
    where a missing coefficient counts as 0 and coefficients beyond the
    second (sixth) are ignored. *)
Theorem create_shear_shears_points (coefs : floats T) :
  let c := item (ensure_tuple coefs) in
  (forall d, create_shear d coefs = Raise NotImplementedError
             <-> d <> 2%nat /\ d <> 3%nat) /\
  (forall x y, exists m,
     create_shear 2 coefs = Ok m /\
     np_matvec m (homogeneous [x; y])
     = Ok (homogeneous [fadd x (fmul (c 0%nat) y); fadd (fmul (c 1%nat) x) y])) /\
  (forall x y z, exists m,
     create_shear 3 coefs = Ok m /\
     np_matvec m (homogeneous [x; y; z])
     = Ok (homogeneous
             [fadd (fadd x (fmul (c 0%nat) y)) (fmul (c 1%nat) z);
              fadd (fadd (fmul (c 2%nat) x) y) (fmul (c 3%nat) z);
              fadd (fadd (fmul (c 4%nat) x) (fmul (c 5%nat) y)) z])).
Proof.
  intros c. split; [|split].
  - intros d. unfold create_shear.
    destruct (Nat.eqb_spec d 2) as [->|N2]; [split; [done|lia]|].
    destruct (Nat.eqb_spec d 3) as [->|N3]; [split; [done|lia]|]. done.
  - intros x y. eexists. split; [reflexivity|].
    unfold np_matvec, homogeneous, dot. cbn.
    rewrite !item_pad_to. fold c.
    by rewrite !fmul_0_l, !fmul_1_l, !fadd_0_l, !fadd_0_r.
  - intros x y z. eexists. split; [reflexivity|].
    unfold np_matvec, homogeneous, dot. cbn.
    rewrite !item_pad_to. fold c.
    by rewrite !fmul_0_l, !fmul_1_l, !fadd_0_l, !fadd_0_r.
Qed.

(** X16. In two dimensions the matrix of [create_rotate] for an angle [a]
    sends the point [(x, y)] to [(cos a x - sin a y, sin a x + cos a y)];
    in particular [(1, 0)] goes to [(cos a, sin a)]: the rotation is
    counter-clockwise for a positive angle. Angles after the first are
    ignored. *)
Theorem create_rotate_2d_rotates_points (a : T) (rest : list T) (x y : T) :
  exists m,
    create_rotate 2 (Many (a :: rest)) = Ok (Some m) /\
    np_matvec m (homogeneous [x; y])
    = Ok (homogeneous [fadd (fmul (fcos a) x) (fmul (fneg (fsin a)) y);
                       fadd (fmul (fsin a) x) (fmul (fcos a) y)]) /\
    np_matvec m (homogeneous [fone; fzero]) = Ok (homogeneous [fcos a; fsin a]).
Proof.
  eexists. split; [reflexivity|].
  unfold np_matvec, homogeneous, dot. cbn.
  split; by rewrite ?fmul_0_l, ?fmul_0_r, ?fmul_1_l, ?fmul_1_r, ?fadd_0_l, ?fadd_0_r.
Qed.
End AffineShearRotate.

Lemma create_shear_shears_points_witness :
  let c := item (ensure_tuple (Many [2; 3]%R)) in
  (forall d, create_shear d (Many [2; 3]%R) = Raise NotImplementedError
             <-> d <> 2%nat /\ d <> 3%nat) /\
  (forall x y, exists m,
     create_shear 2 (Many [2; 3]%R) = Ok m /\
     np_matvec m (homogeneous [x; y])
     = Ok (homogeneous [fadd x (fmul (c 0%nat) y); fadd (fmul (c 1%nat) x) y])) /\
  (forall x y z, exists m,
     create_shear 3 (Many [2; 3]%R) = Ok m /\
     np_matvec m (homogeneous [x; y; z])
     = Ok (homogeneous
             [fadd (fadd x (fmul (c 0%nat) y)) (fmul (c 1%nat) z);
              fadd (fadd (fmul (c 2%nat) x) y) (fmul (c 3%nat) z);
              fadd (fadd (fmul (c 4%nat) x) (fmul (c 5%nat) y)) z])).
Proof.
  exact (@create_shear_shears_points R R_scalar R_scalar_laws (Many [2; 3]%R)).
Defined.

Lemma create_rotate_2d_rotates_points_witness :
  exists m,
    create_rotate 2 (Many [1; 2]%R) = Ok (Some m) /\
    np_matvec m (homogeneous [3; 4]%R)
    = Ok (homogeneous [fadd (fmul (fcos 1%R) 3%R) (fmul (fneg (fsin 1%R)) 4%R);
                       fadd (fmul (fsin 1%R) 3%R) (fmul (fcos 1%R) 4%R)]) /\
    np_matvec m (homogeneous [fone; fzero]) = Ok (homogeneous [fcos 1%R; fsin 1%R]).
Proof.
  exact (@create_rotate_2d_rotates_points R R_scalar R_scalar_laws
           1%R [2%R] 3%R 4%R).
Defined.

(** *** Rotations compose *)

(** Compares two arrays of real numbers entry by entry. *)
Ltac real_entries :=
  repeat match goal with
         | |- Ok _ = Ok _ => f_equal
         | |- Some _ = Some _ => f_equal
         | |- NdArray _ _ = NdArray _ _ => f_equal
         | |- Node _ = Node _ => f_equal
         | |- Leaf _ = Leaf _ => f_equal
         | |- _ :: _ = _ :: _ => f_equal
         end.

(** X17. Over the real numbers rotations about one axis compose by adding
    their angles: the product of the matrices of [create_rotate] for the
    angles [a] and [b] is the matrix for [a + b], in two dimensions and,
    for the rotation about the first axis, in three; the angle 0 gives
    the identity matrix. *)
Theorem create_rotate_adds_angles (a b : R) :
  (exists ma mb,
     create_rotate 2 (One a) = Ok (Some ma) /\
     create_rotate 2 (One b) = Ok (Some mb) /\
     (mab <- np_matmul ma mb ;; Ok (Some mab)) = create_rotate 2 (One (a + b)%R)) /\
  (exists ma mb,
     create_rotate 3 (One a) = Ok (Some ma) /\
     create_rotate 3 (One b) = Ok (Some mb) /\
     (mab <- np_matmul ma mb ;; Ok (Some mab)) = create_rotate 3 (One (a + b)%R)) /\
  create_rotate 2 (One 0%R) = Ok (Some (np_eye 3)) /\
  create_rotate 3 (One 0%R) = Ok (Some (np_eye 4)).
Proof.
  split; [|split; [|split]].
  - do 2 eexists. split; [reflexivity|]. split; [reflexivity|].
    cbn. rewrite decide_True by done. cbn.
    unfold rotate_2d, np_array2. cbn. rewrite cos_plus, sin_plus.
    real_entries; ring.
  - do 2 eexists. split; [reflexivity|]. split; [reflexivity|].
    cbn. rewrite decide_True by done. cbn.
    unfold rotate_axis1, np_array2. cbn. rewrite cos_plus, sin_plus.
    real_entries; ring.
  - cbn. unfold rotate_2d, np_eye, np_diag, np_array2. cbn.
    rewrite sin_0, cos_0. real_entries; ring.
  - cbn. unfold rotate_axis1, np_eye, np_diag, np_array2. cbn.
    rewrite sin_0, cos_0. real_entries; ring.
Qed.

(** ** to_affine_nd on square matrices *)

Section Columns.
Context {A : Type}.
Implicit Types (x v y : nest A) (l lv : list (nest A)).

(** Reading a column of the rows a slice selects. *)
Lemma nest_at_index_column sl l c lo n t2 i :
  selects sl (length l) lo n -> Forall (has_shape [t2]) l ->
  0 <= norm_index c (Z.of_nat t2) < Z.of_nat t2 -> (i < n)%nat ->
  nest_at [i] (index_data [ISlice sl; IInt c] (Node l))
  = nest_at [(i + lo)%nat; Z.to_nat (norm_index c (Z.of_nat t2))] (Node l).
Proof.
  intros Hsel Fl Hc Hi. cbn [index_data]. rewrite (rows_selects sl l lo n Hsel).
  destruct Hsel as [_ Hle]. cbn [nest_at].
  rewrite list_lookup_fmap, lookup_take_lt, lookup_drop by done.
  replace (lo + i)%nat with (i + lo)%nat by lia.
  destruct (lookup_lt_is_Some_2 l (i + lo)) as [y Hy]; [lia|]. rewrite Hy.
  cbn [fmap option_fmap option_map].
  pose proof (Forall_lookup_1 _ _ _ _ Fl Hy) as Hs.
  apply has_shape_cons_inv in Hs as (ly & -> & Ll & Fy).
  cbn [index_data]. rewrite Ll.
  destruct (lookup_lt_is_Some_2 ly (Z.to_nat (norm_index c (Z.of_nat t2))))
    as [z Hz]; [lia|]. rewrite Hz.
  pose proof (Forall_lookup_1 _ _ _ _ Fy Hz) as Hzs.
  apply has_shape_nil_inv in Hzs as [a ->]. done.
Qed.

Lemma index_column_has_shape sl l c lo n t2 :
  selects sl (length l) lo n -> Forall (has_shape [t2]) l ->
  0 <= norm_index c (Z.of_nat t2) < Z.of_nat t2 ->
  has_shape [n] (index_data [ISlice sl; IInt c] (Node l)).
Proof.
  intros Hsel Fl Hc. cbn [index_data]. rewrite (rows_selects sl l lo n Hsel).
  destruct Hsel as [_ Hle]. apply has_shape_cons. split.
  - rewrite length_fmap, length_take, length_drop. lia.
  - apply Forall_fmap, Forall_take, Forall_drop.
    apply (Forall_weaken (has_shape [t2])); [exact Fl|]. intros y Hs. cbn.
    apply has_shape_cons_inv in Hs as (ly & -> & Ll & Fy).
    cbn [index_data]. rewrite Ll.
    destruct (lookup_lt_is_Some_2 ly (Z.to_nat (norm_index c (Z.of_nat t2))))
      as [z Hz]; [lia|]. rewrite Hz.
    by apply (Forall_lookup_1 _ _ _ _ Fy Hz).
Qed.

(** Assigning a column of the rows a slice selects. *)
Lemma write_column sl l lv c lo n t2 :
  selects sl (length l) lo n -> Forall (has_shape [t2]) l ->
  length lv = n -> Forall (has_shape []) lv ->
  0 <= norm_index c (Z.of_nat t2) < Z.of_nat t2 ->
  has_shape [length l; t2] (write [ISlice sl; IInt c] (Node l) (Node lv)) /\
  forall i j, (i < length l)%nat -> (j < t2)%nat ->
    nest_at [i; j] (write [ISlice sl; IInt c] (Node l) (Node lv))
    = if decide ((lo <= i < lo + n)%nat /\ j = Z.to_nat (norm_index c (Z.of_nat t2)))
      then nest_at [(i - lo)%nat] (Node lv)
      else nest_at [i; j] (Node l).
Proof.
  intros Hsel Fl Llv Flv Hc. rewrite (write_selects sl _ l lv lo n Hsel).
  destruct Hsel as [_ Hle].
  assert (forall y z, has_shape [t2] y -> has_shape [] z ->
            exists ly a, y = Node ly /\ z = Leaf a /\ length ly = t2 /\
              Forall (has_shape []) ly /\
              write [IInt c] y z
              = Node (<[Z.to_nat (norm_index c (Z.of_nat t2)) := Leaf a]> ly)) as Hw.
  { intros y z Hy Hz. apply has_shape_cons_inv in Hy as (ly & -> & Ll & Fy).
    apply has_shape_nil_inv in Hz as [a ->]. exists ly, a.
    repeat split; try done. cbn [write]. rewrite Ll. f_equal.
    rewrite list_insert_alter. done. }
  split.
  - apply has_shape_cons. split.
    + rewrite !length_app, length_zip_with, !length_take, !length_drop. lia.
    + apply Forall_app. split; [by apply Forall_take|].
      apply Forall_app. split; [|by apply Forall_drop].
      apply Forall_lookup. intros q y Hy.
      apply lookup_zip_with_Some in Hy as (y1 & y2 & -> & H1 & H2).
      apply lookup_take_Some in H1 as [H1 _]. rewrite lookup_drop in H1.
      destruct (Hw y1 y2) as (ly & a & -> & -> & Ll & Fy & ->).
      * by apply (Forall_lookup_1 _ _ _ _ Fl H1).
      * by apply (Forall_lookup_1 _ _ _ _ Flv H2).
      * apply has_shape_cons. split; [by rewrite length_insert|].
        apply Forall_insert; done.
  - intros i j Hi Hj. cbn [nest_at].
    destruct (decide (i < lo)%nat) as [Hlo|Hlo].
    { rewrite lookup_app_l by (rewrite length_take; lia).
      rewrite lookup_take_lt by done. rewrite decide_False by lia. done. }
    rewrite lookup_app_r by (rewrite length_take; lia).
    rewrite length_take. replace (i - lo `min` length l)%nat with (i - lo)%nat by lia.
    destruct (decide (i < lo + n)%nat) as [Hhi|Hhi].
    + rewrite lookup_app_l
        by (rewrite length_zip_with, length_take, length_drop; lia).
      rewrite lookup_zip_with, lookup_take_lt, lookup_drop by lia.
      replace (lo + (i - lo))%nat with i by lia.
      destruct (lookup_lt_is_Some_2 l i Hi) as [y Hy]. rewrite Hy.
      destruct (lookup_lt_is_Some_2 lv (i - lo)) as [z Hz]; [lia|]. rewrite Hz.
      cbn [mbind option_bind].
      destruct (Hw y z) as (ly & a & -> & -> & Ll & Fy & ->).
      * by apply (Forall_lookup_1 _ _ _ _ Fl Hy).
      * by apply (Forall_lookup_1 _ _ _ _ Flv Hz).
      * cbn [nest_at].
        destruct (decide (j = Z.to_nat (norm_index c (Z.of_nat t2)))) as [->|Hne].
        -- rewrite list_lookup_insert_eq by lia.
           rewrite decide_True by lia. done.
        -- rewrite list_lookup_insert_ne by done.
           rewrite decide_False by lia. done.
    + rewrite lookup_app_r
        by (rewrite length_zip_with, length_take, length_drop; lia).
      rewrite length_zip_with, length_take, length_drop, lookup_drop.
      replace (lo + n + (i - lo - (n `min` (length l - lo)) `min` length lv))%nat
        with i by lia.
      rewrite decide_False by lia. done.
Qed.

(** Two nests of one shape with the same elements are equal. *)
Lemma nest_ext s x y :
  has_shape s x -> has_shape s y ->
  (forall p, in_shape p s -> nest_at p x = nest_at p y) -> x = y.
Proof.
  revert x y. induction s as [|n s IH]; intros x y Hx Hy E.
  - apply has_shape_nil_inv in Hx as [a ->].
    apply has_shape_nil_inv in Hy as [b ->].
    specialize (E [] ltac:(constructor)). cbn in E. congruence.
  - apply has_shape_cons_inv in Hx as (l & -> & Ll & Fl).
    apply has_shape_cons_inv in Hy as (l' & -> & Ll' & Fl').
    f_equal. apply list_eq_same_length with n; [done..|].
    intros i u v Hi Hu Hv. apply IH.
    + by apply (Forall_lookup_1 _ _ _ _ Fl Hu).
    + by apply (Forall_lookup_1 _ _ _ _ Fl' Hv).
    + intros p Hp. specialize (E (i :: p)). cbn [nest_at] in E.
      rewrite Hu, Hv in E. apply E. by constructor.
Qed.
End Columns.

Section AffineNd.
Context {T : Type} `{Scalar T}.

Lemma nest_at_array2 (rows : list (list T)) i j :
  nest_at [i; j] (data (np_array2 rows)) = rows !! i ≫= (fun r => r !! j).
Proof.
  unfold np_array2. cbn [data nest_at]. rewrite list_lookup_fmap.
  destruct (rows !! i) as [r|]; cbn; [|done].
  rewrite list_lookup_fmap. by destruct (r !! j).
Qed.

Lemma np_eye_array2 n :
  np_eye (T := T) n
  = np_array2 ((fun i => <[i := fone]> (replicate n fzero)) <$> seq 0 n).
Proof.
  unfold np_eye, np_diag. rewrite length_replicate. f_equal.
  apply list_eq. intros i. rewrite list_lookup_imap, list_lookup_fmap.
  destruct (decide (i < n)%nat) as [Hi|Hi].
  - rewrite lookup_replicate_2, lookup_seq_lt by done. done.
  - rewrite (lookup_ge_None_2 (replicate n fone) i)
      by (rewrite length_replicate; lia).
    rewrite lookup_seq_ge by lia. done.
Qed.

Lemma nest_at_eye n i j :
  (i < n)%nat -> (j < n)%nat ->
  nest_at [i; j] (data (np_eye (T := T) n))
  = Some (if decide (i = j) then fone else fzero).
Proof.
  intros Hi Hj. rewrite np_eye_array2, nest_at_array2, list_lookup_fmap.
  rewrite lookup_seq_lt by done. cbn.
  destruct (decide (i = j)) as [->|Hne].
  - apply list_lookup_insert_eq. by rewrite length_replicate.
  - rewrite list_lookup_insert_ne by done. by apply lookup_replicate_2.
Qed.

Lemma np_eye_wf n :
  (0 < n)%nat -> wf (np_eye (T := T) n) /\ shape (np_eye (T := T) n) = [n; n].
Proof.
  intros Hn. rewrite np_eye_array2.
  destruct (np_array2_wf ((fun i => <[i := fone]> (replicate n fzero)) <$> seq 0 n) n)
    as [Hw Hs].
  - destruct n; [lia|]. done.
  - apply Forall_fmap, Forall_true. intros i. cbn.
    by rewrite length_insert, length_replicate.
  - split; [done|]. by rewrite Hs, length_fmap, length_seq.
Qed.

Lemma index_shape_column sl t t2 lo n c :
  selects sl t lo n ->
  0 <= norm_index c (Z.of_nat t2) < Z.of_nat t2 ->
  index_shape [ISlice sl; IInt c] [t; t2] = Ok [n].
Proof.
  intros [E Hle] Hc. cbn [index_shape].
  destruct (Z.leb_spec 0 (norm_index c (Z.of_nat t2))); [|lia].
  destruct (Z.ltb_spec (norm_index c (Z.of_nat t2)) (Z.of_nat t2)); [|lia].
  cbn [andb rbind]. unfold slice_len. rewrite E. cbn [fst snd].
  do 2 f_equal. lia.
Qed.

(** The matrix built for an integer [r] from a square matrix. *)
Lemma to_affine_nd_square (r k : nat) (affine : ndarray T) :
  wf affine -> shape affine = [S k; S k] ->
  exists out,
    to_affine_nd (RInt (Z.of_nat r)) affine = Ok out /\
    wf out /\ shape out = [S r; S r] /\
    forall i j, (i < S r)%nat -> (j < S r)%nat ->
      nest_at [i; j] (data out)
      = if decide (i < r `min` k /\ j < r `min` k)%nat
        then nest_at [i; j] (data affine)
        else if decide (i < r `min` k /\ j = r)%nat
             then nest_at [i; k] (data affine)
             else Some (if decide (i = j) then fone else fzero).
Proof.
  intros Hwf Hs. destruct affine as [sa xa]. cbn [shape] in Hs. subst sa.
  unfold wf in Hwf. cbn [shape data] in *.
  set (d := (r `min` k)%nat).
  unfold to_affine_nd. cbn [ndim shape length Nat.eqb negb].
  destruct (Z.ltb_spec (Z.of_nat r) 0); [lia|]. cbn [rbind].
  replace (Z.to_nat (Z.of_nat r + 1)) with (S r) by lia.
  destruct (np_eye_wf (S r)) as [We Se]; [lia|].
  unfold np_len. rewrite Se. cbn [shape rbind].
  replace (Z.min (Z.of_nat (S r) - 1) (Z.of_nat (S k) - 1)) with (Z.of_nat d) by lia.
  set (sl := Slice None (Some (Z.of_nat d))).
  assert (forall t, (d <= t)%nat -> selects sl t 0 d) as Hsel.
  { intros t Ht. unfold selects, sl, slice_indices, adjust_bound.
    cbn [slice_start slice_stop from_option].
    destruct (Z.ltb_spec (Z.of_nat d) 0); [lia|]. split; [|lia].
    f_equal. lia. }
  assert (boxed [sl; sl] [S k; S k] [0; 0]%nat [d; d]) as Bk.
  { repeat constructor; apply Hsel; lia. }
  assert (boxed [sl; sl] [S r; S r] [0; 0]%nat [d; d]) as Br.
  { repeat constructor; apply Hsel; lia. }
  change [ISlice sl; ISlice sl] with (ISlice <$> [sl; sl]).
  (* the block *)
  unfold np_getitem at 1. cbn [shape data].
  rewrite (index_shape_boxed _ _ _ _ Bk). cbn [rbind].
  pose proof (index_data_has_shape _ _ _ _ xa Bk Hwf) as Hblock.
  set (block := index_data (ISlice <$> [sl; sl]) xa) in *.
  unfold np_setitem at 1. rewrite Se. rewrite (index_shape_boxed _ _ _ _ Br).
  cbn [rbind].
  unfold broadcast_to at 1. cbn [shape data length Nat.sub strip_unit_axes].
  rewrite (stretch_same [d; d] block) by done.
  pose proof (write_has_shape _ _ _ _ (data (np_eye (S r))) block Br
                ltac:(by rewrite <- Se) Hblock) as Hnew1.
  set (new1 := write (ISlice <$> [sl; sl]) (data (np_eye (S r))) block) in *.
  (* the last column *)
  assert (forall t : nat, 0 <= norm_index (-1) (Z.of_nat (S t)) < Z.of_nat (S t)
                          /\ Z.to_nat (norm_index (-1) (Z.of_nat (S t))) = t) as Hlast.
  { intros t. unfold norm_index. cbn [Z.ltb Z.compare]. lia. }
  pose proof Hwf as Hwf'.
  apply has_shape_cons_inv in Hwf' as (la & Ea & Lla & Fla).
  unfold np_getitem. cbn [shape data].
  rewrite (index_shape_column sl (S k) (S k) 0 d) by (apply Hsel || apply Hlast; lia).
  cbn [rbind]. rewrite Ea.
  pose proof (index_column_has_shape sl la (-1) 0 d (S k)
                ltac:(rewrite Lla; apply Hsel; lia) Fla (proj1 (Hlast k))) as Hcol.
  set (col := index_data [ISlice sl; IInt (-1)] (Node la)) in *.
  unfold np_setitem. cbn [shape data].
  rewrite (index_shape_column sl (S r) (S r) 0 d) by (apply Hsel || apply Hlast; lia).
  cbn [rbind]. unfold broadcast_to. cbn [shape data length Nat.sub strip_unit_axes].
  rewrite stretch_same by done.
  pose proof Hnew1 as Hnew1'.
  apply has_shape_cons_inv in Hnew1' as (l1 & E1 & Ll1 & Fl1). rewrite E1.
  pose proof Hcol as Hcol'.
  apply has_shape_cons_inv in Hcol' as (lv & Ev & Llv & Flv). rewrite Ev.
  destruct (write_column sl l1 lv (-1) 0 d (S r)
              ltac:(rewrite Ll1; apply Hsel; lia) Fl1 Llv Flv (proj1 (Hlast r)))
    as [Hout Hent].
  eexists. split; [done|]. unfold wf. cbn [shape data].
  split; [by rewrite Ll1 in Hout|]. split; [done|].
  intros i j Hi Hj. rewrite (Hent i j) by lia.
  rewrite (proj2 (Hlast r)). rewrite <- Ev, <- E1.
  destruct (decide ((0 <= i < 0 + d)%nat /\ j = r)) as [[Hid ->]|Hno].
  - rewrite decide_False by lia. rewrite decide_True by lia.
    subst col. rewrite (nest_at_index_column sl la (-1) 0 d (S k) (i - 0))
      by (try (rewrite Lla; apply Hsel); try apply Hlast; try done; lia).
    rewrite (proj2 (Hlast k)).
    by replace (i - 0 + 0)%nat with i by lia.
  - subst new1.
    rewrite (nest_at_write _ [S r; S r] [0; 0]%nat [d; d]);
      [|done|by rewrite <- Se|done|
       constructor; [lia|constructor; [lia|constructor]]].
    cbn [in_box].
    destruct (decide (i < d /\ j < d)%nat) as [[Hid Hjd]|Hnb].
    + rewrite !bool_decide_eq_true_2 by lia. cbn [andb].
      subst block.
      rewrite (nest_at_index_data _ [S k; S k] [0; 0]%nat [d; d]);
        [|done|done|
         cbn [zip_with]; constructor; [lia|constructor; [lia|constructor]]].
      cbn [zip_with]. rewrite Ea.
      replace (i - 0 + 0)%nat with i by lia.
      by replace (j - 0 + 0)%nat with j by lia.
    + rewrite decide_False by lia.
      assert (bool_decide (0 <= i < 0 + d)%nat && (bool_decide (0 <= j < 0 + d)%nat && true)
              = false) as ->.
      { destruct (decide (i < d)%nat).
        - rewrite (bool_decide_eq_false_2 (0 <= j < 0 + d)%nat) by lia.
          by rewrite andb_false_r.
        - by rewrite (bool_decide_eq_false_2 (0 <= i < 0 + d)%nat) by lia. }
      by apply nest_at_eye.
Qed.

(** X18. For an integer [r >= 0] and a square matrix of size [k + 1],
    [to_affine_nd] returns a matrix of size [r + 1] that fills its shape:
    with [d = min(r, k)], its top-left [d] x [d] block is that of the
    argument, the first [d] entries of its last column are those of the
    last column of the argument, and every other entry is that of the
    identity matrix. *)
Theorem to_affine_nd_fills (r k : nat) (affine : ndarray T) :
  wf affine -> shape affine = [S k; S k] ->
  exists out,
    to_affine_nd (RInt (Z.of_nat r)) affine = Ok out /\
    wf out /\ shape out = [S r; S r] /\
    forall i j, (i < S r)%nat -> (j < S r)%nat ->
      nest_at [i; j] (data out)
      = if decide (i < r `min` k /\ j < r `min` k)%nat
        then nest_at [i; j] (data affine)
        else if decide (i < r `min` k /\ j = r)%nat
             then nest_at [i; k] (data affine)
             else Some (if decide (i = j) then fone else fzero).
Proof. apply to_affine_nd_square. Qed.

Lemma affine_form_bottom_entries k (m : ndarray T) j :
  affine_form k m -> (j < S k)%nat ->
  nest_at [k; j] (data m) = Some (if decide (k = j) then fone else fzero).
Proof.
  intros (rows & -> & Lr & _) Hj. rewrite nest_at_array2.
  rewrite lookup_app_r by lia. rewrite Lr, Nat.sub_diag. cbn.
  destruct (decide (k = j)) as [<-|Hne].
  - rewrite lookup_app_r by (rewrite length_replicate; lia).
    by rewrite length_replicate, Nat.sub_diag.
  - rewrite lookup_app_l by (rewrite length_replicate; lia).
    apply lookup_replicate_2. lia.
Qed.

(** X19. Taking an affine matrix of [k] dimensions (bottom row
    [0, ..., 0, 1]) to [r >= k] dimensions and back to [k] returns the
    matrix unchanged. *)
Theorem to_affine_nd_round_trip (r k : nat) (m : ndarray T) :
  affine_form k m -> (k <= r)%nat ->
  (up <- to_affine_nd (RInt (Z.of_nat r)) m ;; to_affine_nd (RInt (Z.of_nat k)) up)
  = Ok m.
Proof.
  intros Hm Hkr. destruct (affine_form_shape k m Hm) as [Sm Wm].
  destruct (to_affine_nd_square r k m Wm Sm) as (up & -> & Wu & Su & Eu).
  cbn [rbind].
  destruct (to_affine_nd_square k r up Wu Su) as (out & -> & Wo & So & Eo).
  f_equal. destruct out as [so xo], m as [sm xm].
  unfold wf in *. cbn [shape data] in *. subst so sm. f_equal.
  apply (nest_ext [S k; S k]); [done..|].
  intros p Hp. inversion Hp as [|i n1 p1 s1 Hi Hp1]; subst.
  inversion Hp1 as [|j n2 p2 s2 Hj Hp2]; subst. inversion Hp2; subst.
  rewrite (Eo i j Hi Hj).
  replace (k `min` r)%nat with k by lia.
  destruct (decide (i < k /\ j < k)%nat) as [[Hik Hjk]|N1].
  { rewrite (Eu i j) by lia. replace (r `min` k)%nat with k by lia.
    by rewrite decide_True. }
  destruct (decide (i < k /\ j = k)%nat) as [[Hik ->]|N2].
  { rewrite (Eu i r) by lia. replace (r `min` k)%nat with k by lia.
    destruct (decide (i < k /\ r < k)%nat); [lia|].
    by rewrite decide_True. }
  assert (i = k) as -> by lia.
  symmetry. by apply (affine_form_bottom_entries k (NdArray [S k; S k] xm) j).
Qed.

(** X20. [to_affine_nd] raises a [ValueError] whenever [affine] is not
    two-dimensional, whatever [r] is; for a square matrix and an integer
    [r] it raises exactly when [r] is negative. *)
Theorem to_affine_nd_raises (affine : ndarray T) :
  (forall r, ndim affine <> 2%nat ->
     to_affine_nd r affine
     = Raise (ValueError "input affine must have two dimensions")) /\
  (forall k r, wf affine -> shape affine = [S k; S k] ->
     ((exists e, to_affine_nd (RInt r) affine = Raise e) <-> r < 0) /\
     (r < 0 -> to_affine_nd (RInt r) affine = Raise (ValueError "r must be postive."))).
Proof.
  split.
  - intros r Hn. unfold to_affine_nd.
    destruct (Nat.eqb_spec (ndim affine) 2); [done|]. done.
  - intros k r Hwf Hs.
    assert (r < 0 -> to_affine_nd (RInt r) affine
                     = Raise (ValueError "r must be postive.")) as Hneg.
    { intros Hr. unfold to_affine_nd, ndim. rewrite Hs. cbn [length Nat.eqb negb].
      destruct (Z.ltb_spec r 0); [done|lia]. }
    split; [|done]. split.
    + intros [e He]. destruct (Z.lt_ge_cases r 0) as [Hr|Hr]; [done|].
      destruct (to_affine_nd_square (Z.to_nat r) k affine Hwf Hs) as (out & Ho & _).
      rewrite Z2Nat.id in Ho by done. congruence.
    + intros Hr. rewrite (Hneg Hr). by eexists.
Qed.
End AffineNd.

Lemma to_affine_nd_fills_witness :
  exists out,
    to_affine_nd (H := Z_scalar) (RInt (Z.of_nat 3)) grid3 = Ok out /\
    wf out /\ shape out = [4; 4]%nat /\
    forall i j, (i < 4)%nat -> (j < 4)%nat ->
      nest_at [i; j] (data out)
      = if decide (i < 3 `min` 2 /\ j < 3 `min` 2)%nat
        then nest_at [i; j] (data grid3)
        else if decide (i < 3 `min` 2 /\ j = 3)%nat
             then nest_at [i; 2%nat] (data grid3)
             else Some (if decide (i = j) then 1 else 0).
Proof.
  apply (@to_affine_nd_fills Z Z_scalar 3 2 grid3).
  - unfold wf. simpl. repeat (split || constructor).
  - reflexivity.
Defined.

Lemma to_affine_nd_round_trip_witness :
  (up <- to_affine_nd (RInt (Z.of_nat 3))
           (np_array2 [[2; 0; 5]; [0; 3; 7]; [0; 0; 1]]%R) ;;
   to_affine_nd (RInt (Z.of_nat 2)) up)
  = Ok (np_array2 [[2; 0; 5]; [0; 3; 7]; [0; 0; 1]]%R).
Proof.
  apply (@to_affine_nd_round_trip R R_scalar 3 2
           (np_array2 [[2; 0; 5]; [0; 3; 7]; [0; 0; 1]]%R)).
  - exists [[2; 0; 5]; [0; 3; 7]]%R.
    split; [reflexivity|]. split; [reflexivity|]. by repeat constructor.
  - lia.
Defined.

(** ** is_empty *)

Lemma fold_max_bounds l x :
  let m := fold_left Z.max l x in
  (m = x \/ m ∈ l) /\ x <= m /\ Forall (fun y => y <= m) l.
Proof.
  revert x. induction l as [|y l IH]; intros x; cbn.
  { split; [by left|]. split; [lia|constructor]. }
  destruct (IH (Z.max x y)) as (Hin & Hle & Hall). split; [|split].
  - destruct Hin as [E|Hin]; [|right; by right].
    destruct (Z.max_spec x y) as [[_ E']|[_ E']]; rewrite E' in *.
    + right. rewrite E. by left.
    + by left.
  - lia.
  - constructor; [lia|done].
Qed.

Lemma fold_min_bounds l x :
  let m := fold_left Z.min l x in
  (m = x \/ m ∈ l) /\ m <= x /\ Forall (fun y => m <= y) l.
Proof.
  revert x. induction l as [|y l IH]; intros x; cbn.
  { split; [by left|]. split; [lia|constructor]. }
  destruct (IH (Z.min x y)) as (Hin & Hle & Hall). split; [|split].
  - destruct Hin as [E|Hin]; [|right; by right].
    destruct (Z.min_spec x y) as [[_ E']|[_ E']]; rewrite E' in *.
    + by left.
    + right. rewrite E. by left.
  - lia.
  - constructor; [lia|done].
Qed.

(** X21. On an array of integers [is_empty] raises the [ValueError] of
    the reduction when the array has no element, and otherwise returns
    [True] exactly when all its elements are equal. *)
Theorem is_empty_integers (img : ndarray Z) :
  (ravel (data img) = [] ->
   is_empty Z.max Z.min Z.gtb img
   = Raise (ValueError "zero-size array to reduction operation which has no identity")) /\
  (ravel (data img) <> [] ->
   exists b, is_empty Z.max Z.min Z.gtb img = Ok b /\
     (b = true <->
      forall x y, x ∈ ravel (data img) -> y ∈ ravel (data img) -> x = y)).
Proof.
  unfold is_empty, np_reduce. split.
  - by intros ->.
  - destruct (ravel (data img)) as [|x0 l]; [done|]. intros _. cbn [rbind].
    eexists. split; [done|].
    destruct (fold_max_bounds l x0) as (Imx & Lmx & Fmx).
    destruct (fold_min_bounds l x0) as (Imn & Lmn & Fmn).
    cbv zeta in *.
    set (mx := fold_left Z.max l x0) in *. set (mn := fold_left Z.min l x0) in *.
    split.
    + intros Hle x y Hx Hy.
      apply negb_true_iff in Hle.
      destruct (Z.gtb_spec mx mn) as [|Hle']; [done|]. clear Hle.
      assert (forall z, z ∈ x0 :: l -> mn <= z <= mx) as Hb.
      { intros z Hz. apply elem_of_cons in Hz as [->|Hz]; [lia|].
        apply list_elem_of_lookup in Hz as [i Hi].
        pose proof (Forall_lookup_1 _ _ _ _ Fmx Hi).
        pose proof (Forall_lookup_1 _ _ _ _ Fmn Hi). cbn in *. lia. }
      pose proof (Hb x Hx). pose proof (Hb y Hy). lia.
    + intros Heq.
      assert (mx ∈ x0 :: l) as Hmx.
      { destruct Imx as [->|?]; [by left|by right]. }
      assert (mn ∈ x0 :: l) as Hmn.
      { destruct Imn as [->|?]; [by left|by right]. }
      apply negb_true_iff.
      destruct (Z.gtb_spec mx mn) as [Hlt|]; [|done].
      rewrite (Heq mx mn Hmx Hmn) in Hlt. lia.
Qed.

(** A float that differs from itself is the NaN of the specification. *)
Lemma is_nan_Prim2SF x : is_nan x = true -> Prim2SF x = S754_nan.
Proof.
  unfold is_nan. rewrite FloatAxioms.eqb_spec. intros Hx.
  destruct (Prim2SF x) as [s|s| |s m e]; try done; exfalso.
  - destruct s; vm_compute in Hx; discriminate.
  - unfold SFeqb, SFcompare in Hx.
    rewrite Z.compare_refl, Pos.compare_cont_refl in Hx.
    destruct s; vm_compute in Hx; discriminate.
Qed.

Lemma leb_nan_l x y : is_nan x = true -> PrimFloat.leb x y = false.
Proof.
  intros Hx. rewrite FloatAxioms.leb_spec, (is_nan_Prim2SF x Hx). done.
Qed.

Lemma ltb_nan_r x y : is_nan y = true -> PrimFloat.ltb x y = false.
Proof.
  intros Hy. rewrite FloatAxioms.ltb_spec, (is_nan_Prim2SF y Hy).
  unfold SFltb, SFcompare. by destruct (Prim2SF x).
Qed.

Lemma fold_nan (f : float -> float -> float) l acc :
  (forall x y, is_nan x = true -> f x y = x) ->
  (forall x y, is_nan y = true -> is_nan (f x y) = true) ->
  is_nan acc = true \/ (exists y, y ∈ l /\ is_nan y = true) ->
  is_nan (fold_left f l acc) = true.
Proof.
  intros Hl Hr. revert acc. induction l as [|z l IH]; intros acc Hn; cbn.
  { destruct Hn as [?|(y & Hy & _)]; [done|]. by apply elem_of_nil in Hy. }
  apply IH. destruct Hn as [Ha|(y & Hy & Hny)].
  - left. by rewrite Hl.
  - apply elem_of_cons in Hy as [->|Hy].
    + left. by apply Hr.
    + right. by exists y.
Qed.

(** X22. On an array of float64 values [is_empty] returns [True] as soon
    as one element is a NaN, whatever the other elements are: the NaN is
    propagated to both the maximum and the minimum, and no comparison with
    a NaN holds. *)
Theorem is_empty_nan (img : ndarray float) x :
  x ∈ ravel (data img) -> is_nan x = true ->
  is_empty float_maximum float_minimum float_gt img = Ok true.
Proof.
  intros Hx Hn. unfold is_empty, np_reduce.
  destruct (ravel (data img)) as [|x0 l]; [by apply elem_of_nil in Hx|].
  cbn [rbind]. f_equal. apply negb_true_iff. unfold float_gt.
  apply ltb_nan_r. apply fold_nan.
  - intros a b Ha. unfold float_maximum. by rewrite Ha, orb_true_r.
  - intros a b Hb. unfold float_maximum.
    destruct (is_nan a) eqn:Ha; [by rewrite orb_true_r|].
    by rewrite (leb_nan_l b a Hb).
  - apply elem_of_cons in Hx as [->|Hx]; [by left|right; by exists x].
Qed.

Lemma is_empty_nan_witness :
  is_empty float_maximum float_minimum float_gt
    (NdArray [3%nat] (Node [Leaf 1%float; Leaf nan; Leaf 2%float]))
  = Ok true.
Proof.
  apply (is_empty_nan (NdArray [3%nat] (Node [Leaf 1%float; Leaf nan; Leaf 2%float]))
           nan).
  - cbn. right. left.
  - reflexivity.
Defined.

(** ** zero_margins *)

Lemma in_shape_nil_inv p : in_shape p [] -> p = [].
Proof. by inversion 1. Qed.

Lemma ravel_elem_of {V} s (x : nest V) v :
  has_shape s x ->
  (v ∈ ravel x <-> exists p, in_shape p s /\ nest_at p x = Some v).
Proof.
  revert x. induction s as [|n s IH]; intros x Hx.
  - apply has_shape_nil_inv in Hx as [a ->]. cbn [ravel]. split.
    + intros Hv. apply list_elem_of_singleton in Hv as ->.
      exists []. split; [constructor|done].
    + intros (p & Hp & Hv). apply in_shape_nil_inv in Hp as ->.
      cbn in Hv. injection Hv as ->. by left.
  - apply has_shape_cons_inv in Hx as (l & -> & Ll & Fl). cbn [ravel].
    rewrite list_elem_of_In, in_concat. split.
    + intros (r & Hr & Hv). apply list_elem_of_In in Hr, Hv.
      apply list_elem_of_fmap in Hr as (y & -> & Hy).
      apply list_elem_of_lookup in Hy as [i Hi].
      pose proof (Forall_lookup_1 _ _ _ _ Fl Hi) as Hs.
      apply (IH y Hs) in Hv as (p & Hp & Hv).
      exists (i :: p). split.
      * constructor; [|done]. apply lookup_lt_Some in Hi. lia.
      * cbn [nest_at]. by rewrite Hi.
    + intros (p & Hp & Hv). inversion Hp as [|i ? p' ? Hi Hp']; subst.
      cbn [nest_at] in Hv. destruct (l !! i) as [y|] eqn:Ey; [|done].
      pose proof (Forall_lookup_1 _ _ _ _ Fl Ey) as Hs.
      exists (ravel y). split.
      * apply list_elem_of_In, list_elem_of_fmap. exists y. split; [done|].
        by apply list_elem_of_lookup_2 in Ey.
      * apply list_elem_of_In, (IH y Hs). by exists p'.
Qed.

Lemma nest_at_in_shape {V} s (x : nest V) p v :
  has_shape s x -> nest_at p x = Some v -> in_shape p s.
Proof.
  revert x p. induction s as [|n s IH]; intros x p Hx Hv.
  - apply has_shape_nil_inv in Hx as [a ->]. destruct p; [constructor|done].
  - apply has_shape_cons_inv in Hx as (l & -> & Ll & Fl).
    destruct p as [|i p]; [done|]. cbn [nest_at] in Hv.
    destruct (l !! i) as [y|] eqn:Ey; [|done]. constructor.
    + apply lookup_lt_Some in Ey. lia.
    + apply (IH y); [|done]. by apply (Forall_lookup_1 _ _ _ _ Fl Ey).
Qed.

Section MarginFacts.
Context {V : Type} (truth : V -> bool).

(** [np.any] of a box of the image: some element of the box is true. *)
Lemma np_any_getitem (img : ndarray V) sls los rs :
  wf img -> boxed sls (shape img) los rs ->
  exists a, np_getitem img (ISlice <$> sls) = Ok a /\
    (np_any truth a = true <->
     exists p v, in_shape p rs /\
                 nest_at (zip_with Nat.add p los) (data img) = Some v /\
                 truth v = true).
Proof.
  intros Hwf Hb. unfold np_getitem. rewrite (index_shape_boxed _ _ _ _ Hb).
  cbn [rbind]. eexists. split; [done|]. unfold np_any. cbn [data].
  pose proof (index_data_has_shape _ _ _ _ (data img) Hb Hwf) as Hs.
  rewrite existsb_exists. split.
  - intros (v & Hv & Ht). apply list_elem_of_In in Hv.
    apply (ravel_elem_of rs _ v Hs) in Hv as (p & Hp & Hv).
    exists p, v. split; [done|]. split; [|done].
    by rewrite <- (nest_at_index_data sls (shape img) los rs).
  - intros (p & v & Hp & Hv & Ht). exists v. split; [|done].
    apply list_elem_of_In, (ravel_elem_of rs _ v Hs). exists p. split; [done|].
    by rewrite (nest_at_index_data sls (shape img) los rs).
Qed.

Lemma selects_all t : selects slice_all t 0 t.
Proof. split; [reflexivity|lia]. Qed.

Lemma selects_upto margin t :
  0 <= margin ->
  selects (Slice None (Some margin)) t 0 (Z.to_nat margin `min` t).
Proof.
  intros Hm. unfold selects, slice_indices, adjust_bound.
  cbn [slice_start slice_stop from_option].
  destruct (Z.ltb_spec margin 0); [lia|]. split; [f_equal; lia|lia].
Qed.

Lemma selects_from margin t :
  0 <= margin ->
  selects (Slice (Some (- margin)) None) t
    (if decide (margin = 0%Z) then 0 else t - Z.to_nat margin `min` t)%nat
    (if decide (margin = 0%Z) then t else Z.to_nat margin `min` t)%nat.
Proof.
  intros Hm. unfold selects, slice_indices, adjust_bound.
  cbn [slice_start slice_stop from_option].
  destruct (decide (margin = 0)) as [->|Hne].
  - destruct (Z.ltb_spec (- 0) 0); [lia|]. split; [f_equal; lia|lia].
  - destruct (Z.ltb_spec (- margin) 0); [|lia]. split; [f_equal; lia|lia].
Qed.

Lemma boxed_three s1 s2 s3 t1 t2 t3 l1 l2 l3 r1 r2 r3 :
  selects s1 t1 l1 r1 -> selects s2 t2 l2 r2 -> selects s3 t3 l3 r3 ->
  boxed [s1; s2; s3] [t1; t2; t3] [l1; l2; l3] [r1; r2; r3].
Proof. intros. repeat (constructor; [done|]). constructor. Qed.

(** The four tests of [zero_margins] on a three-dimensional image. *)
Lemma zero_margins_tests (img : ndarray V) margin c n1 n2 :
  wf img -> shape img = [c; n1; n2] -> 0 <= margin ->
  let m1 := (Z.to_nat margin `min` n1)%nat in
  let m2 := (Z.to_nat margin `min` n2)%nat in
  let lo1 := (if decide (margin = 0%Z) then 0 else n1 - m1)%nat in
  let lo2 := (if decide (margin = 0%Z) then 0 else n2 - m2)%nat in
  let w1 := (if decide (margin = 0%Z) then n1 else m1)%nat in
  let w2 := (if decide (margin = 0%Z) then n2 else m2)%nat in
  let hit los rs :=
    exists p v, in_shape p rs /\
                nest_at (zip_with Nat.add p los) (data img) = Some v /\
                truth v = true in
  exists a1 a2 a3 a4 : bool,
    zero_margins truth img margin = Ok (negb ((a1 || a2) || (a3 || a4))) /\
    (a1 = true <-> hit [0; 0; 0]%nat [c; n1; m2]) /\
    (a2 = true <-> hit [0; 0; lo2]%nat [c; n1; w2]) /\
    (a3 = true <-> hit [0; 0; 0]%nat [c; m1; n2]) /\
    (a4 = true <-> hit [0; lo1; 0]%nat [c; w1; n2]).
Proof.
  intros Hwf Hs Hm m1 m2 lo1 lo2 w1 w2 hit.
  set (all := slice_all). set (upto := Slice None (Some margin)).
  set (from := Slice (Some (- margin)) None).
  destruct (np_any_getitem img [all; all; upto] [0; 0; 0]%nat [c; n1; m2] Hwf)
    as (b1 & G1 & H1).
  { rewrite Hs. apply boxed_three; try apply selects_all.
    by apply selects_upto. }
  destruct (np_any_getitem img [all; all; from] [0; 0; lo2]%nat [c; n1; w2] Hwf)
    as (b2 & G2 & H2).
  { rewrite Hs. apply boxed_three; try apply selects_all.
    by apply selects_from. }
  destruct (np_any_getitem img [all; upto; all] [0; 0; 0]%nat [c; m1; n2] Hwf)
    as (b3 & G3 & H3).
  { rewrite Hs. apply boxed_three; try apply selects_all.
    by apply selects_upto. }
  destruct (np_any_getitem img [all; from; all] [0; lo1; 0]%nat [c; w1; n2] Hwf)
    as (b4 & G4 & H4).
  { rewrite Hs. apply boxed_three; try apply selects_all.
    by apply selects_from. }
  exists (np_any truth b1), (np_any truth b2), (np_any truth b3), (np_any truth b4).
  split; [|done].
  unfold zero_margins, any_of_either. cbv zeta.
  change [ISlice slice_all; ISlice slice_all; ISlice (Slice None (Some margin))]
    with (ISlice <$> [all; all; upto]).
  change [ISlice slice_all; ISlice slice_all; ISlice (Slice (Some (- margin)) None)]
    with (ISlice <$> [all; all; from]).
  change [ISlice slice_all; ISlice (Slice None (Some margin)); ISlice slice_all]
    with (ISlice <$> [all; upto; all]).
  change [ISlice slice_all; ISlice (Slice (Some (- margin)) None); ISlice slice_all]
    with (ISlice <$> [all; from; all]).
  rewrite G1, G2, G3, G4. cbn [rbind].
  destruct (np_any truth b1), (np_any truth b2), (np_any truth b3),
    (np_any truth b4); reflexivity.
Qed.

Lemma in_shape_three p c n1 n2 :
  in_shape p [c; n1; n2] ->
  exists k i j, p = [k; i; j] /\ (k < c)%nat /\ (i < n1)%nat /\ (j < n2)%nat.
Proof.
  intros Hp. inversion Hp as [|k ? p1 ? Hk Hp1]; subst.
  inversion Hp1 as [|i ? p2 ? Hi Hp2]; subst.
  inversion Hp2 as [|j ? p3 ? Hj Hp3]; subst. inversion Hp3; subst.
  by exists k, i, j.
Qed.

Lemma in_shape_three_intro k i j c n1 n2 :
  (k < c)%nat -> (i < n1)%nat -> (j < n2)%nat -> in_shape [k; i; j] [c; n1; n2].
Proof. intros. repeat (constructor; [done|]). constructor. Qed.

Lemma np_any_whole (img : ndarray V) :
  wf img ->
  (np_any truth img = true <->
   exists p v, in_shape p (shape img) /\ nest_at p (data img) = Some v /\
               truth v = true).
Proof.
  intros Hwf. unfold np_any. rewrite existsb_exists. split.
  - intros (v & Hv & Ht). apply list_elem_of_In in Hv.
    apply (ravel_elem_of (shape img) _ v Hwf) in Hv as (p & Hp & Hv).
    by exists p, v.
  - intros (p & v & Hp & Hv & Ht). exists v. split; [|done].
    apply list_elem_of_In, (ravel_elem_of (shape img) _ v Hwf). by exists p.
Qed.

(** X23. With [margin = 0] the slice [-margin:] is [0:], the whole axis,
    so on a three-dimensional image [zero_margins] does not return [True]
    for every image: it returns [True] exactly when no element of the
    image is non-zero. *)
Theorem zero_margins_no_margin (img : ndarray V) c n1 n2 :
  wf img -> shape img = [c; n1; n2] ->
  zero_margins truth img 0 = Ok (negb (np_any truth img)).
Proof.
  intros Hwf Hs.
  destruct (zero_margins_tests img 0 c n1 n2 Hwf Hs ltac:(lia))
    as (a1 & a2 & a3 & a4 & -> & H1 & H2 & H3 & H4).
  cbv zeta in *. rewrite !decide_True in H2, H4 by done.
  pose proof (np_any_whole img Hwf) as Hany. rewrite Hs in Hany.
  assert (forall a los,
            los = [0; 0; 0]%nat ->
            (a = true <->
             exists p v, in_shape p [c; n1; n2] /\
               nest_at (zip_with Nat.add p los) (data img) = Some v /\
               truth v = true) ->
            a = np_any truth img) as Hsame.
  { intros a los -> Ha. apply eq_true_iff_eq. rewrite Ha, Hany.
    split; intros (p & v & Hp & Hv & Ht); exists p, v;
      (split; [done|]); (split; [|done]);
      destruct (in_shape_three _ _ _ _ Hp) as (k & i & j & -> & _);
      cbn [zip_with] in *; by rewrite !Nat.add_0_r in *. }
  assert (forall a rs,
            (exists n, rs = [c; n; 0%nat] \/ rs = [c; 0%nat; n]) ->
            (a = true <->
             exists p v, in_shape p rs /\
               nest_at (zip_with Nat.add p [0; 0; 0]%nat) (data img) = Some v /\
               truth v = true) ->
            a = false) as Hnone.
  { intros a rs [n Hrs] Ha. apply not_true_is_false. intros Hat.
    apply Ha in Hat as (p & v & Hp & _).
    destruct Hrs as [-> | ->];
      destruct (in_shape_three _ _ _ _ Hp) as (k & i & j & _ & _ & ? & ?); lia. }
  rewrite (Hnone a1 [c; n1; (Z.to_nat 0 `min` n2)%nat]); [|by exists n1; left|done].
  rewrite (Hnone a3 [c; (Z.to_nat 0 `min` n1)%nat; n2]); [|by exists n2; right|done].
  rewrite (Hsame a2 [0; 0; 0]%nat eq_refl H2), (Hsame a4 [0; 0; 0]%nat eq_refl H4).
  by destruct (np_any truth img).
Qed.

(** X24. On a three-dimensional image that fills its shape and for a
    positive [margin], [zero_margins] returns [True] exactly when every
    element within [margin] indices of an edge in dimension 1 or in
    dimension 2 is zero (when [margin] exceeds half an axis, that is every
    element). *)
Theorem zero_margins_positive (img : ndarray V) margin c n1 n2 :
  wf img -> shape img = [c; n1; n2] -> 0 < margin ->
  exists b,
    zero_margins truth img margin = Ok b /\
    (b = true <->
     forall k i j v,
       nest_at [k; i; j] (data img) = Some v ->
       Z.of_nat i < margin \/ Z.of_nat n1 - margin <= Z.of_nat i \/
       Z.of_nat j < margin \/ Z.of_nat n2 - margin <= Z.of_nat j ->
       truth v = false).
Proof.
  intros Hwf Hs Hm.
  destruct (zero_margins_tests img margin c n1 n2 Hwf Hs ltac:(lia))
    as (a1 & a2 & a3 & a4 & -> & H1 & H2 & H3 & H4).
  cbv zeta in *. rewrite !decide_False in H2, H4 by lia.
  set (m1 := (Z.to_nat margin `min` n1)%nat) in *.
  set (m2 := (Z.to_nat margin `min` n2)%nat) in *.
  eexists. split; [done|]. split.
  - intros Hb k i j v Hv Hedge.
    apply negb_true_iff in Hb. apply orb_false_iff in Hb as [Hb12 Hb34].
    apply orb_false_iff in Hb12 as [Hb1 Hb2].
    apply orb_false_iff in Hb34 as [Hb3 Hb4].
    apply not_true_is_false. intros Ht.
    pose proof (nest_at_in_shape _ _ _ _ Hwf Hv) as Hp. rewrite Hs in Hp.
    destruct (in_shape_three _ _ _ _ Hp) as (k' & i' & j' & [= <- <- <-] & Hk & Hi & Hj).
    destruct Hedge as [Hi1|[Hi2|[Hj1|Hj2]]].
    + assert (a3 = true) as E; [|congruence]. apply H3.
      exists [k; i; j], v. split; [apply in_shape_three_intro; lia|].
      cbn [zip_with]. by rewrite !Nat.add_0_r.
    + assert (a4 = true) as E; [|congruence]. apply H4.
      exists [k; (i - (n1 - m1))%nat; j], v.
      split; [apply in_shape_three_intro; lia|].
      cbn [zip_with]. rewrite !Nat.add_0_r.
      by replace (i - (n1 - m1) + (n1 - m1))%nat with i by lia.
    + assert (a1 = true) as E; [|congruence]. apply H1.
      exists [k; i; j], v. split; [apply in_shape_three_intro; lia|].
      cbn [zip_with]. by rewrite !Nat.add_0_r.
    + assert (a2 = true) as E; [|congruence]. apply H2.
      exists [k; i; (j - (n2 - m2))%nat], v.
      split; [apply in_shape_three_intro; lia|].
      cbn [zip_with]. rewrite !Nat.add_0_r.
      by replace (j - (n2 - m2) + (n2 - m2))%nat with j by lia.
  - intros Hzero. apply negb_true_iff.
    assert (forall a los rs,
              (a = true <->
               exists p v, in_shape p rs /\
                 nest_at (zip_with Nat.add p los) (data img) = Some v /\
                 truth v = true) ->
              (forall k i j, in_shape [k; i; j] rs ->
                 exists k' i' j', zip_with Nat.add [k; i; j] los = [k'; i'; j'] /\
                   (Z.of_nat i' < margin \/ Z.of_nat n1 - margin <= Z.of_nat i' \/
                    Z.of_nat j' < margin \/ Z.of_nat n2 - margin <= Z.of_nat j')) ->
              length rs = 3%nat ->
              a = false) as Hnone.
    { intros a los rs Ha Hpos Hl. apply not_true_is_false. intros Hat.
      apply Ha in Hat as (p & v & Hp & Hv & Ht).
      destruct rs as [|r1 [|r2 [|r3 [|]]]]; try done.
      destruct (in_shape_three _ _ _ _ Hp) as (k & i & j & -> & _).
      destruct (Hpos k i j Hp) as (k' & i' & j' & E & Hedge). rewrite E in Hv.
      rewrite (Hzero k' i' j' v Hv Hedge) in Ht. done. }
    rewrite (Hnone a1 _ _ H1), (Hnone a2 _ _ H2), (Hnone a3 _ _ H3),
      (Hnone a4 _ _ H4); try done.
    + intros k i j Hp. destruct (in_shape_three _ _ _ _ Hp)
        as (? & ? & ? & [= <- <- <-] & Hk & Hi & Hj).
      eexists _, _, _. split; [reflexivity|]. lia.
    + intros k i j Hp. destruct (in_shape_three _ _ _ _ Hp)
        as (? & ? & ? & [= <- <- <-] & Hk & Hi & Hj).
      eexists _, _, _. split; [reflexivity|]. lia.
    + intros k i j Hp. destruct (in_shape_three _ _ _ _ Hp)
        as (? & ? & ? & [= <- <- <-] & Hk & Hi & Hj).
      eexists _, _, _. split; [reflexivity|]. lia.
    + intros k i j Hp. destruct (in_shape_three _ _ _ _ Hp)
        as (? & ? & ? & [= <- <- <-] & Hk & Hi & Hj).
      eexists _, _, _. split; [reflexivity|]. lia.
Qed.
End MarginFacts.

Example zero_margins_framed :
  zero_margins nonzero framed 1 = Ok true /\
  zero_margins nonzero framed 2 = Ok false /\
  zero_margins nonzero framed 0 = Ok false.
Proof. repeat split; reflexivity. Qed.

Lemma framed_wf : wf framed.
Proof. unfold wf. simpl. repeat (split || constructor). Qed.

Lemma zero_margins_no_margin_witness :
  zero_margins nonzero framed 0 = Ok (negb (np_any nonzero framed)).
Proof.
  apply (zero_margins_no_margin nonzero framed 1 3 3); [exact framed_wf|reflexivity].
Defined.

Lemma zero_margins_positive_witness :
  exists b,
    zero_margins nonzero framed 1 = Ok b /\
    (b = true <->
     forall k i j v,
       nest_at [k; i; j] (data framed) = Some v ->
       Z.of_nat i < 1 \/ Z.of_nat 3 - 1 <= Z.of_nat i \/
       Z.of_nat j < 1 \/ Z.of_nat 3 - 1 <= Z.of_nat j ->
       nonzero v = false).
Proof.
  apply (zero_margins_positive nonzero framed 1 1 3 3);
    [exact framed_wf|reflexivity|lia].
Defined.

(** ** one_hot *)

Lemma ravel_nest_map {V W} (f : V -> W) s (x : nest V) :
  has_shape s x -> ravel (nest_map f x) = f <$> ravel x.
Proof.
  revert x. induction s as [|n s IH]; intros x Hx.
  - apply has_shape_nil_inv in Hx as [a ->]. done.
  - apply has_shape_cons_inv in Hx as (l & -> & _ & Fl). cbn [nest_map ravel].
    induction Fl as [|y l Hy _ IHl]; [done|].
    rewrite !fmap_cons. cbn [concat]. rewrite fmap_app, (IH y Hy). f_equal.
    exact IHl.
Qed.

Lemma chunks_concat {V} k (bs : list (list V)) :
  Forall (fun b => length b = k) bs -> chunks (length bs) k (concat bs) = bs.
Proof.
  induction 1 as [|b bs Hb _ IH]; [done|]. cbn [length chunks concat].
  rewrite take_app_length' by done. rewrite drop_app_length' by done.
  by rewrite IH.
Qed.

Lemma chunks_singletons {V} (l : list V) :
  chunks (length l) 1 l = (fun e => [e]) <$> l.
Proof.
  induction l as [|e l IH]; [done|].
  cbn [length chunks fmap list_fmap]. f_equal. exact IH.
Qed.

Lemma mapM_fmap_Some {X Y Z'} (f : Y -> option Z') (h : X -> Y) (k : X -> Z')
    (l : list X) :
  Forall (fun y => f (h y) = Some (k y)) l -> mapM f (h <$> l) = Some (k <$> l).
Proof.
  induction 1 as [|y l Hy _ IH]; [done|]. cbn. rewrite Hy. cbn.
  rewrite IH. done.
Qed.

Lemma size_of_snoc s n : size_of (s ++ [n]) = size_of s * Z.of_nat n.
Proof.
  induction s as [|m s IH].
  - cbn. lia.
  - change (size_of ((m :: s) ++ [n])) with (Z.of_nat m * size_of (s ++ [n])).
    change (size_of (m :: s)) with (Z.of_nat m * size_of s). rewrite IH. ring.
Qed.

Lemma concat_fmap_length {V W} (g : V -> list W) n (l : list V) :
  (forall v, length (g v) = n) -> length (concat (g <$> l)) = (length l * n)%nat.
Proof.
  intros Hg. induction l as [|v l IH]; [done|].
  cbn. rewrite length_app, Hg, IH. lia.
Qed.

(** Arranging the rows of the elements of [x] in the shape of [x] with one
    more axis puts each row in the place of its element. *)
Lemma unravel_expand {V W} (g : V -> list W) n s (x : nest V) :
  (forall v, length (g v) = n) -> has_shape s x ->
  unravel (s ++ [n]) (concat (g <$> ravel x)) = Some (nest_expand g x).
Proof.
  intros Hg. revert x. induction s as [|m s IH]; intros x Hx.
  - apply has_shape_nil_inv in Hx as [v ->]. cbn [ravel fmap list_fmap concat app].
    rewrite app_nil_r. cbn [unravel nest_expand size_of fold_right].
    change (Z.to_nat 1) with 1%nat. rewrite <- (Hg v) at 1.
    rewrite chunks_singletons.
    rewrite (mapM_fmap_Some _ _ Leaf); [done|]. by apply Forall_true.
  - apply has_shape_cons_inv in Hx as (l & -> & Ll & Fl).
    cbn [ravel nest_expand]. rewrite <- app_comm_cons. cbn [unravel].
    assert (concat (g <$> concat (ravel <$> l))
            = concat ((fun y => concat (g <$> ravel y)) <$> l)) as ->.
    { clear. induction l as [|y l IH]; [done|].
      cbn. rewrite fmap_app, concat_app. by rewrite IH. }
    assert (chunks m (Z.to_nat (size_of (s ++ [n])))
              (concat ((fun y => concat (g <$> ravel y)) <$> l))
            = (fun y => concat (g <$> ravel y)) <$> l) as ->.
    { rewrite <- Ll. rewrite <- (length_fmap (fun y => concat (g <$> ravel y)) l) at 1.
      apply chunks_concat. apply Forall_fmap.
      apply (Forall_weaken (has_shape s)); [exact Fl|]. intros y Hy. cbn.
      rewrite (concat_fmap_length g n) by done.
      pose proof (ravel_length s y Hy) as Hr. rewrite size_of_snoc. lia. }
    rewrite (mapM_fmap_Some _ _ (nest_expand g)); [done|].
    apply (Forall_weaken (has_shape s)); [exact Fl|]. intros y Hy. by apply IH.
Qed.

Lemma nest_expand_has_shape {V W} (g : V -> list W) n s (x : nest V) :
  (forall v, length (g v) = n) -> has_shape s x ->
  has_shape (s ++ [n]) (nest_expand g x).
Proof.
  intros Hg. revert x. induction s as [|m s IH]; intros x Hx.
  - apply has_shape_nil_inv in Hx as [v ->]. cbn. split; [by rewrite length_fmap|].
    apply Forall_fmap. by apply Forall_true.
  - apply has_shape_cons_inv in Hx as (l & -> & Ll & Fl).
    cbn [nest_expand]. rewrite <- app_comm_cons. apply has_shape_cons.
    split; [by rewrite length_fmap|]. apply Forall_fmap.
    apply (Forall_weaken (has_shape s)); [exact Fl|]. intros y Hy. by apply IH.
Qed.

Lemma nest_at_expand {V W} (g : V -> list W) s (x : nest V) p v j :
  has_shape s x -> nest_at p x = Some v ->
  nest_at (p ++ [j]) (nest_expand g x) = g v !! j.
Proof.
  revert x p. induction s as [|m s IH]; intros x p Hx Hv.
  - apply has_shape_nil_inv in Hx as [a ->].
    destruct p; [|done]. cbn in Hv. injection Hv as ->.
    cbn. rewrite list_lookup_fmap. by destruct (g v !! j).
  - apply has_shape_cons_inv in Hx as (l & -> & Ll & Fl).
    destruct p as [|i p]; [done|]. cbn [nest_at] in Hv.
    destruct (l !! i) as [y|] eqn:Ey; [|done].
    rewrite <- app_comm_cons. cbn [nest_expand nest_at].
    rewrite list_lookup_fmap, Ey. cbn.
    apply IH; [|done]. by apply (Forall_lookup_1 _ _ _ _ Fl Ey).
Qed.

Lemma rmapM_ok {X Y} (f : X -> result Y) (g : X -> Y) (l : list X) :
  Forall (fun x => f x = Ok (g x)) l -> rmapM f l = Ok (g <$> l).
Proof.
  induction 1 as [|x l Hx _ IH]; [done|]. cbn [rmapM]. rewrite Hx. cbn [rbind].
  rewrite IH. done.
Qed.

(** Taking rows of the identity matrix at indices inside it. *)
Lemma np_take_eye n (idx : list Z) :
  (0 < n)%nat -> Forall (fun i => 0 <= i < Z.of_nat n) idx ->
  np_take (np_eye (H := Z_scalar) n) idx
  = Ok (NdArray [length idx; n]
          (Node ((fun i => Node (Leaf <$> <[Z.to_nat i := 1]> (replicate n 0)))
                   <$> idx))).
Proof.
  intros Hn Hidx. unfold np_take.
  destruct (np_eye_wf (H := Z_scalar) n Hn) as [_ ->].
  rewrite np_eye_array2. cbn [np_array2 data].
  destruct (Z.eqb_spec (Z.of_nat (length idx) * size_of [n]) 0) as [E|_].
  { destruct idx as [|i idx]; [done|]. cbn in E. lia. }
  rewrite (rmapM_ok _ (fun i => Node (Leaf <$> <[Z.to_nat i := 1]> (replicate n 0))));
    [done|].
  apply (Forall_weaken _ _ _ Hidx). intros i Hi. cbv zeta. unfold norm_index.
  destruct (Z.ltb_spec i 0); [lia|].
  destruct (Z.leb_spec 0 i); [|lia].
  destruct (Z.ltb_spec i (Z.of_nat n)); [|lia]. cbn [andb].
  rewrite !list_lookup_fmap, lookup_seq_lt by lia. done.
Qed.

(** X25. For labels that fill their shape and a positive [num_classes],
    [one_hot] returns an array that fills the shape of the labels extended
    by a last axis of length [num_classes]; the vector at the place of a
    label [x] is 1 at index [x mod num_classes] (the non-negative remainder,
    also for a negative label) and 0 elsewhere. *)
Theorem one_hot_vectors (labels : ndarray Z) (num_classes : Z) :
  wf labels -> 0 < num_classes ->
  exists out,
    one_hot labels num_classes = Ok out /\
    shape out = shape labels ++ [Z.to_nat num_classes] /\
    wf out /\
    forall p x j,
      nest_at p (data labels) = Some x -> (j < Z.to_nat num_classes)%nat ->
      nest_at (p ++ [j]) (data out)
      = Some (if decide (Z.of_nat j = x `mod` num_classes) then 1 else 0).
Proof.
  intros Hwf Hk. destruct labels as [s x]. unfold wf in Hwf. cbn [shape data] in *.
  set (n := Z.to_nat num_classes).
  set (g := fun v : Z => <[Z.to_nat (v `mod` num_classes) := 1]> (replicate n 0)).
  assert (forall v, length (g v) = n) as Hg.
  { intros v. unfold g. by rewrite length_insert, length_replicate. }
  exists (NdArray (s ++ [n]) (nest_expand g x)). split; [|split; [done|split]].
  - unfold one_hot, np_eye_int. cbn [shape data].
    destruct (Z.ltb_spec num_classes 0); [lia|]. cbn [rbind]. fold n.
    rewrite (ravel_nest_map _ s x Hwf).
    rewrite np_take_eye; [|lia|].
    2:{ apply Forall_fmap, Forall_true. intros v. cbn. unfold np_mod.
        destruct (Z.eqb_spec num_classes 0); [lia|].
        pose proof (Z.mod_pos_bound v num_classes Hk). lia. }
    cbn [rbind]. unfold np_reshape. cbn [shape data].
    rewrite decide_True.
    2:{ rewrite size_of_snoc. cbn [size_of fold_right].
        rewrite length_fmap. pose proof (ravel_length s x Hwf). lia. }
    cbn [ravel]. rewrite <- !list_fmap_compose.
    assert (ravel ∘ (fun i => Node (Leaf <$> <[Z.to_nat i := 1]> (replicate n 0)))
              ∘ (fun x0 => np_mod x0 num_classes) <$> ravel x
            = g <$> ravel x) as ->.
    { apply list_fmap_ext. intros i v _. unfold compose.
      rewrite ravel_leaves. unfold g, np_mod.
      by destruct (Z.eqb_spec num_classes 0); [lia|]. }
    by rewrite (unravel_expand g n s x Hg Hwf).
  - unfold wf. cbn [shape data]. by apply nest_expand_has_shape.
  - intros p v j Hv Hj. cbn [data].
    rewrite (nest_at_expand g s x p v j Hwf Hv). unfold g.
    pose proof (Z.mod_pos_bound v num_classes Hk).
    destruct (decide (Z.of_nat j = v `mod` num_classes)) as [E|E].
    + rewrite <- E, Nat2Z.id. apply list_lookup_insert_eq.
      by rewrite length_replicate.
    + rewrite list_lookup_insert_ne by lia. by apply lookup_replicate_2.
Qed.

Lemma one_hot_vectors_witness :
  exists out,
    one_hot vec3' 2 = Ok out /\
    shape out = shape vec3' ++ [Z.to_nat 2] /\
    wf out /\
    forall p x j,
      nest_at p (data vec3') = Some x -> (j < Z.to_nat 2)%nat ->
      nest_at (p ++ [j]) (data out)
      = Some (if decide (Z.of_nat j = x `mod` 2) then 1 else 0).
Proof.
  apply (one_hot_vectors vec3' 2); [|lia].
  unfold wf. simpl. split; [reflexivity|]. repeat constructor.
Defined.

Example one_hot_example :
  one_hot vec3' 3
  = Ok (np_array2 [[0; 1; 0]; [0; 1; 0]; [0; 0; 1]]).
Proof. reflexivity. Qed.

Lemma concat_nils {X Y} (l : list X) : concat ((fun _ => @nil Y) <$> l) = [].
Proof. induction l as [|x l IH]; [done|]. exact IH. Qed.

Lemma ravel_hollow_rows {V} k : ravel (hollow (V := V) [k; 0%nat]) = [].
Proof.
  cbn [hollow replicate ravel]. induction k as [|k IH]; [done|]. exact IH.
Qed.

(** X26. [one_hot] raises the [ValueError] of [np.eye] for a negative
    [num_classes].  For [num_classes = 0] it does not raise, although every
    label is then the index 0 of an identity matrix without rows: the
    result of the indexing has no element, so numpy does not check the
    indices, and [one_hot] returns the array without elements whose shape
    is that of the labels extended by a last axis of length 0. *)
Theorem one_hot_no_class (labels : ndarray Z) (num_classes : Z) :
  (num_classes < 0 ->
   one_hot labels num_classes
   = Raise (ValueError "negative dimensions are not allowed")) /\
  (num_classes = 0 -> wf labels ->
   exists out, one_hot labels num_classes = Ok out /\
               shape out = shape labels ++ [0%nat] /\
               wf out /\ ravel (data out) = []).
Proof.
  split.
  - intros Hk. unfold one_hot, np_eye_int.
    destruct (Z.ltb_spec num_classes 0); [done|lia].
  - intros -> Hwf. destruct labels as [s x]. unfold wf in Hwf.
    cbn [shape data] in *.
    unfold one_hot, np_eye_int. cbn [rbind Z.ltb Z.compare Z.to_nat shape data].
    rewrite (ravel_nest_map _ s x Hwf).
    change (Z.to_nat 0) with 0%nat.
    unfold np_take. cbn [np_eye np_diag np_array2 replicate imap shape data length
      list.head default fmap list_fmap].
    change (size_of [0%nat]) with 0. rewrite Z.mul_0_r. cbn [Z.eqb rbind].
    unfold np_reshape. cbn [shape data].
    rewrite decide_True by (rewrite size_of_snoc; cbn; lia).
    rewrite ravel_hollow_rows.
    pose proof (unravel_expand (fun _ : Z => @nil Z) 0 s x ltac:(done) Hwf) as Hu.
    rewrite concat_nils in Hu. rewrite Hu.
    assert (has_shape (s ++ [0%nat]) (nest_expand (fun _ : Z => @nil Z) x)) as Hs
      by (by apply nest_expand_has_shape).
    eexists. split; [done|]. split; [done|]. split; [done|]. cbn [data].
    pose proof (ravel_length _ _ Hs) as Hl. rewrite size_of_snoc in Hl.
    destruct (ravel (nest_expand (fun _ : Z => []) x)) as [|e l]; [done|].
    cbn [length] in Hl. lia.
Qed.

(** Three labels and no class: an array of shape (3, 0). *)
Example one_hot_no_class_example :
  one_hot vec3' 0 = Ok (NdArray [3; 0]%nat (Node [Node []; Node []; Node []])).
Proof. reflexivity. Qed.

(** ** img_bounds *)

Example img_bounds_framed :
  img_bounds nonzero (NdArray [3; 3]%nat
                        (Node [Node [Leaf 0; Leaf 0; Leaf 0];
                               Node [Leaf 0; Leaf 0; Leaf 7];
                               Node [Leaf 0; Leaf 2; Leaf 0]]))
  = Ok (vector [1; 2; 1; 2]).
Proof. reflexivity. Qed.

Lemma nest_at_nest_map {V W} (f : V -> W) s (x : nest V) p :
  has_shape s x -> in_shape p s -> nest_at p (nest_map f x) = f <$> nest_at p x.
Proof.
  revert x p. induction s as [|n s IH]; intros x p Hx Hp.
  - apply has_shape_nil_inv in Hx as [a ->]. by inversion Hp.
  - apply has_shape_cons_inv in Hx as (l & -> & Ll & Fl).
    inversion Hp as [|i ? p' ? Hi Hp']; subst. cbn [nest_map nest_at].
    rewrite list_lookup_fmap.
    destruct (l !! i) as [y|] eqn:Ey; [|done]. cbn.
    apply IH; [|done]. by apply (Forall_lookup_1 _ _ _ _ Fl Ey).
Qed.

Lemma nest_at_defined {V} s (x : nest V) p :
  has_shape s x -> in_shape p s -> exists v, nest_at p x = Some v.
Proof.
  revert x p. induction s as [|n s IH]; intros x p Hx Hp.
  - apply has_shape_nil_inv in Hx as [a ->]. inversion Hp. by exists a.
  - apply has_shape_cons_inv in Hx as (l & -> & Ll & Fl).
    inversion Hp as [|i ? p' ? Hi Hp']; subst. cbn [nest_at].
    destruct (lookup_lt_is_Some_2 l i ltac:(lia)) as [y Ey]. rewrite Ey.
    apply IH; [|done]. by apply (Forall_lookup_1 _ _ _ _ Fl Ey).
Qed.

Lemma nest_at_or s x y p :
  has_shape s x -> has_shape s y -> in_shape p s ->
  exists a b, nest_at p x = Some a /\ nest_at p y = Some b /\
              nest_at p (nest_or x y) = Some (a || b).
Proof.
  revert x y p. induction s as [|n s IH]; intros x y p Hx Hy Hp.
  - apply has_shape_nil_inv in Hx as [a ->].
    apply has_shape_nil_inv in Hy as [b ->]. inversion Hp. by exists a, b.
  - apply has_shape_cons_inv in Hx as (l & -> & Ll & Fl).
    apply has_shape_cons_inv in Hy as (k & -> & Lk & Fk).
    inversion Hp as [|i ? p' ? Hi Hp']; subst. cbn [nest_or nest_at].
    rewrite lookup_zip_with.
    destruct (lookup_lt_is_Some_2 l i ltac:(lia)) as [u Eu].
    destruct (lookup_lt_is_Some_2 k i ltac:(lia)) as [v Ev].
    rewrite Eu, Ev. cbn.
    apply IH; [| |done].
    + by apply (Forall_lookup_1 _ _ _ _ Fl Eu).
    + by apply (Forall_lookup_1 _ _ _ _ Fk Ev).
Qed.

(** An entry of the elementwise [or] of several arrays is true exactly when
    it is true in one of them. *)
Lemma nest_at_fold_or s l acc p :
  has_shape s acc -> Forall (has_shape s) l -> in_shape p s ->
  exists b, nest_at p (fold_left nest_or l acc) = Some b /\
    (b = true <->
     nest_at p acc = Some true \/ exists y, y ∈ l /\ nest_at p y = Some true).
Proof.
  intros Hacc F Hp. revert acc Hacc.
  induction F as [|y l Hy _ IH]; intros acc Hacc.
  - destruct (nest_at_defined s acc p Hacc Hp) as [b Hb]. exists b.
    split; [done|]. rewrite Hb. split.
    + intros ->. by left.
    + intros [[= ->]|(y & Hy & _)]; [done|]. by apply elem_of_nil in Hy.
  - cbn [fold_left].
    destruct (IH (nest_or acc y) (nest_or_has_shape _ _ _ Hacc Hy)) as (b & Hb & Hiff).
    exists b. split; [done|]. rewrite Hiff.
    destruct (nest_at_or s acc y p Hacc Hy Hp) as (a & c & Ha & Hc & ->).
    rewrite Ha. split.
    + intros [[= E]|(z & Hz & Hzt)].
      * apply orb_true_iff in E as [-> | ->]; [by left|].
        right. exists y. split; [by left|done].
      * right. exists z. split; [by right|done].
    + intros [[= ->]|(z & Hz & Hzt)]; [by left|].
      apply elem_of_cons in Hz as [->|Hz].
      * left. rewrite Hc in Hzt. injection Hzt as ->. by rewrite orb_true_r.
      * right. by exists z.
Qed.

Section AnyAxes.
Context {V : Type} (truth : V -> bool).

(** [np.any(a, axis=0)], entry by entry. *)
Lemma np_any_axis0_entries (a : ndarray V) c spatial :
  wf a -> shape a = c :: spatial ->
  exists x, np_any_axis0 truth a = Ok (NdArray spatial x) /\ has_shape spatial x /\
    forall p, in_shape p spatial ->
      exists b, nest_at p x = Some b /\
        (b = true <->
         exists k v, nest_at (k :: p) (data a) = Some v /\ truth v = true).
Proof.
  intros Hwf Hs. unfold wf in Hwf. unfold np_any_axis0. rewrite Hs in *.
  apply has_shape_cons_inv in Hwf as (chans & -> & _ & F).
  assert (Forall (has_shape spatial) (nest_map truth <$> chans)) as F'.
  { apply Forall_fmap. apply (Forall_weaken _ _ _ F).
    intros y. apply nest_map_has_shape. }
  eexists. split; [done|]. split.
  { apply fold_nest_or_has_shape; [apply full_nest_has_shape|done]. }
  intros p Hp.
  destruct (nest_at_fold_or spatial (nest_map truth <$> chans)
              (full_nest spatial false) p (full_nest_has_shape _ _) F' Hp)
    as (b & Hb & Hiff).
  exists b. split; [done|]. rewrite Hiff, nest_at_full by done. split.
  - intros [[=]|(y & Hy & Hyt)].
    apply list_elem_of_fmap in Hy as (u & -> & Hu).
    apply list_elem_of_lookup in Hu as [k Hk].
    pose proof (Forall_lookup_1 _ _ _ _ F Hk) as Hus.
    rewrite (nest_at_nest_map truth spatial u p Hus Hp) in Hyt.
    destruct (nest_at p u) as [v|] eqn:Ev; [|done]. injection Hyt as Ht.
    exists k, v. cbn [nest_at]. by rewrite Hk.
  - intros (k & v & Hv & Ht). right. cbn [nest_at] in Hv.
    destruct (chans !! k) as [u|] eqn:Ek; [|done].
    pose proof (Forall_lookup_1 _ _ _ _ F Ek) as Hus.
    exists (nest_map truth u). split.
    + apply list_elem_of_fmap. exists u. split; [done|].
      by apply list_elem_of_lookup_2 in Ek.
    + rewrite (nest_at_nest_map truth spatial u p Hus Hp), Hv. cbn.
      by rewrite Ht.
Qed.

(** [np.any(a, axis=1)], entry by entry. *)
Lemma np_any_axis1_entries (a : ndarray V) n0 n1 rest :
  wf a -> shape a = n0 :: n1 :: rest ->
  exists x, np_any_axis1 truth a = Ok (NdArray (n0 :: rest) x) /\
    has_shape (n0 :: rest) x /\
    forall r p, (r < n0)%nat -> in_shape p rest ->
      exists b, nest_at (r :: p) x = Some b /\
        (b = true <->
         exists k v, nest_at (r :: k :: p) (data a) = Some v /\ truth v = true).
Proof.
  intros Hwf Hs. unfold wf in Hwf. unfold np_any_axis1. rewrite Hs in *.
  apply has_shape_cons_inv in Hwf as (rows & -> & Lr & F).
  eexists. split; [done|].
  assert (forall row, has_shape (n1 :: rest) row ->
            exists cols, row = Node cols /\
              Forall (has_shape rest) (nest_map truth <$> cols) /\
              Forall (has_shape rest) cols) as Hrow.
  { intros row Hr. apply has_shape_cons_inv in Hr as (cols & -> & _ & Fc).
    exists cols. split; [done|]. split; [|done]. apply Forall_fmap.
    apply (Forall_weaken _ _ _ Fc). intros y. apply nest_map_has_shape. }
  split.
  { apply has_shape_cons. split; [by rewrite length_fmap|].
    apply Forall_fmap. apply (Forall_weaken _ _ _ F). intros row Hr. cbn.
    destruct (Hrow row Hr) as (cols & -> & Fc' & _).
    apply fold_nest_or_has_shape; [apply full_nest_has_shape|done]. }
  intros r p Hr Hp. cbn [nest_at]. rewrite list_lookup_fmap.
  destruct (lookup_lt_is_Some_2 rows r ltac:(lia)) as [row Erow]. rewrite Erow.
  cbn [fmap option_fmap option_map].
  destruct (Hrow row (Forall_lookup_1 _ _ _ _ F Erow)) as (cols & -> & Fc' & Fc).
  destruct (nest_at_fold_or rest (nest_map truth <$> cols)
              (full_nest rest false) p (full_nest_has_shape _ _) Fc' Hp)
    as (b & Hb & Hiff).
  exists b. split; [done|]. rewrite Hiff, nest_at_full by done. split.
  - intros [[=]|(y & Hy & Hyt)].
    apply list_elem_of_fmap in Hy as (u & -> & Hu).
    apply list_elem_of_lookup in Hu as [k Hk].
    pose proof (Forall_lookup_1 _ _ _ _ Fc Hk) as Hus.
    rewrite (nest_at_nest_map truth rest u p Hus Hp) in Hyt.
    destruct (nest_at p u) as [v|] eqn:Ev; [|done]. injection Hyt as Ht.
    exists k, v. by rewrite Hk.
  - intros (k & v & Hv & Ht). right.
    destruct (cols !! k) as [u|] eqn:Ek; [|done].
    pose proof (Forall_lookup_1 _ _ _ _ Fc Ek) as Hus.
    exists (nest_map truth u). split.
    + apply list_elem_of_fmap. exists u. split; [done|].
      by apply list_elem_of_lookup_2 in Ek.
    + rewrite (nest_at_nest_map truth rest u p Hus Hp), Hv. cbn.
      by rewrite Ht.
Qed.
End AnyAxes.

Lemma nonzero_from_elem i l j :
  j ∈ nonzero_from i l <->
  exists k : nat, j = i + Z.of_nat k /\ l !! k = Some true.
Proof.
  revert i. induction l as [|b l IH]; intros i.
  - cbn. split; [by intros ?%elem_of_nil|]. intros (k & _ & Hk).
    by rewrite lookup_nil in Hk.
  - cbn [nonzero_from].
    assert (j ∈ nonzero_from (i + 1) l <->
            exists k : nat, j = i + Z.of_nat (S k) /\ l !! k = Some true) as IH'.
    { rewrite IH. split; intros (k & -> & Hk); exists k; (split; [lia|done]). }
    destruct b.
    + rewrite elem_of_cons, IH'. split.
      * intros [->|(k & -> & Hk)]; [exists 0%nat; split; [lia|done]|].
        by exists (S k).
      * intros ([|k] & -> & Hk); [left; lia|]. right. by exists k.
    + rewrite IH'. split.
      * intros (k & -> & Hk). by exists (S k).
      * intros ([|k] & -> & Hk); [done|]. by exists k.
Qed.

Lemma nonzero_from_ends i l :
  Forall (fun j => default 0 (list.head (nonzero_from i l)) <= j
                   <= default 0 (list.last (nonzero_from i l)))
    (nonzero_from i l).
Proof.
  revert i. induction l as [|b l IH]; intros i; [constructor|].
  cbn [nonzero_from]. destruct b; [|apply IH].
  pose proof (nonzero_from_range (i + 1) l) as Hr. specialize (IH (i + 1)).
  destruct (nonzero_from (i + 1) l) as [|y rest] eqn:E.
  { constructor; [cbn; lia|constructor]. }
  rewrite last_cons_cons. cbn [head default from_option Datatypes.id].
  assert (y ∈ y :: rest) as Hy by (by left).
  pose proof (proj1 (list.Forall_forall _ _) IH y Hy) as By.
  pose proof (proj1 (list.Forall_forall _ _) Hr y Hy) as Ry. cbn in By, Ry.
  constructor; [lia|].
  apply list.Forall_forall. intros j Hj.
  pose proof (proj1 (list.Forall_forall _ _) IH j Hj) as Bj.
  pose proof (proj1 (list.Forall_forall _ _) Hr j Hj) as Rj. cbn in Bj, Rj. lia.
Qed.

Lemma np_take_first_last (l : list Z) :
  (l = [] -> np_take (vector l) [0; -1] = Raise (IndexError "index out of bounds")) /\
  (l <> [] ->
   np_take (vector l) [0; -1]
   = Ok (vector [default 0 (list.head l); default 0 (list.last l)])).
Proof.
  split.
  - intros ->. reflexivity.
  - intros Hne. unfold np_take, vector. cbn [shape data rmapM]. cbv zeta.
    unfold norm_index. cbn [Z.ltb Z.compare].
    assert (0 < Z.of_nat (length l)) as Hl by (destruct l; [done|cbn; lia]).
    destruct (Z.ltb_spec 0 (Z.of_nat (length l))); [|lia].
    destruct (Z.leb_spec 0 (-1 + Z.of_nat (length l))); [|lia].
    destruct (Z.ltb_spec (-1 + Z.of_nat (length l)) (Z.of_nat (length l))); [|lia].
    cbn [Z.leb Z.compare andb Z.to_nat]. rewrite !list_lookup_fmap.
    replace (Z.to_nat (-1 + Z.of_nat (length l))) with (pred (length l)) by lia.
    rewrite <- last_lookup, <- head_lookup.
    destruct (list.head l) as [h|] eqn:Eh; [|by destruct l].
    destruct (list.last l) as [t|] eqn:Et; [|by apply last_None in Et].
    done.
Qed.

(** [np.where] of a one-dimensional array of booleans. *)
Lemma np_where0_vector n (x : nest bool) :
  has_shape [n] x ->
  exists bs, x = Node (Leaf <$> bs) /\ length bs = n /\
             np_where0 (NdArray [n] x) = vector (np_nonzero bs).
Proof.
  intros Hx. apply has_shape_cons_inv in Hx as (l & -> & Hl & Fl).
  assert (exists bs, l = Leaf <$> bs) as [bs ->].
  { clear Hl. induction Fl as [|y l Hy _ [bs ->]]; [by exists []|].
    apply has_shape_nil_inv in Hy as [b ->]. by exists (b :: bs). }
  exists bs. split; [done|]. rewrite length_fmap in Hl. split; [done|].
  unfold np_where0. cbn [shape data tail size_of fold_right]. f_equal.
  assert (ravel (Node (Leaf <$> bs)) = bs) as ->.
  { cbn. clear. induction bs as [|b bs IH]; [done|]. cbn. by rewrite IH. }
  induction (np_nonzero bs) as [|i idx IH]; [done|].
  cbn. by rewrite Z.div_1_r, IH.
Qed.

(** X27. For a two-dimensional image that fills its shape, [img_bounds]
    raises an [IndexError] when no element is non-zero; otherwise it
    returns [c0, c1, r0, r1], the first and last columns and then the first
    and last rows that hold a non-zero element: every non-zero element lies
    in columns [c0..c1] and rows [r0..r1], and each of the four lines holds
    one. *)
Theorem img_bounds_box {V} (truth : V -> bool) (img : ndarray V) n0 n1 :
  wf img -> shape img = [n0; n1] ->
  ((forall r c, ~ lit truth img r c) ->
   img_bounds truth img = Raise (IndexError "index out of bounds")) /\
  ((exists r c, lit truth img r c) ->
   exists c0 c1 r0 r1 : nat,
     img_bounds truth img
     = Ok (vector [Z.of_nat c0; Z.of_nat c1; Z.of_nat r0; Z.of_nat r1]) /\
     (forall r c, lit truth img r c ->
        (c0 <= c <= c1)%nat /\ (r0 <= r <= r1)%nat) /\
     (exists r, lit truth img r c0) /\ (exists r, lit truth img r c1) /\
     (exists c, lit truth img r0 c) /\ (exists c, lit truth img r1 c)).
Proof.
  intros Hwf Hs.
  destruct (np_any_axis0_entries truth img n0 [n1] Hwf Hs) as (x0 & E0 & S0 & A0).
  destruct (np_any_axis1_entries truth img n0 n1 [] Hwf Hs) as (x1 & E1 & S1 & A1).
  destruct (np_where0_vector n1 x0 S0) as (bs0 & -> & L0 & W0).
  destruct (np_where0_vector n0 x1 S1) as (bs1 & -> & L1 & W1).
  unfold img_bounds. rewrite E0, E1. cbn [rbind]. rewrite W0, W1.
  assert (forall r c v, nest_at [r; c] (data img) = Some v ->
            (r < n0)%nat /\ (c < n1)%nat) as Hin.
  { intros r c v Hv. pose proof (nest_at_in_shape _ _ _ _ Hwf Hv) as Hp.
    rewrite Hs in Hp. inversion Hp as [|? ? ? ? Hr Hp1]; subst.
    by inversion Hp1; subst. }
  assert (forall c : nat, Z.of_nat c ∈ np_nonzero bs0 <-> exists r, lit truth img r c)
    as Hcols.
  { intros c. unfold np_nonzero. rewrite nonzero_from_elem. split.
    - intros (k & Hk & Hb). assert (k = c) as -> by lia.
      pose proof (lookup_lt_Some _ _ _ Hb) as Hlt.
      destruct (A0 [c]) as (b & Hb' & Hiff).
      { constructor; [lia|constructor]. }
      cbn [nest_at] in Hb'. rewrite list_lookup_fmap, Hb in Hb'. cbn in Hb'.
      injection Hb' as <-. destruct (proj1 Hiff eq_refl) as (r & v & Hv & Ht).
      exists r, v. done.
    - intros (r & v & Hv & Ht). exists c. split; [lia|].
      destruct (Hin r c v Hv) as [Hr Hc].
      destruct (A0 [c]) as (b & Hb' & Hiff).
      { constructor; [lia|constructor]. }
      cbn [nest_at] in Hb'. rewrite list_lookup_fmap in Hb'.
      destruct (bs0 !! c) as [b'|] eqn:Eb; [|done]. cbn in Hb'.
      injection Hb' as <-. f_equal. apply Hiff. by exists r, v. }
  assert (forall r : nat, Z.of_nat r ∈ np_nonzero bs1 <-> exists c, lit truth img r c)
    as Hrows.
  { intros r. unfold np_nonzero. rewrite nonzero_from_elem. split.
    - intros (k & Hk & Hb). assert (k = r) as -> by lia.
      pose proof (lookup_lt_Some _ _ _ Hb) as Hlt.
      destruct (A1 r []) as (b & Hb' & Hiff); [lia|constructor|].
      cbn [nest_at] in Hb'. rewrite list_lookup_fmap, Hb in Hb'. cbn in Hb'.
      injection Hb' as <-. destruct (proj1 Hiff eq_refl) as (c & v & Hv & Ht).
      exists c, v. done.
    - intros (c & v & Hv & Ht). exists r. split; [lia|].
      destruct (Hin r c v Hv) as [Hr Hc].
      destruct (A1 r []) as (b & Hb' & Hiff); [lia|constructor|].
      cbn [nest_at] in Hb'. rewrite list_lookup_fmap in Hb'.
      destruct (bs1 !! r) as [b'|] eqn:Eb; [|done]. cbn in Hb'.
      injection Hb' as <-. f_equal. apply Hiff. by exists c, v. }
  assert (forall l : list Z, Forall (fun j => 0 <= j) l -> l <> [] ->
            exists a b : nat,
              default 0 (list.head l) = Z.of_nat a /\ default 0 (list.last l) = Z.of_nat b /\
              Z.of_nat a ∈ l /\ Z.of_nat b ∈ l) as Hends.
  { intros l Hpos Hne.
    destruct (list.head l) as [h|] eqn:Eh; [|by destruct l].
    destruct (list.last l) as [t|] eqn:Et; [|by apply last_None in Et].
    assert (h ∈ l) as Hh by (destruct l; [done|]; injection Eh as ->; by left).
    assert (t ∈ l) as Ht.
    { rewrite last_lookup in Et. by apply list_elem_of_lookup_2 in Et. }
    pose proof (proj1 (list.Forall_forall _ _) Hpos h Hh).
    pose proof (proj1 (list.Forall_forall _ _) Hpos t Ht). cbn in *.
    exists (Z.to_nat h), (Z.to_nat t). rewrite !Z2Nat.id by done. done. }
  assert (forall bs, Forall (fun j => 0 <= j) (np_nonzero bs)) as Hnn.
  { intros bs. apply (Forall_weaken _ _ _ (np_nonzero_range bs)). intros j. lia. }
  split.
  - intros Hnone.
    destruct (decide (np_nonzero bs0 = [])) as [->|Hne].
    2:{ exfalso. destruct (Hends _ (Hnn bs0) Hne) as (a & _ & _ & _ & Ha & _).
        apply Hcols in Ha as (r & Hl). by apply (Hnone r a). }
    by rewrite (proj1 (np_take_first_last []) eq_refl).
  - intros (r & c & Hlit).
    assert (np_nonzero bs0 <> []) as Hne0.
    { intros E. assert (Z.of_nat c ∈ np_nonzero bs0) as Hc by (apply Hcols; by exists r).
      rewrite E in Hc. by apply elem_of_nil in Hc. }
    assert (np_nonzero bs1 <> []) as Hne1.
    { intros E. assert (Z.of_nat r ∈ np_nonzero bs1) as Hr by (apply Hrows; by exists c).
      rewrite E in Hr. by apply elem_of_nil in Hr. }
    rewrite (proj2 (np_take_first_last _) Hne0). cbn [rbind].
    rewrite (proj2 (np_take_first_last _) Hne1). cbn [rbind].
    destruct (Hends _ (Hnn bs0) Hne0) as (c0 & c1 & Ec0 & Ec1 & Hc0 & Hc1).
    destruct (Hends _ (Hnn bs1) Hne1) as (r0 & r1 & Er0 & Er1 & Hr0 & Hr1).
    rewrite Ec0, Ec1, Er0, Er1.
    exists c0, c1, r0, r1. split; [reflexivity|].
    pose proof (nonzero_from_ends 0 bs0) as Sc.
    pose proof (nonzero_from_ends 0 bs1) as Sr.
    fold (np_nonzero bs0) in Sc. fold (np_nonzero bs1) in Sr.
    rewrite Ec0, Ec1 in Sc. rewrite Er0, Er1 in Sr.
    split; [|by rewrite <- !Hcols, <- !Hrows].
    intros r' c' Hl'.
    assert (Z.of_nat c' ∈ np_nonzero bs0) as Hc' by (apply Hcols; by exists r').
    assert (Z.of_nat r' ∈ np_nonzero bs1) as Hr' by (apply Hrows; by exists c').
    pose proof (proj1 (list.Forall_forall _ _) Sc _ Hc') as Bc.
    pose proof (proj1 (list.Forall_forall _ _) Sr _ Hr') as Br. cbn in Bc, Br. lia.
Qed.

Lemma img_bounds_box_witness :
  ((forall r c, ~ lit nonzero grid3 r c) ->
   img_bounds nonzero grid3 = Raise (IndexError "index out of bounds")) /\
  ((exists r c, lit nonzero grid3 r c) ->
   exists c0 c1 r0 r1 : nat,
     img_bounds nonzero grid3
     = Ok (vector [Z.of_nat c0; Z.of_nat c1; Z.of_nat r0; Z.of_nat r1]) /\
     (forall r c, lit nonzero grid3 r c ->
        (c0 <= c <= c1)%nat /\ (r0 <= r <= r1)%nat) /\
     (exists r, lit nonzero grid3 r c0) /\ (exists r, lit nonzero grid3 r c1) /\
     (exists c, lit nonzero grid3 r0 c) /\ (exists c, lit nonzero grid3 r1 c)).
Proof.
  apply (img_bounds_box nonzero grid3 3 3); [|reflexivity].
  unfold wf. simpl. repeat (split || constructor).
Defined.

(** ** Flat indices and positions (C order) *)

Lemma size_of_cons n s : size_of (n :: s) = Z.of_nat n * size_of s.
Proof. reflexivity. Qed.

Lemma size_of_app a b : size_of (a ++ b) = size_of a * size_of b.
Proof.
  induction a as [|n a IH]; [cbn [app]; change (size_of []) with 1; lia|].
  rewrite <- app_comm_cons, !size_of_cons, IH. ring.
Qed.

Lemma size_of_rev s : size_of (rev s) = size_of s.
Proof.
  induction s as [|n s IH]; [done|].
  cbn [rev]. rewrite size_of_app, IH, !size_of_cons.
  change (size_of []) with 1. ring.
Qed.

Lemma size_of_pos s : Forall (fun n => (0 < n)%nat) s -> 0 < size_of s.
Proof.
  induction 1 as [|n s Hn _ IH]; [done|]. rewrite size_of_cons. nia.
Qed.

Lemma size_of_pos_inv s : 0 < size_of s -> Forall (fun n => (0 < n)%nat) s.
Proof.
  induction s as [|n s IH]; [constructor|]. rewrite size_of_cons. intros Hp.
  pose proof (size_of_nonneg s). constructor; [nia|]. apply IH. nia.
Qed.

Lemma unravel_rev_app idx a b :
  Forall (fun n => (0 < n)%nat) a ->
  unravel_rev idx (a ++ b) = unravel_rev idx a ++ unravel_rev (idx `div` size_of a) b.
Proof.
  intros Ha. revert idx. induction Ha as [|m a Hm Ha IH]; intros idx.
  - cbn [app unravel_rev]. change (size_of []) with 1. by rewrite Z.div_1_r.
  - rewrite <- app_comm_cons. cbn [unravel_rev app]. f_equal.
    rewrite IH, size_of_cons. do 2 f_equal.
    apply Z.div_div; [lia|]. by apply size_of_pos.
Qed.

Lemma unravel_rev_mod idx a :
  Forall (fun n => (0 < n)%nat) a ->
  unravel_rev (idx `mod` size_of a) a = unravel_rev idx a.
Proof.
  intros Ha. revert idx. induction Ha as [|m a Hm Ha IH]; intros idx; [done|].
  cbn [unravel_rev]. rewrite size_of_cons.
  pose proof (size_of_pos a Ha) as Hp.
  rewrite (Z.rem_mul_r idx (Z.of_nat m) (size_of a)) by lia.
  pose proof (Z.mod_pos_bound idx (Z.of_nat m) ltac:(lia)) as Hb.
  set (q := (idx `div` Z.of_nat m) `mod` size_of a).
  f_equal.
  - replace (idx `mod` Z.of_nat m + Z.of_nat m * q)
      with (idx `mod` Z.of_nat m + q * Z.of_nat m) by ring.
    rewrite Z.mod_add by lia. by apply Z.mod_small.
  - replace (idx `mod` Z.of_nat m + Z.of_nat m * q)
      with (q * Z.of_nat m + idx `mod` Z.of_nat m) by ring.
    rewrite Z.div_add_l by lia.
    rewrite (Z.div_small (idx `mod` Z.of_nat m)) by lia. rewrite Z.add_0_r.
    apply IH.
Qed.

(** The first coordinate of a flat index is its quotient by the size of
    one block, the other coordinates are those of the remainder. *)
Lemma np_unravel_index_cons idx n s :
  0 <= idx < size_of (n :: s) ->
  exists l,
    np_unravel_index (idx `mod` size_of s) s = Ok l /\
    np_unravel_index idx (n :: s) = Ok (idx `div` size_of s :: l).
Proof.
  intros Hidx. rewrite size_of_cons in Hidx.
  pose proof (size_of_nonneg s) as Hs0.
  assert (0 < size_of s) as Hp by nia.
  pose proof (size_of_pos_inv s Hp) as Fs.
  pose proof (Z.mod_pos_bound idx (size_of s) Hp) as Hr.
  unfold np_unravel_index.
  destruct (Z.leb_spec 0 (idx `mod` size_of s)); [|lia].
  destruct (Z.ltb_spec (idx `mod` size_of s) (size_of s)); [|lia].
  destruct (Z.leb_spec 0 idx); [|lia].
  rewrite size_of_cons.
  destruct (Z.ltb_spec idx (Z.of_nat n * size_of s)); [|lia].
  cbn [andb]. eexists. split; [done|]. f_equal.
  cbn [rev]. rewrite unravel_rev_app by (by apply Forall_rev).
  rewrite rev_app_distr. cbn [unravel_rev rev app].
  rewrite <- (unravel_rev_mod idx (rev s)) by (by apply Forall_rev).
  rewrite !size_of_rev.
  f_equal. apply Z.mod_small. split; [by apply Z.div_pos|].
  apply Z.div_lt_upper_bound; lia.
Qed.

Lemma lookup_concat_block {X} (bs : list (list X)) k q r :
  Forall (fun b => length b = k) bs -> (r < k)%nat ->
  concat bs !! (q * k + r)%nat = bs !! q ≫= (fun b => b !! r).
Proof.
  intros F Hr. revert q. induction F as [|b bs Hb _ IH]; intros q.
  - cbn. by rewrite !lookup_nil.
  - cbn [concat]. destruct q as [|q].
    + cbn. rewrite lookup_app_l by lia. done.
    + rewrite lookup_app_r by (rewrite Hb; lia). rewrite Hb.
      replace (S q * k + r - k)%nat with (q * k + r)%nat by lia.
      cbn. apply IH.
Qed.

(** The element at a flat index is the element at the position that
    [np.unravel_index] gives for it. *)
Lemma ravel_at {V} s (x : nest V) idx :
  has_shape s x -> 0 <= idx < size_of s ->
  exists p, in_shape p s /\
            np_unravel_index idx s = Ok (Z.of_nat <$> p) /\
            ravel x !! Z.to_nat idx = nest_at p x.
Proof.
  revert x idx. induction s as [|n s IH]; intros x idx Hx Hidx.
  - apply has_shape_nil_inv in Hx as [a ->]. change (size_of []) with 1 in Hidx.
    assert (idx = 0) as -> by lia. exists []. split; [constructor|]. done.
  - pose proof Hidx as Hidx'. rewrite size_of_cons in Hidx'.
    pose proof (size_of_nonneg s) as Hs0.
    assert (0 < size_of s) as Hp by nia.
    pose proof (Z.mod_pos_bound idx (size_of s) Hp) as Hr.
    assert (0 <= idx `div` size_of s < Z.of_nat n) as Hq.
    { split; [apply Z.div_pos; lia|]. apply Z.div_lt_upper_bound; lia. }
    apply has_shape_cons_inv in Hx as (l & -> & Ll & Fl).
    destruct (lookup_lt_is_Some_2 l (Z.to_nat (idx `div` size_of s)) ltac:(lia))
      as [y Ey].
    pose proof (Forall_lookup_1 _ _ _ _ Fl Ey) as Hy.
    destruct (IH y (idx `mod` size_of s) Hy Hr) as (p & Hp' & Hu & Hl).
    destruct (np_unravel_index_cons idx n s Hidx) as (l' & Hu' & ->).
    rewrite Hu in Hu'. injection Hu' as <-.
    exists (Z.to_nat (idx `div` size_of s) :: p). split; [|split].
    + constructor; [lia|done].
    + rewrite fmap_cons, Z2Nat.id by lia. done.
    + cbn [ravel nest_at]. rewrite Ey, <- Hl.
      assert (Z.to_nat idx
              = (Z.to_nat (idx `div` size_of s) * Z.to_nat (size_of s)
                 + Z.to_nat (idx `mod` size_of s))%nat) as ->.
      { pose proof (Z.div_mod idx (size_of s) ltac:(lia)). nia. }
      rewrite (lookup_concat_block _ (Z.to_nat (size_of s))).
      * rewrite list_lookup_fmap, Ey. done.
      * apply Forall_fmap. apply (Forall_weaken _ _ _ Fl). intros z Hz. cbn.
        pose proof (ravel_length s z Hz). lia.
      * lia.
Qed.

Lemma flat_index_lt s p :
  in_shape p s -> Z.of_nat (flat_index s p) < size_of s.
Proof.
  intros Hp. induction Hp as [|i n p s Hi _ IH]; [done|].
  cbn [flat_index]. rewrite size_of_cons.
  pose proof (size_of_nonneg s). nia.
Qed.

Lemma ravel_flat_index {V} s (x : nest V) p :
  has_shape s x -> in_shape p s -> ravel x !! flat_index s p = nest_at p x.
Proof.
  revert x p. induction s as [|n s IH]; intros x p Hx Hp.
  - apply has_shape_nil_inv in Hx as [a ->]. by inversion Hp.
  - apply has_shape_cons_inv in Hx as (l & -> & Ll & Fl).
    inversion Hp as [|i ? p' ? Hi Hp']; subst. cbn [flat_index ravel nest_at].
    pose proof (flat_index_lt s p' Hp') as Hlt.
    rewrite (lookup_concat_block _ (Z.to_nat (size_of s))).
    + rewrite list_lookup_fmap.
      destruct (lookup_lt_is_Some_2 l i ltac:(lia)) as [y Ey]. rewrite Ey. cbn.
      apply IH; [|done]. by apply (Forall_lookup_1 _ _ _ _ Fl Ey).
    + apply Forall_fmap. apply (Forall_weaken _ _ _ Fl). intros z Hz. cbn.
      pose proof (ravel_length s z Hz). lia.
    + lia.
Qed.

(** The position of a flat index is found again by [np.unravel_index]. *)
Lemma unravel_flat_index s p :
  in_shape p s ->
  np_unravel_index (Z.of_nat (flat_index s p)) s = Ok (Z.of_nat <$> p).
Proof.
  intros Hp. induction Hp as [|i n p s Hi Hp IH]; [done|].
  pose proof (flat_index_lt s p Hp) as Hlt.
  pose proof (size_of_nonneg s) as Hs0.
  cbn [flat_index].
  destruct (np_unravel_index_cons (Z.of_nat (i * Z.to_nat (size_of s) + flat_index s p))
              n s) as (l & Hl & ->).
  { rewrite size_of_cons. nia. }
  replace (Z.of_nat (i * Z.to_nat (size_of s) + flat_index s p))
    with (Z.of_nat (flat_index s p) + Z.of_nat i * size_of s) in * by lia.
  rewrite Z.mod_add in Hl by lia. rewrite Z.mod_small in Hl by lia.
  rewrite IH in Hl. injection Hl as <-.
  rewrite Z.div_add by lia. rewrite Z.div_small by lia. done.
Qed.

(** A flat index is that of the position [np.unravel_index] gives. *)
Lemma flat_index_unravel s idx p :
  0 <= idx < size_of s ->
  np_unravel_index idx s = Ok (Z.of_nat <$> p) ->
  Z.of_nat (flat_index s p) = idx.
Proof.
  revert idx p. induction s as [|n s IH]; intros idx p Hidx Hu.
  - cbn in Hidx. destruct p; cbn; lia.
  - destruct (np_unravel_index_cons idx n s Hidx) as (l & Hl & Hfull).
    rewrite Hfull in Hu. injection Hu as Hu.
    destruct p as [|i p]; [done|]. cbn in Hu. injection Hu as Hi Hp. subst l.
    rewrite size_of_cons in Hidx. pose proof (size_of_nonneg s) as Hs0.
    assert (0 < size_of s) as Hpos by nia.
    pose proof (Z.mod_pos_bound idx (size_of s) Hpos) as Hr.
    specialize (IH _ p Hr Hl). cbn [flat_index].
    pose proof (Z.div_mod idx (size_of s) ltac:(lia)). nia.
Qed.

(** ** generate_pos_neg_label_crop_centers: where the centres come from *)

Section SamplerSources.
Context {V W G : Type}.
Context (truth : V -> bool) (above : W -> W -> bool).
Context (rand : G -> Q * G) (randint : Z -> G -> Z * G).

Lemma np_nonzero_elem l j :
  j ∈ np_nonzero l <-> exists k : nat, j = Z.of_nat k /\ l !! k = Some true.
Proof.
  unfold np_nonzero. rewrite nonzero_from_elem.
  split; intros (k & -> & Hk); exists k; (split; [lia|done]).
Qed.

(** The flattened reduction of an array over its channels, position by
    position. *)
Lemma any_flat {U} (t : U -> bool) (a : ndarray U) c spatial :
  wf a -> shape a = c :: spatial ->
  exists flat,
    (any_a <- np_any_axis0 t a ;; Ok (ravel (data any_a))) = Ok flat /\
    Z.of_nat (length flat) = size_of spatial /\
    (forall p, in_shape p spatial ->
       exists b, flat !! flat_index spatial p = Some b /\
                 (b = true <-> foreground_at t a p)) /\
    (forall k b, flat !! k = Some b ->
       exists p, in_shape p spatial /\
                 np_unravel_index (Z.of_nat k) spatial = Ok (Z.of_nat <$> p) /\
                 (b = true <-> foreground_at t a p)).
Proof.
  intros Hwf Hs.
  destruct (np_any_axis0_entries t a c spatial Hwf Hs) as (x & -> & Hx & A).
  cbn [rbind data]. eexists. split; [done|].
  split; [by apply ravel_length|]. split.
  - intros p Hp. destruct (A p Hp) as (b & Hb & Hiff). exists b.
    split; [|done]. by rewrite (ravel_flat_index spatial x p Hx Hp).
  - intros k b Hk. pose proof (lookup_lt_Some _ _ _ Hk) as Hlt.
    pose proof (ravel_length spatial x Hx) as Hl.
    destruct (ravel_at spatial x (Z.of_nat k) Hx ltac:(lia)) as (p & Hp & Hu & Hr).
    rewrite Nat2Z.id, Hk in Hr. exists p. split; [done|]. split; [done|].
    destruct (A p Hp) as (b' & Hb' & Hiff). rewrite Hb' in Hr.
    injection Hr as ->. done.
Qed.

Lemma fmap_of_nat_inj (p q : list nat) : Z.of_nat <$> p = Z.of_nat <$> q -> p = q.
Proof.
  revert q. induction p as [|i p IH]; intros [|j q] E; try done.
  cbn in E. injection E as E1 E2. f_equal; [lia|by apply IH].
Qed.

(** What the flat indices of the two sets stand for. *)
Lemma fg_bg_indicies_meaning (label : ndarray V) (image : option (ndarray W)) thr
    c spatial fg bg :
  wf label -> shape label = c :: spatial -> image_fits spatial image ->
  fg_bg_indicies truth above label image thr = Ok (fg, bg) ->
  (forall idx, idx ∈ fg \/ idx ∈ bg ->
     0 <= idx < size_of spatial /\
     exists pos, in_shape pos spatial /\
       np_unravel_index idx spatial = Ok (Z.of_nat <$> pos) /\
       (idx ∈ fg -> foreground_at truth label pos) /\
       (idx ∈ bg -> background_at truth above label image thr pos)) /\
  (forall pos, foreground_at truth label pos ->
     Z.of_nat (flat_index spatial pos) ∈ fg) /\
  (forall pos, in_shape pos spatial ->
     background_at truth above label image thr pos ->
     Z.of_nat (flat_index spatial pos) ∈ bg).
Proof.
  intros Hwf Hs Himg. unfold fg_bg_indicies.
  destruct (any_flat truth label c spatial Hwf Hs) as (lf & El & Ll & Pl & Kl).
  destruct (np_any_axis0 truth label) as [any_label|]; [|done].
  cbn [rbind] in El. injection El as El. cbn [rbind]. cbv zeta. rewrite El.
  assert (forall pos, foreground_at truth label pos ->
            Z.of_nat (flat_index spatial pos) ∈ np_nonzero lf) as Hfgne.
  { intros pos Hf.
    assert (in_shape pos spatial) as Hp.
    { destruct Hf as (k & v & Hv & _).
      pose proof (nest_at_in_shape _ _ _ _ Hwf Hv) as Hin. rewrite Hs in Hin.
      by inversion Hin. }
    destruct (Pl pos Hp) as (b & Hb & Hiff).
    apply np_nonzero_elem. eexists. split; [done|].
    rewrite Hb. f_equal. by apply Hiff. }
  assert (forall idx, idx ∈ np_nonzero lf ->
            0 <= idx < size_of spatial /\
            exists pos, in_shape pos spatial /\
              np_unravel_index idx spatial = Ok (Z.of_nat <$> pos) /\
              foreground_at truth label pos) as Hfg.
  { intros idx Hin. apply np_nonzero_elem in Hin as (k & -> & Hk).
    pose proof (lookup_lt_Some _ _ _ Hk). split; [lia|].
    destruct (Kl k true Hk) as (p & Hp & Hu & Hiff).
    exists p. split; [done|]. split; [done|]. by apply Hiff. }
  assert (forall idx pos, idx ∈ np_nonzero lf ->
            np_unravel_index idx spatial = Ok (Z.of_nat <$> pos) ->
            foreground_at truth label pos) as Hfg'.
  { intros idx pos Hin Hu. destruct (Hfg idx Hin) as (_ & p & _ & Hu' & Hf).
    rewrite Hu in Hu'. injection Hu' as E. apply fmap_of_nat_inj in E. by subst. }
  destruct image as [img|].
  - destruct Himg as (Hwfi & ci & Hsi).
    destruct (any_flat (fun w => above w thr) img ci spatial Hwfi Hsi)
      as (li & Ei & Li & Pi & Ki).
    destruct (np_any_axis0 (fun w => above w thr) img) as [any_img|]; [|done].
    cbn [rbind] in Ei. injection Ei as Ei. cbn [rbind]. rewrite Ei.
    unfold np_logical_and. rewrite decide_True by (rewrite length_fmap; lia).
    cbn [rbind]. intros [= <- <-].
    assert (forall k : nat,
              zip_with andb li (negb <$> lf) !! k = Some true <->
              li !! k = Some true /\ lf !! k = Some false) as Hzip.
    { intros k. rewrite lookup_zip_with, list_lookup_fmap.
      destruct (li !! k) as [[|]|], (lf !! k) as [[|]|]; cbn;
        (split; [intros ?|intros [? ?]]); done. }
    split; [|split; [done|]].
    + intros idx Hin.
      assert (0 <= idx < size_of spatial /\
              exists pos, in_shape pos spatial /\
                np_unravel_index idx spatial = Ok (Z.of_nat <$> pos)) as (Hr & pos & Hp & Hu).
      { destruct Hin as [Hin|Hin].
        - destruct (Hfg idx Hin) as (? & pos & ? & ? & _). split; [done|]. by exists pos.
        - apply np_nonzero_elem in Hin as (k & -> & Hk).
          apply Hzip in Hk as [Hk _]. pose proof (lookup_lt_Some _ _ _ Hk).
          split; [lia|]. destruct (Ki k true Hk) as (p & Hp & Hu & _). by exists p. }
      split; [done|]. exists pos. split; [done|]. split; [done|]. split.
      * intros Hf. by apply (Hfg' idx).
      * intros Hb. apply np_nonzero_elem in Hb as (k & -> & Hk).
        apply Hzip in Hk as [Hki Hkl].
        destruct (Kl k false Hkl) as (p1 & _ & Hu1 & Hiff1).
        destruct (Ki k true Hki) as (p2 & _ & Hu2 & Hiff2).
        rewrite Hu in Hu1, Hu2. injection Hu1 as E1. injection Hu2 as E2.
        apply fmap_of_nat_inj in E1, E2. subst p1 p2. split.
        -- intros Hf. apply Hiff1 in Hf. done.
        -- by apply Hiff2.
    + intros pos Hp [Hnf Hi].
      destruct (Pl pos Hp) as (b & Hb & Hiff).
      destruct (Pi pos Hp) as (b' & Hb' & Hiff').
      apply np_nonzero_elem. eexists. split; [done|]. apply Hzip. split.
      * rewrite Hb'. f_equal. by apply Hiff'.
      * rewrite Hb. f_equal. destruct b; [|done]. exfalso. by apply Hnf, Hiff.
  - intros [= <- <-].
    assert (forall k : nat, (negb <$> lf) !! k = Some true <-> lf !! k = Some false)
      as Hneg.
    { intros k. rewrite list_lookup_fmap.
      destruct (lf !! k) as [[|]|]; cbn; split; intros ?; done. }
    split; [|split; [done|]].
    + intros idx Hin.
      assert (0 <= idx < size_of spatial /\
              exists pos, in_shape pos spatial /\
                np_unravel_index idx spatial = Ok (Z.of_nat <$> pos)) as (Hr & pos & Hp & Hu).
      { destruct Hin as [Hin|Hin].
        - destruct (Hfg idx Hin) as (? & pos & ? & ? & _). split; [done|]. by exists pos.
        - apply np_nonzero_elem in Hin as (k & -> & Hk).
          apply Hneg in Hk. pose proof (lookup_lt_Some _ _ _ Hk).
          split; [lia|]. destruct (Kl k false Hk) as (p & Hp & Hu & _). by exists p. }
      split; [done|]. exists pos. split; [done|]. split; [done|]. split.
      * intros Hf. by apply (Hfg' idx).
      * intros Hb. apply np_nonzero_elem in Hb as (k & -> & Hk).
        apply Hneg in Hk.
        destruct (Kl k false Hk) as (p1 & _ & Hu1 & Hiff1).
        rewrite Hu in Hu1. injection Hu1 as E1.
        apply fmap_of_nat_inj in E1. subst p1. split; [|done].
        intros Hf. apply Hiff1 in Hf. done.
    + intros pos Hp [Hnf _].
      destruct (Pl pos Hp) as (b & Hb & Hiff).
      apply np_nonzero_elem. eexists. split; [done|]. apply Hneg.
      rewrite Hb. f_equal. destruct b; [|done]. exfalso. by apply Hnf, Hiff.
Qed.




(** X29. The two index sets of lines 198-204, voxel by voxel: the flat
    index of a position of the spatial volume is in [fg_indicies] exactly
    when the voxel is a foreground voxel and in [bg_indicies] exactly when
    it is a background voxel; the sets hold nothing but flat indices of
    such positions, and no index is in both. *)
Theorem fg_bg_indicies_voxels (label : ndarray V) (image : option (ndarray W)) thr
    c spatial :
  wf label -> shape label = c :: spatial -> image_fits spatial image ->
  exists fg bg,
    fg_bg_indicies truth above label image thr = Ok (fg, bg) /\
    (forall pos, in_shape pos spatial ->
       (Z.of_nat (flat_index spatial pos) ∈ fg <-> foreground_at truth label pos) /\
       (Z.of_nat (flat_index spatial pos) ∈ bg
        <-> background_at truth above label image thr pos)) /\
    (forall idx, idx ∈ fg \/ idx ∈ bg ->
       exists pos, in_shape pos spatial /\ idx = Z.of_nat (flat_index spatial pos)) /\
    (forall idx, ~ (idx ∈ fg /\ idx ∈ bg)).
Proof.
  intros Hwf Hs Himg.
  destruct (fg_bg_indicies_ok truth above label image thr c spatial Hwf Hs Himg)
    as (fg & bg & Hfb & _ & _).
  destruct (fg_bg_indicies_meaning label image thr c spatial fg bg
              Hwf Hs Himg Hfb) as (Hmean & Hfgin & Hbgin).
  exists fg, bg. split; [done|]. split; [|split].
  - intros pos Hp.
    assert (forall idx pos', idx = Z.of_nat (flat_index spatial pos) ->
              np_unravel_index idx spatial = Ok (Z.of_nat <$> pos') -> pos' = pos)
      as Hsame.
    { intros idx pos' -> Hu. rewrite (unravel_flat_index spatial pos Hp) in Hu.
      injection Hu as Hu. by apply fmap_of_nat_inj in Hu. }
    split; split.
    + intros Hin. destruct (Hmean _ (or_introl Hin)) as (_ & pos' & _ & Hu & Mfg & _).
      rewrite <- (Hsame _ pos' eq_refl Hu). by apply Mfg.
    + apply Hfgin.
    + intros Hin. destruct (Hmean _ (or_intror Hin)) as (_ & pos' & _ & Hu & _ & Mbg).
      rewrite <- (Hsame _ pos' eq_refl Hu). by apply Mbg.
    + by apply Hbgin.
  - intros idx Hin. destruct (Hmean idx Hin) as (Hr & pos & Hp & Hu & _).
    exists pos. split; [done|]. symmetry. by apply flat_index_unravel.
  - intros idx [H1 H2].
    destruct (Hmean idx (or_introl H1)) as (_ & pos & _ & _ & Mfg & Mbg).
    destruct (Mbg H2) as [Hnf _]. by apply Hnf, Mfg.
Qed.
End SamplerSources.

Lemma label_10x10_wf : wf label_10x10.
Proof. unfold wf. vm_compute. repeat (split || constructor). Qed.


Lemma fg_bg_indicies_voxels_witness :
  exists fg bg,
    fg_bg_indicies nonzero Z.gtb label_10x10 None 0 = Ok (fg, bg) /\
    (forall pos, in_shape pos [10; 10]%nat ->
       (Z.of_nat (flat_index [10; 10]%nat pos) ∈ fg
        <-> foreground_at nonzero label_10x10 pos) /\
       (Z.of_nat (flat_index [10; 10]%nat pos) ∈ bg
        <-> background_at nonzero Z.gtb label_10x10 None 0 pos)) /\
    (forall idx, idx ∈ fg \/ idx ∈ bg ->
       exists pos, in_shape pos [10; 10]%nat /\
                   idx = Z.of_nat (flat_index [10; 10]%nat pos)) /\
    (forall idx, ~ (idx ∈ fg /\ idx ∈ bg)).
Proof.
  apply (fg_bg_indicies_voxels nonzero Z.gtb label_10x10 None 0 1%nat [10; 10]%nat).
  - exact label_10x10_wf.
  - reflexivity.
  - exact I.
Defined.
